(** * LocalPix: the biometric identification pipeline

    A shallow embedding of [ai_engine.py], of the tables of [models.py] and of
    the three handlers of [app.py] that touch face descriptors
    ([process_photo_ai], [identify_client], [close_day_api]), with the
    properties of the specification stated over them.

    Conventions of the embedding.
    - The floats of the identification (embeddings, similarities, the
      threshold) are IEEE 754 binary64 numbers, as Python and NumPy have
      them: the primitive [float] with its rounding operations, its [nan]
      and its infinities.  [np.dot] adds the products from the first entry
      to the last.
    - The amounts of money of the sales side are read as exact real numbers
      ([R]): they are added and reported, and no branch depends on their
      rounding.  The [nan] a request can carry there is a value of its own.
    - A Python exception is a value of [exn]; code that may raise returns a
      [result], and [try ... except Exception] is [try_except].
    - What lies outside the repository (the DeepFace model, the file system,
      the database engine refusing a statement) is an input of the handler
      that uses it. *)

From Stdlib Require Import Reals Lra Lia ZArith List Ascii String Bool.
From Stdlib Require Import Permutation Sorted Floats.
Import ListNotations.

Set Implicit Arguments.
Set Warnings "-inexact-float,-register-all".

Open Scope string_scope.
Open Scope list_scope.
Open Scope Z_scope.

(** ** Exceptions *)

Module Py.

Inductive exn : Type :=
| ValueError      (* np.dot on misaligned shapes, tuple unpacking *)
| KeyError        (* res['embedding'] on a dict without the key *)
| TypeError       (* float + None *)
| AttributeError  (* attribute of None *)
| OSError         (* open / write / os.remove *)
| BinasciiError   (* base64.b64decode *)
| ModelError      (* anything DeepFace.represent raises *)
| OperationalError (* the database refusing a statement *)
| IntegrityError.  (* NULL in a column that is NOT NULL *)

Inductive result (A : Type) : Type :=
| Ret (a : A)
| Raise (e : exn).

Arguments Ret {A} a.
Arguments Raise {A} e.

Definition bind {A B} (c : result A) (k : A -> result B) : result B :=
  match c with
  | Ret a => k a
  | Raise e => Raise e
  end.

(** [try: body except Exception as e: handler e] *)
Definition try_except {A} (body : result A) (handler : exn -> result A)
  : result A :=
  match body with
  | Ret a => Ret a
  | Raise e => handler e
  end.

(** A dict with string keys and integer values, in insertion order. *)
Definition dict := list (string * Z).

Fixpoint lookup (d : dict) (k : string) : option Z :=
  match d with
  | [] => None
  | (k', v) :: d' => if String.eqb k' k then Some v else lookup d' k
  end.

(** [d.get(k, default)] *)
Definition get (d : dict) (k : string) (default : Z) : Z :=
  match lookup d k with
  | Some v => v
  | None => default
  end.

(** What [json.loads] gives on a request body: [None], a [bool], an
    [int], a [float], a [str], a [list] or a [dict] (its keys in
    insertion order, each once). *)
Inductive json : Type :=
| JsNull
| JsBool (b : bool)
| JsInt (n : Z)
| JsFloat (x : float)
| JsStr (s : string)
| JsList (items : list json)
| JsDict (entries : list (string * json)).

(** [bool(v)], which [not v] and [v or default] test: [None], [False],
    zero, the empty string, the empty list and the empty dict are false;
    [nan] is true. *)
Definition truthy (v : json) : bool :=
  match v with
  | JsNull => false
  | JsBool b => b
  | JsInt n => negb (n =? 0)
  | JsFloat x => negb (PrimFloat.eqb x 0%float)
  | JsStr s => negb (String.eqb s "")
  | JsList items => match items with [] => false | _ :: _ => true end
  | JsDict entries => match entries with [] => false | _ :: _ => true end
  end.

(** [data.get(k)]: the value under [k], [None] without the key;
    [AttributeError] when [data] is no dict. *)
Definition dict_get (data : json) (k : string) : result json :=
  match data with
  | JsDict entries =>
      Ret (match find (fun kv => String.eqb (fst kv) k) entries with
           | Some kv => snd kv
           | None => JsNull
           end)
  | _ => Raise AttributeError
  end.

End Py.

Import Py.

Declare Scope py_scope.
Notation "x <- c ;; k" := (bind c (fun x => k))
  (at level 61, c at next level, right associativity) : py_scope.
Open Scope py_scope.

(** ** ai_engine.py *)

Module AIEngine.

(** One element of the list [DeepFace.represent] returns: a dict with the
    keys [embedding] and [facial_area]; a key may be absent. *)
Record represent_item := {
  item_embedding : option (list float);
  item_facial_area : option dict
}.

(** What the call of [DeepFace.represent] does: it returns its list or it
    raises (no readable image, model not loadable, ...). *)
Definition represent_outcome := result (list represent_item).

(** An element of the list [extract_faces] returns. *)
Record face := {
  embedding : list float;
  box : dict
}.

(** The body of the [for res in results] loop: the guard
    [res.get('facial_area', {}).get('w', 0) > 0], then the append, where
    [res['embedding']] raises [KeyError] on a missing key. *)
Definition extract_one (res : represent_item) (extracted : list face)
  : result (list face) :=
  let area := match item_facial_area res with Some a => a | None => [] end in
  if 0 <? get area "w" 0 then
    match item_embedding res, item_facial_area res with
    | Some e, Some a => Ret (extracted ++ [{| embedding := e; box := a |}])
    | _, _ => Raise KeyError
    end
  else Ret extracted.

Fixpoint extract_loop (results : list represent_item) (extracted : list face)
  : result (list face) :=
  match results with
  | [] => Ret extracted
  | res :: rest =>
      extracted' <- extract_one res extracted ;;
      extract_loop rest extracted'
  end.

(** [AIEngine.extract_faces]: the [try] block, and the handler that prints
    and returns the empty list.  [Ret] is a normal return, [Raise] an
    exception that leaves the method. *)
Definition extract_faces (represent : represent_outcome)
  : result (list face) :=
  try_except
    (results <- represent ;; extract_loop results [])
    (fun _ => Ret []).

Open Scope float_scope.

(** [np.dot] on two one-dimensional float64 arrays of the same length:
    the products of the paired entries, added from the first to the
    last, each operation rounded. *)
Definition dot (v1 v2 : list float) : float :=
  fold_left (fun acc xy => acc + fst xy * snd xy) (combine v1 v2) 0.

(** [np.dot] of two one-dimensional arrays: [ValueError] (shapes not
    aligned) unless they have the same length. *)
Definition np_dot (v1 v2 : list float) : result float :=
  if Nat.eqb (List.length v1) (List.length v2) then Ret (dot v1 v2)
  else Raise ValueError.

(** [np.linalg.norm] of a one-dimensional array: [sqrt(x.dot(x))]. *)
Definition norm (v : list float) : float := sqrt (dot v v).

(** [AIEngine.get_similarity].  NumPy does not raise on a zero divisor:
    the quotient is [nan] or an infinity. *)
Definition get_similarity (v1 v2 : list float) : result float :=
  d <- np_dot v1 v2 ;;
  Ret (d / (norm v1 * norm v2)).

Close Scope float_scope.

End AIEngine.

(** ** models.py *)

Module Models.

(** Timestamps ([db.DateTime]) are counted in a fixed unit from a fixed
    origin; rendering one as text ([strftime]) is left out. *)
Definition datetime := Z.

Module Photo.
Record t := {
  id : Z;
  filename : string;
  relative_path : string;
  photographer : option string;
  created_at : datetime
}.
End Photo.

(** [vector_json] and [box_json] hold what [json.loads] gives back on the
    stored text, which is what [json.dumps] was given. *)
Module FaceDescriptor.
Record t := {
  id : Z;
  photo_id : Z;
  vector_json : list float;
  box_json : dict
}.
End FaceDescriptor.

Module SaleItem.
Record t := {
  product_type : option string;
  price : option R;
  photographer : option string
}.
End SaleItem.

Module Sale.
Record t := {
  id : Z;
  timestamp : datetime;
  final_total : R;
  items : list SaleItem.t
}.
End Sale.

Module EODReport.
Record t := {
  id : Z;
  timestamp : datetime;
  total_revenue : R;
  digital_count : Z;
  print_count : Z;
  photographer_splits_json : list (string * R);
  closing_user : string;
  notes : string
}.
End EODReport.

(** The committed content of the tables the three handlers use, with the
    columns they read or write.  The sales and the reports stand in the
    order in which their queries list them; the rows of the descriptors
    stand in any order, and [rowid_scan] lists them. *)
Record database := {
  photos : list Photo.t;
  face_descriptors : list FaceDescriptor.t;
  sales : list Sale.t;
  eod_reports : list EODReport.t
}.

(** [db.session]: the rows as the open transaction sees them, next to the
    committed ones.  A request starts with both equal. *)
Record session := {
  committed : database;
  working : database
}.

Definition begin (db : database) : session :=
  {| committed := db; working := db |}.

(** The statements a handler sends to the database engine. *)
Inductive statement : Type :=
| Select
| InsertReport
| InsertDescriptor
| DeleteDescriptors
| Commit.

(** A handler step: it reads which statements the engine refuses, and
    either returns or raises, leaving the session as it is at that point. *)
Definition M (A : Type) : Type :=
  (statement -> bool) -> session -> result A * session.

Definition ret {A} (a : A) : M A := fun _ s => (Ret a, s).

Definition raise {A} (e : exn) : M A := fun _ s => (Raise e, s).

Definition mbind {A B} (c : M A) (k : A -> M B) : M B :=
  fun refuses s =>
    match c refuses s with
    | (Ret a, s') => k a refuses s'
    | (Raise e, s') => (Raise e, s')
    end.

(** A Python computation that touches no table. *)
Definition lift {A} (c : result A) : M A := fun _ s => (c, s).

(** [try: body except Exception as e: handler e] around database steps. *)
Definition mtry {A} (body : M A) (handler : exn -> M A) : M A :=
  fun refuses s =>
    match body refuses s with
    | (Ret a, s') => (Ret a, s')
    | (Raise e, s') => handler e refuses s'
    end.

(** Sending one statement: [OperationalError] when the engine refuses it. *)
Definition execute (st : statement) : M unit :=
  fun refuses s =>
    if refuses st then (Raise OperationalError, s) else (Ret tt, s).

(** [Model.query.all()] *)
Definition query_all {A} (table : database -> list A) : M (list A) :=
  mbind (execute Select) (fun _ => fun _ s => (Ret (table (working s)), s)).

(** The order of [FaceDescriptor.query.all()], a SELECT without ORDER BY
    on the SQLite database of [config.py]: SQLite walks the table by
    ascending rowid, and the rowid of the table is its INTEGER PRIMARY KEY
    [id]. *)
Fixpoint rowid_insert (d : FaceDescriptor.t) (l : list FaceDescriptor.t)
  : list FaceDescriptor.t :=
  match l with
  | [] => [d]
  | d' :: l' =>
      if FaceDescriptor.id d <=? FaceDescriptor.id d' then d :: l
      else d' :: rowid_insert d l'
  end.

Definition rowid_scan (rows : list FaceDescriptor.t)
  : list FaceDescriptor.t :=
  fold_right rowid_insert [] rows.

(** The primary key the engine gives a new row: one more than the largest
    in the table, [1] in an empty table. *)
Definition next_id (ids : list Z) : Z := 1 + fold_right Z.max 0 ids.

(** [db.session.add(report)] followed by the flush that sends the INSERT:
    the row gets its primary key and becomes visible in the transaction.
    (SQLAlchemy sends the INSERT with the next flush, before the DELETE or
    the COMMIT that follows; the handlers read nothing in between.) *)
Definition add_report (mk : Z -> EODReport.t) : M EODReport.t :=
  mbind (execute InsertReport) (fun _ => fun _ s =>
    let w := working s in
    let r := mk (next_id (map EODReport.id (eod_reports w))) in
    (Ret r,
     {| committed := committed s;
        working := {| photos := photos w;
                      face_descriptors := face_descriptors w;
                      sales := sales w;
                      eod_reports := eod_reports w ++ [r] |} |})).

(** [db.session.add(desc)] followed by its flush. *)
Definition add_descriptor (mk : Z -> FaceDescriptor.t) : M FaceDescriptor.t :=
  mbind (execute InsertDescriptor) (fun _ => fun _ s =>
    let w := working s in
    let d := mk (next_id (map FaceDescriptor.id (face_descriptors w))) in
    (Ret d,
     {| committed := committed s;
        working := {| photos := photos w;
                      face_descriptors := face_descriptors w ++ [d];
                      sales := sales w;
                      eod_reports := eod_reports w |} |})).

(** [FaceDescriptor.query.delete()]: one DELETE without a WHERE clause. *)
Definition delete_all_descriptors : M unit :=
  mbind (execute DeleteDescriptors) (fun _ => fun _ s =>
    let w := working s in
    (Ret tt,
     {| committed := committed s;
        working := {| photos := photos w;
                      face_descriptors := [];
                      sales := sales w;
                      eod_reports := eod_reports w |} |})).

(** [db.session.commit()]: all of the transaction becomes durable, or, when
    the engine refuses the COMMIT, none of it. *)
Definition commit : M unit :=
  mbind (execute Commit) (fun _ => fun _ s =>
    (Ret tt, {| committed := working s; working := working s |})).

(** The end of the request (Flask-SQLAlchemy removes the session when the
    application context is torn down): what was not committed is rolled
    back, and the database is left with the committed rows. *)
Definition teardown {A} (c : M A) (refuses : statement -> bool)
  (db : database) : result A * database :=
  let (r, s) := c refuses (begin db) in (r, committed s).

End Models.

Notation "x <-- c ;; k" := (Models.mbind c (fun x => k))
  (at level 61, c at next level, right associativity) : py_scope.

(** ** app.py *)

Module App.

Import Models.

(** *** Requests and responses *)

Record user := {
  username : string;
  role : string
}.

(** One entry of the [results] list of [/api/identify]. *)
Record match_result := {
  photo_id : Z;
  similarity : float;
  path : string;
  date : datetime
}.

Inductive error : Type :=
| NoImageProvided      (* "No image provided" *)
| Str (e : exn).       (* str(e) *)

Inductive body : Type :=
| Results (results : list match_result) (message : option string)
| Error (err : error)
| StatusOk (id : Z)
| Text (s : string)
| RedirectTo (endpoint : string).

Record response := {
  status : Z;
  payload : body
}.

Definition jsonify (b : body) (code : Z) : response :=
  {| status := code; payload := b |}.

(** What a handler finds outside the repository. *)
Record world := {
  (* base64.b64decode *)
  b64decode : string -> result string;
  (* open(temp_path, "wb") and f.write *)
  write_temp : string -> result unit;
  (* DeepFace.represent on a file with the given bytes *)
  represent : string -> AIEngine.represent_outcome;
  (* os.remove(temp_path) *)
  os_remove : result unit;
  (* the statements the database engine refuses *)
  refuses : statement -> bool;
  (* datetime.utcnow() *)
  utcnow : datetime
}.

(** *** Strings *)

Definition lower_ascii (c : Ascii.ascii) : Ascii.ascii :=
  let n := Ascii.nat_of_ascii c in
  if (Nat.leb 65 n && Nat.leb n 90)%bool
  then Ascii.ascii_of_nat (n + 32) else c.

(** [s.lower()], on ASCII letters. *)
Fixpoint lower (s : string) : string :=
  match s with
  | EmptyString => EmptyString
  | String c s' => String (lower_ascii c) (lower s')
  end.

(** [sub in s] *)
Definition contains (sub s : string) : bool :=
  match String.index 0 sub s with
  | Some _ => true
  | None => false
  end.

(** [s.split(",", 1)] unpacked into two names: [ValueError] when [s] has
    no comma. *)
Fixpoint split_comma (s : string) : result (string * string) :=
  match s with
  | EmptyString => Raise ValueError
  | String c s' =>
      if Ascii.eqb c ","%char then Ret (EmptyString, s')
      else
        hd_tl <- split_comma s' ;;
        Ret (String c (fst hd_tl), snd hd_tl)
  end.

(** *** login_required *)

Definition login_required (roles : list string) (session_user : option user)
  (f : M response) : M response :=
  match session_user with
  | None => ret {| status := 302; payload := RedirectTo "login" |}
  | Some u =>
      if (negb (Nat.eqb (List.length roles) 0)
          && negb (existsb (String.eqb (role u)) roles))%bool
      then ret {| status := 403;
                  payload := Text "Acceso denegado (Rol insuficiente)" |}
      else f
  end.

(** *** close_day_api *)

(** [EODReport.query.order_by(EODReport.timestamp.desc()).first()] *)
Fixpoint latest_report (rs : list EODReport.t) : option EODReport.t :=
  match rs with
  | [] => None
  | r :: rs' =>
      match latest_report rs' with
      | Some r' =>
          if EODReport.timestamp r <? EODReport.timestamp r'
          then Some r' else Some r
      | None => Some r
      end
  end.

(** [sum(s.final_total for s in sales)] *)
Definition sum_final_total (ss : list Sale.t) : R :=
  fold_left (fun acc s => (acc + Sale.final_total s)%R) ss 0%R.

(** [ph_splits[ph] = ph_splits.get(ph, 0) + price] *)
Fixpoint splits_add (ph : string) (price : R) (splits : list (string * R))
  : list (string * R) :=
  match splits with
  | [] => [(ph, (0 + price)%R)]
  | (k, v) :: rest =>
      if String.eqb k ph then (k, (v + price)%R) :: rest
      else (k, v) :: splits_add ph price rest
  end.

Record tally := {
  digital_count : Z;
  print_count : Z;
  ph_splits : list (string * R)
}.

Definition or_default (o : option string) (default : string) : string :=
  match o with
  | Some s => if String.eqb s "" then default else s
  | None => default
  end.

(** The body of [for item in s.items]; adding a [price] that is [None]
    raises [TypeError]. *)
Definition tally_item (item : SaleItem.t) (t : tally) : result tally :=
  let is_print := contains "print" (lower (or_default (SaleItem.product_type item) "")) in
  let ph := or_default (SaleItem.photographer item) "Manual" in
  match SaleItem.price item with
  | None => Raise TypeError
  | Some p =>
      Ret {| digital_count := if is_print then digital_count t
                              else digital_count t + 1;
             print_count := if is_print then print_count t + 1
                            else print_count t;
             ph_splits := splits_add ph p (ph_splits t) |}
  end.

Fixpoint tally_items (its : list SaleItem.t) (t : tally) : result tally :=
  match its with
  | [] => Ret t
  | item :: rest => t' <- tally_item item t ;; tally_items rest t'
  end.

Fixpoint tally_sales (ss : list Sale.t) (t : tally) : result tally :=
  match ss with
  | [] => Ret t
  | s :: rest => t' <- tally_items (Sale.items s) t ;; tally_sales rest t'
  end.

(** The handler under [@login_required(roles=['admin'])], from [try:] to
    the last [return].  Building the response after the commit (reading
    [new_report.id]) is taken to succeed. *)
Definition close_day_body (w : world) (u : user) (notes : string)
  : M response :=
  mtry
    (reports <-- query_all eod_reports ;;
     all_sales <-- query_all sales ;;
     let sales :=
       match latest_report reports with
       | Some last_eod =>
           filter (fun s => EODReport.timestamp last_eod <? Sale.timestamp s)
                  all_sales
       | None => all_sales
       end in
     let total_rev := sum_final_total sales in
     t <-- lift (tally_sales sales
                   {| digital_count := 0; print_count := 0; ph_splits := [] |}) ;;
     new_report <-- add_report (fun id =>
       {| EODReport.id := id;
          EODReport.timestamp := utcnow w;
          EODReport.total_revenue := total_rev;
          EODReport.digital_count := digital_count t;
          EODReport.print_count := print_count t;
          EODReport.photographer_splits_json := ph_splits t;
          EODReport.closing_user := username u;
          EODReport.notes := notes |}) ;;
     _ <-- delete_all_descriptors ;;
     _ <-- commit ;;
     ret (jsonify (StatusOk (EODReport.id new_report)) 200))
    (fun e => ret (jsonify (Error (Str e)) 500)).

(** [POST /api/sales/close_day] as one request: the response and the
    database it leaves. *)
Definition close_day_api (w : world) (session_user : option user)
  (notes : string) (db : database) : response * database :=
  match teardown
          (login_required ["admin"] session_user
             (match session_user with
              | Some u => close_day_body w u notes
              | None => raise KeyError
              end))
          (refuses w) db with
  | (Ret resp, db') => (resp, db')
  | (Raise e, db') => ({| status := 500; payload := Error (Str e) |}, db')
  end.

(** *** process_photo_ai *)

(** [for f in faces: db.session.add(FaceDescriptor(...))] *)
Fixpoint add_faces (photo_id : Z) (faces : list AIEngine.face) : M unit :=
  match faces with
  | [] => ret tt
  | f :: rest =>
      _ <-- add_descriptor (fun id =>
        {| FaceDescriptor.id := id;
           FaceDescriptor.photo_id := photo_id;
           FaceDescriptor.vector_json := AIEngine.embedding f;
           FaceDescriptor.box_json := AIEngine.box f |}) ;;
      add_faces photo_id rest
  end.

Definition process_photo_body (w : world) (photo_id : Z) (file : string)
  : M unit :=
  mtry
    (faces <-- lift (AIEngine.extract_faces (represent w file)) ;;
     _ <-- add_faces photo_id faces ;;
     commit)
    (fun _ => ret tt).

(** The background task on the photo [photo_id] whose file holds [file]:
    the database it leaves. *)
Definition process_photo_ai (w : world) (photo_id : Z) (file : string)
  (db : database) : database :=
  snd (teardown (process_photo_body w photo_id file) (refuses w) db).

(** *** identify_client *)

(** [l.sort(key=key, reverse=True)] on float keys.  The sort of Python
    lists is stable, also under [reverse=True]: entries with equal keys
    keep their order.  On keys without [nan] every stable sort gives the
    same list; it is computed here by insertion. *)
Section Sort.

Variable A : Type.
Variable key : A -> float.

Fixpoint insert_reverse (x : A) (l : list A) : list A :=
  match l with
  | [] => [x]
  | y :: l' =>
      if PrimFloat.ltb (key x) (key y) then y :: insert_reverse x l'
      else x :: l
  end.

Definition sort_reverse (l : list A) : list A :=
  fold_right insert_reverse [] l.

End Sort.

Definition no_face_message : string := "No se detectó ningún rostro".

(** [d.photo], the relationship behind the foreign key; an attribute of
    [None] raises [AttributeError]. *)
Definition photo_of (d : FaceDescriptor.t) : M Photo.t :=
  fun _ s =>
    match find (fun p => Photo.id p =? FaceDescriptor.photo_id d)
               (photos (working s)) with
    | Some p => (Ret p, s)
    | None => (Raise AttributeError, s)
    end.

(** The body of [for d in all_descriptors]; [sim > 0.65] compares two
    doubles and is false when [sim] is [nan]. *)
Definition scan_one (target_encoding : list float) (d : FaceDescriptor.t)
  (matches : list match_result) : M (list match_result) :=
  let db_encoding := FaceDescriptor.vector_json d in
  sim <-- lift (AIEngine.get_similarity target_encoding db_encoding) ;;
  if PrimFloat.ltb 0.65%float sim then
    p <-- photo_of d ;;
    ret (matches ++ [{| photo_id := FaceDescriptor.photo_id d;
                        similarity := sim;
                        path := Photo.relative_path p;
                        date := Photo.created_at p |}])
  else ret matches.

Fixpoint scan (target_encoding : list float)
  (all_descriptors : list FaceDescriptor.t) (matches : list match_result)
  : M (list match_result) :=
  match all_descriptors with
  | [] => ret matches
  | d :: rest =>
      matches' <-- scan_one target_encoding d matches ;;
      scan target_encoding rest matches'
  end.

(** [header, encoded = image_b64.split(",", 1)]: a value that is no [str]
    has no [split]. *)
Definition split_header (image_b64 : json) : result (string * string) :=
  match image_b64 with
  | JsStr img => split_comma img
  | _ => Raise AttributeError
  end.

(** The handler from its first line to its last [return];
    [request_json] is [request.json]. *)
Definition identify_body (w : world) (request_json : json) : M response :=
  let data := if truthy request_json then request_json else JsDict [] in
  image_b64 <-- lift (dict_get data "image") ;;
  if negb (truthy image_b64) then ret (jsonify (Error NoImageProvided) 400)
  else
    mtry
      (parts <-- lift (split_header image_b64) ;;
       image_data <-- lift (b64decode w (snd parts)) ;;
       _ <-- lift (write_temp w image_data) ;;
       target_faces <--
         lift (AIEngine.extract_faces (represent w image_data)) ;;
       _ <-- lift (os_remove w) ;;
       match target_faces with
       | [] => ret (jsonify (Results [] (Some no_face_message)) 200)
       | first_face :: _ =>
           let target_encoding := AIEngine.embedding first_face in
           all_descriptors <--
             query_all (fun db => rowid_scan (face_descriptors db)) ;;
           matches <-- scan target_encoding all_descriptors [] ;;
           ret (jsonify
                  (Results (firstn 20 (sort_reverse similarity matches))
                           None)
                  200)
       end)
      (fun e => ret (jsonify (Error (Str e)) 500)).

(** [POST /api/identify] as one request on the database [db]; an
    exception that leaves the handler is answered with status 500. *)
Definition identify_client (w : world) (request_json : json)
  (db : database) : response :=
  match fst (teardown (identify_body w request_json) (refuses w) db) with
  | Ret resp => resp
  | Raise e => {| status := 500; payload := Error (Str e) |}
  end.

End App.

(** ** Vocabulary of the statements *)

Module Spec.

Import AIEngine Models App.

(** A face whose box has a positive width. *)
Definition wide (f : face) : Prop := 0 < get (box f) "w" 0.

(** A face whose box has no height. *)
Definition flat (f : face) : Prop := get (box f) "h" 0 = 0.

(** Cosine similarity as the specification words it, in the arithmetic
    of the code: the dot product of two vectors divided by the product of
    their norms, each operation rounded to a double. *)
Definition cosine (v1 v2 : list float) : float :=
  (dot v1 v2 / (norm v1 * norm v2))%float.

(** The score of a stored descriptor for the probe embedding [target]:
    the value [get_similarity] returns on the two embeddings, [nan] when
    it returns none. *)
Definition score (target : list float) (d : FaceDescriptor.t) : float :=
  match get_similarity target (FaceDescriptor.vector_json d) with
  | Ret sim => sim
  | Raise _ => nan
  end.

(** The double is a number: it is no [nan]. *)
Definition number (x : float) : Prop := PrimFloat.eqb x x = true.

(** The double [s] is strictly above the double nearest to 0.65. *)
Definition above (s : float) : Prop := PrimFloat.ltb 0.65%float s = true.

(** The score of [d] for the probe embedding [target] is above 0.65. *)
Definition exceedsb (target : list float) (d : FaceDescriptor.t) : bool :=
  PrimFloat.ltb 0.65%float (score target d).

(** The row of the [photos] table a descriptor refers to. *)
Definition photo_row (db : database) (d : FaceDescriptor.t)
  : option Photo.t :=
  find (fun p => Photo.id p =? FaceDescriptor.photo_id d) (photos db).

(** The match result of the descriptor [d] for the probe embedding
    [target]: the photo reference of [d] and its score. *)
Definition match_of (db : database) (target : list float)
  (d : FaceDescriptor.t) : match_result :=
  {| photo_id := FaceDescriptor.photo_id d;
     similarity := score target d;
     path := match photo_row db d with
             | Some p => Photo.relative_path p
             | None => EmptyString
             end;
     date := match photo_row db d with
             | Some p => Photo.created_at p
             | None => 0
             end |}.

(** The stored descriptors that match the probe embedding, in the order
    in which the query lists them. *)
Definition hits (db : database) (target : list float)
  : list FaceDescriptor.t :=
  filter (exceedsb target) (rowid_scan (face_descriptors db)).

(** The same as match results. *)
Definition candidates (db : database) (target : list float)
  : list match_result :=
  map (match_of db target) (hits db target).

(** The stored descriptors of the photo [p] that match the probe. *)
Definition matching_faces (db : database) (target : list float) (p : Z)
  : list FaceDescriptor.t :=
  filter (fun d => FaceDescriptor.photo_id d =? p)
         (filter (exceedsb target) (face_descriptors db)).

(** How many entries of a result list refer to the photo [p]. *)
Definition appearances (p : Z) (ms : list match_result) : nat :=
  count_occ Z.eq_dec (map photo_id ms) p.

(** The result [m] carries the photo reference of a row of [ds] and a
    score above 0.65. *)
Definition from_rows (ds : list FaceDescriptor.t) (m : match_result) : Prop :=
  exists d, In d ds /\
            photo_id m = FaceDescriptor.photo_id d /\
            above (similarity m).

(** Largest key first. *)
Definition ge_key {A} (key : A -> float) (a b : A) : Prop :=
  PrimFloat.leb (key b) (key a) = true.

(** Most similar first. *)
Definition descending : match_result -> match_result -> Prop :=
  ge_key similarity.

(** Ascending identifiers. *)
Definition by_id (a b : FaceDescriptor.t) : Prop :=
  FaceDescriptor.id a <= FaceDescriptor.id b.

(** The descriptor [a] may stand before [b] in the ranking for the probe
    embedding [target]: its score is not below that of [b], and when [==]
    holds the two scores equal, its identifier is not above that of
    [b]. *)
Definition ranked_before (target : list float) (a b : FaceDescriptor.t)
  : Prop :=
  PrimFloat.leb (score target b) (score target a) = true /\
  (PrimFloat.eqb (score target a) (score target b) = true ->
   FaceDescriptor.id a <= FaceDescriptor.id b).

(** The value of [image_b64] in [identify_client]:
    [(request.json or {}).get('image')]. *)
Definition image_of (request_json : json) : result json :=
  dict_get (if truthy request_json then request_json else JsDict [])
           "image".

(** The body [{"image": img}] of a request. *)
Definition posted (img : string) : json := JsDict [("image", JsStr img)].

(** The request carries an image that is decoded to the bytes [data], and
    the temporary file is written and removed. *)
Definition probe_readable (w : world) (img data : string) : Prop :=
  img <> EmptyString /\
  exists header encoded,
    split_comma img = Ret (header, encoded) /\
    b64decode w encoded = Ret data /\
    write_temp w data = Ret tt /\
    os_remove w = Ret tt.

(** The probe image of the request yields the faces [faces]. *)
Definition probe_detects (w : world) (img : string) (faces : list face)
  : Prop :=
  exists data,
    probe_readable w img data /\
    extract_faces (represent w data) = Ret faces.

(** The stored embedding of [d] has the dimension of the probe
    embedding. *)
Definition comparable (target : list float) (d : FaceDescriptor.t) : Prop :=
  List.length (FaceDescriptor.vector_json d) = List.length target.

(** The loop of [identify_client] gets through the row [d]: its embedding
    has the dimension of the probe embedding, and when it matches, its
    photo is in the [photos] table. *)
Definition passable (db : database) (target : list float)
  (d : FaceDescriptor.t) : Prop :=
  comparable target d /\
  (exceedsb target d = true -> photo_row db d <> None).

(** The loop stops at the row [d]. *)
Definition blocking (db : database) (target : list float)
  (d : FaceDescriptor.t) : Prop :=
  ~ comparable target d \/
  (exceedsb target d = true /\ photo_row db d = None).

(** The loop gets through every row of the table. *)
Definition scannable (db : database) (target : list float) : Prop :=
  Forall (passable db target) (face_descriptors db).

(** The loop stops at some row of the table. *)
Definition unscannable (db : database) (target : list float) : Prop :=
  Exists (blocking db target) (face_descriptors db).

(** The invariants of the descriptor table: every stored embedding has the
    dimension of the probe embedding, and every descriptor refers to a
    photo of the [photos] table. *)
Definition store_consistent (db : database) (target : list float) : Prop :=
  Forall (fun d =>
            List.length (FaceDescriptor.vector_json d) = List.length target /\
            photo_row db d <> None)
         (face_descriptors db).

(** The database engine answers the queries of the request. *)
Definition db_answers (w : world) : Prop := refuses w Select = false.

(** The response [{"results": rs}] or [{"results": rs, "message": m}],
    with status 200. *)
Definition found (rs : list match_result) (message : option string)
  : response :=
  jsonify (Results rs message) 200.

(** The response [{"error": str(e)}] with status 500. *)
Definition failed (e : exn) : response := jsonify (Error (Str e)) 500.

(** The response [{"status": "ok", "id": id}]. *)
Definition closed_ok (id : Z) : response := jsonify (StatusOk id) 200.

(** The [results] of a response, empty when it has none. *)
Definition results_of (resp : response) : list match_result :=
  match payload resp with
  | Results rs _ => rs
  | _ => []
  end.

(** The database after a closing that recorded [r]: the closing record is
    in the table of reports and the table of descriptors has no row. *)
Definition closed (db : database) (r : EODReport.t) : database :=
  {| photos := photos db;
     face_descriptors := [];
     sales := sales db;
     eod_reports := eod_reports db ++ [r] |}.

(** The database [db] with [ds] as its table of descriptors. *)
Definition with_descriptors (db : database) (ds : list FaceDescriptor.t)
  : database :=
  {| photos := photos db;
     face_descriptors := ds;
     sales := sales db;
     eod_reports := eod_reports db |}.

(** The sales a closing sums up: those after the latest closing. *)
Definition sales_to_close (db : database) : list Sale.t :=
  match latest_report (eod_reports db) with
  | Some last_eod =>
      filter (fun s => EODReport.timestamp last_eod <? Sale.timestamp s)
             (sales db)
  | None => sales db
  end.

Definition empty_tally : tally :=
  {| digital_count := 0; print_count := 0; ph_splits := [] |}.

(** The closing record of a closing by [u] with the tally [t]. *)
Definition closing_record (w : world) (u : user) (notes : string)
  (db : database) (t : tally) : EODReport.t :=
  {| EODReport.id := next_id (map EODReport.id (eod_reports db));
     EODReport.timestamp := utcnow w;
     EODReport.total_revenue := sum_final_total (sales_to_close db);
     EODReport.digital_count := digital_count t;
     EODReport.print_count := print_count t;
     EODReport.photographer_splits_json := ph_splits t;
     EODReport.closing_user := username u;
     EODReport.notes := notes |}.

(** A step of the closing fails: the engine refuses one of its
    statements, or the tally of the sales raises. *)
Definition step_fails (w : world) (db : database) : Prop :=
  refuses w Select = true \/
  refuses w InsertReport = true \/
  refuses w DeleteDescriptors = true \/
  refuses w Commit = true \/
  exists e, tally_sales (sales_to_close db) empty_tally = Raise e.

(** One run of the background task: the kiosk it runs in, the photo, and
    the bytes of its file. *)
Record upload := {
  upload_world : world;
  upload_photo : Z;
  upload_file : string
}.

(** The database after the background task has run on each upload. *)
Definition ingest (ups : list upload) (db : database) : database :=
  fold_left
    (fun db up =>
       process_photo_ai (upload_world up) (upload_photo up) (upload_file up) db)
    ups db.

End Spec.

(** ** Inputs of the examples *)

Module Examples.

Import AIEngine Models App Spec.

(** What [DeepFace.represent] may return for a region five pixels wide and
    no pixel high. *)
Definition flat_item : represent_item :=
  {| item_embedding := Some [1%float];
     item_facial_area := Some [("x", 0); ("y", 0); ("w", 5); ("h", 0)] |}.

Definition flat_face : face :=
  {| embedding := [1%float];
     box := [("x", 0); ("y", 0); ("w", 5); ("h", 0)] |}.

(** A kiosk where everything outside the repository works, and the model
    call on the probe has the outcome [o]. *)
Definition kiosk (o : represent_outcome) : world :=
  {| b64decode := fun encoded => Ret encoded;
     write_temp := fun _ => Ret tt;
     represent := fun _ => o;
     os_remove := Ret tt;
     refuses := fun _ => false;
     utcnow := 1000 |}.

(** A kiosk whose database engine refuses the statements [refused]. *)
Definition kiosk_refusing (refused : statement -> bool) : world :=
  {| b64decode := fun encoded => Ret encoded;
     write_temp := fun _ => Ret tt;
     represent := fun _ => Ret [];
     os_remove := Ret tt;
     refuses := refused;
     utcnow := 1000 |}.

Definition refuse_delete (st : statement) : bool :=
  match st with
  | DeleteDescriptors => true
  | _ => false
  end.

Definition snapshot : string := "data:image/jpeg;base64,AAAA".

(** The model finds one face, with the embedding [e]. *)
Definition seen (e : list float) : represent_outcome :=
  Ret [{| item_embedding := Some e;
          item_facial_area :=
            Some [("x", 0); ("y", 0); ("w", 10); ("h", 10)] |}].

Definition probe_face (e : list float) : face :=
  {| embedding := e; box := [("x", 0); ("y", 0); ("w", 10); ("h", 10)] |}.

Definition photo10 : Photo.t :=
  {| Photo.id := 10; Photo.filename := "a.jpg";
     Photo.relative_path := "2024-01-01/Juan/a.jpg";
     Photo.photographer := Some "Juan"; Photo.created_at := 100 |}.

Definition photo20 : Photo.t :=
  {| Photo.id := 20; Photo.filename := "b.jpg";
     Photo.relative_path := "2024-01-01/Juan/b.jpg";
     Photo.photographer := Some "Juan"; Photo.created_at := 200 |}.

Definition descriptor (id photo : Z) (v : list float) : FaceDescriptor.t :=
  {| FaceDescriptor.id := id; FaceDescriptor.photo_id := photo;
     FaceDescriptor.vector_json := v;
     FaceDescriptor.box_json := [("x", 0); ("y", 0); ("w", 10); ("h", 10)] |}.

Definition store (ds : list FaceDescriptor.t) : database :=
  {| photos := [photo10; photo20]; face_descriptors := ds;
     sales := []; eod_reports := [] |}.

(** Three stored faces: at a right angle to (3, 4), close to it, and
    equal to it. *)
Definition three_descriptors : database :=
  store [descriptor 1 10 [4; -3]%float; descriptor 2 20 [4; 3]%float;
         descriptor 3 10 [3; 4]%float].

(** One photo with two stored faces of the same embedding. *)
Definition twin_faces : database :=
  store [descriptor 1 10 [1%float]; descriptor 2 10 [1%float]].

(** Two photos with one stored face each, of the same embedding, the
    rows standing by ascending identifier and the other way round. *)
Definition listed_1_2 : database :=
  store [descriptor 1 10 [1%float]; descriptor 2 20 [1%float]].

Definition listed_2_1 : database :=
  store [descriptor 2 20 [1%float]; descriptor 1 10 [1%float]].

(** A stored face opposite to the probe (1). *)
Definition opposite_face : database := store [descriptor 1 10 [-1]%float].

(** A stored embedding of another dimension than the probe (1). *)
Definition other_dimension : database := store [descriptor 1 10 [1; 0]%float].

(** A stored face equal to the probe (1), and one of another dimension. *)
Definition mixed_dimensions : database :=
  store [descriptor 1 10 [1%float]; descriptor 2 20 [1; 0]%float].

(** One photo with two stored faces equal to the probe (1), and a stored
    face of another dimension. *)
Definition twins_and_stray : database :=
  store [descriptor 1 10 [1%float]; descriptor 2 10 [1%float];
         descriptor 3 20 [1; 0]%float].

(** Ten live descriptors. *)
Definition ten_descriptors : list FaceDescriptor.t :=
  map (fun i => descriptor i 10 [1%float]) [1; 2; 3; 4; 5; 6; 7; 8; 9; 10].

Definition admin : user := {| username := "ana"; role := "admin" |}.

(** A sale of one item without a price. *)
Definition unpriced_sale : Sale.t :=
  {| Sale.id := 1; Sale.timestamp := 500; Sale.final_total := 15%R;
     Sale.items := [{| SaleItem.product_type := Some "digital";
                       SaleItem.price := None;
                       SaleItem.photographer := None |}] |}.

(** A closing at time 400, a sale before it and two sales after it. *)
Definition earlier_closing : EODReport.t :=
  {| EODReport.id := 1; EODReport.timestamp := 400;
     EODReport.total_revenue := 0%R;
     EODReport.digital_count := 0; EODReport.print_count := 0;
     EODReport.photographer_splits_json := [];
     EODReport.closing_user := "ana"; EODReport.notes := "ayer" |}.

Definition sale_at (id time : Z) (total : R) (items : list SaleItem.t)
  : Sale.t :=
  {| Sale.id := id; Sale.timestamp := time; Sale.final_total := total;
     Sale.items := items |}.

Definition item (type : string) (price : R) (ph : option string)
  : SaleItem.t :=
  {| SaleItem.product_type := Some type; SaleItem.price := Some price;
     SaleItem.photographer := ph |}.

Definition second_day : database :=
  {| photos := [photo10; photo20];
     face_descriptors := [descriptor 1 10 [1%float]];
     sales := [sale_at 1 300 15%R [item "digital" 15%R (Some "Juan")];
               sale_at 2 500 35%R [item "Print 10x15" 20%R None;
                                   item "digital" 15%R (Some "Juan")];
               sale_at 3 600 15%R [item "digital" 15%R (Some "Juan")]];
     eod_reports := [earlier_closing] |}.

Definition store_with_unpriced_sale : database :=
  {| photos := [photo10; photo20]; face_descriptors := ten_descriptors;
     sales := [unpriced_sale]; eod_reports := [] |}.

(** The store after the background task has processed an upload of the
    photo 10 in which the model sees one face of embedding (1). *)
Definition uploaded : database :=
  process_photo_ai (kiosk (seen [1%float])) 10 "jpeg" (store []).

(** The store after the closing that follows. *)
Definition after_closing : database :=
  snd (close_day_api (kiosk (Ret [])) (Some admin) "cierre" uploaded).

End Examples.

(** ** app.py: coupons and checkout *)

Module Shop.

Import Models.

(** A Python float of the sales side: a real number, or [nan].  (An
    infinity is no value of the model.) *)
Inductive number : Type :=
| Num (r : R)
| NaN.

(** A scalar of a JSON request: [null], a number, or a text. *)
Inductive json : Type :=
| JNull
| JNum (x : number)
| JStr (s : string).

Module Coupon.
Record t := {
  id : Z;
  code : string;
  coupon_type : option string;
  value : R;
  max_uses : Z;
  current_uses : Z;
  expiry : option datetime
}.
End Coupon.

(** A row of [sale_items], kept with its sale. *)
Module ItemRow.
Record t := {
  photo_id : option Z;
  product_name : option string;
  price : option R;
  product_type : option string;
  photographer : option string
}.
End ItemRow.

(** A row of [sales] with all its columns, and its items. *)
Module SaleRow.
Record t := {
  id : Z;
  timestamp : datetime;
  total : R;
  final_total : R;
  discount_code : option string;
  status : string;
  access_code : string;
  items : list ItemRow.t
}.
End SaleRow.

(** The committed content of the tables of the sales side. *)
Record tables := {
  sale_rows : list SaleRow.t;
  coupons : list Coupon.t
}.

(** The statements [checkout] sends to the database engine. *)
Inductive statement : Type :=
| InsertSale
| SelectCoupon
| UpdateCoupon
| InsertItem
| CommitAll.

(** What [checkout] and [validate_coupon] find outside the repository. *)
Record world := {
  (* float(text): a number, nan for 'nan', or ValueError *)
  float_of_text : string -> result number;
  (* ''.join(random.choices(ascii_uppercase + digits, k=8)) *)
  random_code : string;
  (* the statements the database engine refuses *)
  refuses : statement -> bool;
  (* datetime.utcnow(), the default of Sale.timestamp *)
  utcnow : datetime;
  (* datetime.now() *)
  now : datetime
}.

(** One object of [data['items']]: a field is [None] when the object has
    no such key; [null] under a key is the inner [None]. *)
Record item_request := {
  item_photo_id : option Z;
  item_product_name : option (option string);
  item_price : option json;
  item_product_type : option (option string);
  item_photographer : option (option string)
}.

(** [request.json] of [/api/checkout]. *)
Record request := {
  req_total : option json;
  req_final_total : option json;
  req_discount_code : option string;
  req_items : option (list item_request)
}.

Inductive answer : Type :=
| SaleOk (sale_id : Z) (access_code : string)   (* status 200 *)
| SaleError (e : exn).                          (* status 500, str(e) *)

(** [float(v)] *)
Definition float (w : world) (v : json) : result number :=
  match v with
  | JNum x => Ret x
  | JStr s => float_of_text w s
  | JNull => Raise TypeError
  end.

(** [d[k]] *)
Definition subscript {A} (field : option A) : result A :=
  match field with
  | Some a => Ret a
  | None => Raise KeyError
  end.

(** [d.get(k, default)] *)
Definition get_default {A} (field : option A) (default : A) : A :=
  match field with
  | Some a => a
  | None => default
  end.

Definition execute (w : world) (st : statement) : result unit :=
  if refuses w st then Raise OperationalError else Ret tt.

(** The value SQLite keeps of a float it is given for a column that may
    be NULL: it binds [nan] as NULL. *)
Definition nullable (x : number) : option R :=
  match x with
  | Num r => Some r
  | NaN => None
  end.

(** [SaleItem(sale=new_sale, ...)] for one object of the request, with the
    price as the row will hold it. *)
Definition new_item (w : world) (item : item_request) : result ItemRow.t :=
  name <- subscript (item_product_name item) ;;
  price_v <- subscript (item_price item) ;;
  price <- float w price_v ;;
  Ret {| ItemRow.photo_id := item_photo_id item;
         ItemRow.product_name := name;
         ItemRow.price := nullable price;
         ItemRow.product_type :=
           get_default (item_product_type item) (Some "digital");
         ItemRow.photographer :=
           get_default (item_photographer item) (Some "Manual") |}.

(** [for item in data['items']] *)
Fixpoint new_items (w : world) (items : list item_request)
  : result (list ItemRow.t) :=
  match items with
  | [] => Ret []
  | item :: rest =>
      row <- new_item w item ;;
      rows <- new_items w rest ;;
      Ret (row :: rows)
  end.

(** [Coupon.query.filter_by(code=code).first()] *)
Definition coupon_with (code : string) (cs : list Coupon.t)
  : option Coupon.t :=
  find (fun c => String.eqb (Coupon.code c) code) cs.

Definition used_once (c : Coupon.t) : Coupon.t :=
  {| Coupon.id := Coupon.id c;
     Coupon.code := Coupon.code c;
     Coupon.coupon_type := Coupon.coupon_type c;
     Coupon.value := Coupon.value c;
     Coupon.max_uses := Coupon.max_uses c;
     Coupon.current_uses := Coupon.current_uses c + 1;
     Coupon.expiry := Coupon.expiry c |}.

(** [coup.current_uses += 1] on the first coupon with the code. *)
Fixpoint use_coupon (code : string) (cs : list Coupon.t) : list Coupon.t :=
  match cs with
  | [] => []
  | c :: rest =>
      if String.eqb (Coupon.code c) code then used_once c :: rest
      else c :: use_coupon code rest
  end.

(** [if data.get('discount_code')] *)
Definition truthy (code : option string) : bool :=
  match code with
  | Some c => negb (String.eqb c "")
  | None => false
  end.

(** The INSERT of the sale: the engine may refuse it, and it fails on a
    [total] or a [final_total] that is [nan], which SQLite binds as NULL
    where the columns are NOT NULL.  It returns the two amounts as the row
    holds them. *)
Definition insert_sale (w : world) (total final : number) : result (R * R) :=
  _ <- execute w InsertSale ;;
  match total, final with
  | Num t, Num f => Ret (t, f)
  | _, _ => Raise IntegrityError
  end.

(** The [try] block of [checkout] on the tables the transaction sees: the
    tables to commit and the response.  The INSERT of the sale goes out
    with the flush before the coupon query when there is one, and with
    the flush of the commit otherwise. *)
Definition checkout_try (w : world) (data : option request) (t : tables)
  : result (tables * answer) :=
  d <- match data with Some d => Ret d | None => Raise TypeError end ;;
  total_v <- subscript (req_total d) ;;
  total <- float w total_v ;;
  final_v <- subscript (req_final_total d) ;;
  final <- float w final_v ;;
  let code := req_discount_code d in
  let sale_id := next_id (map SaleRow.id (sale_rows t)) in
  flushed <-
    (if truthy code then
       amounts <- insert_sale w total final ;;
       _ <- execute w SelectCoupon ;;
       Ret (Some amounts)
     else Ret None) ;;
  let used :=
    if truthy code then coupon_with (get_default code "") (coupons t)
    else None in
  items_v <- subscript (req_items d) ;;
  rows <- new_items w items_v ;;
  amounts <- match flushed with
             | Some amounts => Ret amounts
             | None => insert_sale w total final
             end ;;
  _ <- match used with
       | Some _ => execute w UpdateCoupon
       | None => Ret tt
       end ;;
  _ <- match rows with
       | [] => Ret tt
       | _ :: _ => execute w InsertItem
       end ;;
  _ <- execute w CommitAll ;;
  Ret ({| sale_rows :=
            sale_rows t ++
            [{| SaleRow.id := sale_id;
                SaleRow.timestamp := utcnow w;
                SaleRow.total := fst amounts;
                SaleRow.final_total := snd amounts;
                SaleRow.discount_code := code;
                SaleRow.status := "completed";
                SaleRow.access_code := random_code w;
                SaleRow.items := rows |}];
          coupons :=
            match used with
            | Some _ => use_coupon (get_default code "") (coupons t)
            | None => coupons t
            end |},
       SaleOk sale_id (random_code w)).

(** [POST /api/checkout] as one request: the response, and the tables it
    leaves (those of the commit, or the ones before when the [try] block
    raised and the session is dropped with the request). *)
Definition checkout (w : world) (data : option request) (t : tables)
  : answer * tables :=
  match checkout_try w data t with
  | Ret (t', a) => (a, t')
  | Raise e => (SaleError e, t)
  end.

Inductive verdict : Type :=
| Invalid (message : string)
| Valid (type : option string) (value : R)
| NoBody.   (* request.json is None: AttributeError, status 500 *)

(** [POST /api/validate_coupon]; [body] is [request.json], and in it the
    value under [code]. *)
Definition validate_coupon (w : world) (body : option (option string))
  (t : tables) : verdict :=
  match body with
  | None => NoBody
  | Some code =>
      match match code with
            | Some c => coupon_with c (coupons t)
            | None => None
            end with
      | None => Invalid "Código no existe"
      | Some coup =>
          if match Coupon.expiry coup with
             | Some e => e <? now w
             | None => false
             end
          then Invalid "Cupón expirado"
          else if Coupon.max_uses coup <=? Coupon.current_uses coup
               then Invalid "Límite de usos alcanzado"
               else Valid (Coupon.coupon_type coup) (Coupon.value coup)
      end
  end.

(** The sale as [close_day_api] reads it. *)
Definition as_closing_item (i : ItemRow.t) : SaleItem.t :=
  {| SaleItem.product_type := ItemRow.product_type i;
     SaleItem.price := ItemRow.price i;
     SaleItem.photographer := ItemRow.photographer i |}.

Definition as_closing_sale (s : SaleRow.t) : Sale.t :=
  {| Sale.id := SaleRow.id s;
     Sale.timestamp := SaleRow.timestamp s;
     Sale.final_total := SaleRow.final_total s;
     Sale.items := map as_closing_item (SaleRow.items s) |}.

End Shop.

(** ** Vocabulary of the further properties *)

Module More.

Import AIEngine Models App Spec.

(** The guard of the loop of [extract_faces] on one item. *)
Definition has_width (res : represent_item) : bool :=
  0 <? get (match item_facial_area res with Some a => a | None => [] end)
           "w" 0.

(** The item read as a face, when it has both keys. *)
Definition face_of (res : represent_item) : option face :=
  match item_embedding res, item_facial_area res with
  | Some e, Some a => Some {| embedding := e; box := a |}
  | _, _ => None
  end.

(** An item that passes the guard and has no [embedding] key. *)
Definition lacks_embedding (res : represent_item) : Prop :=
  has_width res = true /\ item_embedding res = None.

(** The response [{"error": "No image provided"}] with status 400. *)
Definition no_image : response := jsonify (Error NoImageProvided) 400.

(** The rows the background task inserts for the faces of the photo
    [photo] into a table that holds [ds]: one row per face, in the order
    of the faces, each with the next primary key. *)
Fixpoint descriptors_of (photo : Z) (faces : list face)
  (ds : list FaceDescriptor.t) : list FaceDescriptor.t :=
  match faces with
  | [] => []
  | f :: rest =>
      let d := {| FaceDescriptor.id := next_id (map FaceDescriptor.id ds);
                  FaceDescriptor.photo_id := photo;
                  FaceDescriptor.vector_json := embedding f;
                  FaceDescriptor.box_json := box f |} in
      d :: descriptors_of photo rest (ds ++ [d])
  end.

(** The items of the sales a closing sums up. *)
Definition items_to_close (db : database) : list SaleItem.t :=
  flat_map Sale.items (sales_to_close db).

(** The item counts as a print: its type has "print" in it, whatever the
    case of the letters. *)
Definition is_print (item : SaleItem.t) : bool :=
  contains "print" (lower (or_default (SaleItem.product_type item) "")).

(** The photographer an item is credited to. *)
Definition credited_to (item : SaleItem.t) : string :=
  or_default (SaleItem.photographer item) "Manual".

(** The amount the splits hold for [ph], zero when [ph] is no key. *)
Definition split_of (ph : string) (splits : list (string * R)) : R :=
  match find (fun kv => String.eqb (fst kv) ph) splits with
  | Some kv => snd kv
  | None => 0%R
  end.

(** The sum of the prices of the items credited to [ph]. *)
Fixpoint prices_of (ph : string) (items : list SaleItem.t) : R :=
  match items with
  | [] => 0%R
  | item :: rest =>
      if String.eqb (credited_to item) ph
      then (match SaleItem.price item with Some p => p | None => 0%R end
            + prices_of ph rest)%R
      else prices_of ph rest
  end.

(** The sale is dated after every closing on record. *)
Definition after_all_closings (db : database) (s : Sale.t) : bool :=
  forallb (fun r => EODReport.timestamp r <? Sale.timestamp s)
          (eod_reports db).

(** The sale [checkout] stores for the request [d]. *)
Definition sale_of (w : Shop.world) (d : Shop.request) (t : Shop.tables)
  (total final : R) (rows : list Shop.ItemRow.t) : Shop.SaleRow.t :=
  {| Shop.SaleRow.id := next_id (map Shop.SaleRow.id (Shop.sale_rows t));
     Shop.SaleRow.timestamp := Shop.utcnow w;
     Shop.SaleRow.total := total;
     Shop.SaleRow.final_total := final;
     Shop.SaleRow.discount_code := Shop.req_discount_code d;
     Shop.SaleRow.status := "completed";
     Shop.SaleRow.access_code := Shop.random_code w;
     Shop.SaleRow.items := rows |}.

(** The coupons after a checkout with the discount code of [d]. *)
Definition coupons_after (d : Shop.request) (t : Shop.tables)
  : list Shop.Coupon.t :=
  if Shop.truthy (Shop.req_discount_code d)
  then Shop.use_coupon (Shop.get_default (Shop.req_discount_code d) "")
                       (Shop.coupons t)
  else Shop.coupons t.

(** The request is well formed: its totals are numbers, or texts that
    [float] reads, and so are the prices of its items, each of which has
    a product name. *)
Definition readable (w : Shop.world) (d : Shop.request) (total final : R)
  (rows : list Shop.ItemRow.t) : Prop :=
  bind (Shop.subscript (Shop.req_total d)) (Shop.float w)
  = Ret (Shop.Num total) /\
  bind (Shop.subscript (Shop.req_final_total d)) (Shop.float w)
  = Ret (Shop.Num final) /\
  bind (Shop.subscript (Shop.req_items d)) (Shop.new_items w) = Ret rows.

(** The statements a checkout with a well-formed request sends, up to
    the first the engine refuses. *)
Definition sends (w : Shop.world) (d : Shop.request) (t : Shop.tables)
  (rows : list Shop.ItemRow.t) : result unit :=
  _ <- (if Shop.truthy (Shop.req_discount_code d)
        then _ <- Shop.execute w Shop.InsertSale ;;
             Shop.execute w Shop.SelectCoupon
        else Ret tt) ;;
  _ <- (if Shop.truthy (Shop.req_discount_code d) then Ret tt
        else Shop.execute w Shop.InsertSale) ;;
  _ <- (if Shop.truthy (Shop.req_discount_code d)
        then match Shop.coupon_with
                     (Shop.get_default (Shop.req_discount_code d) "")
                     (Shop.coupons t) with
             | Some _ => Shop.execute w Shop.UpdateCoupon
             | None => Ret tt
             end
        else Ret tt) ;;
  _ <- match rows with
       | [] => Ret tt
       | _ :: _ => Shop.execute w Shop.InsertItem
       end ;;
  Shop.execute w Shop.CommitAll.

(** Every item of every stored sale has a price. *)
Definition priced (t : Shop.tables) : Prop :=
  Forall (fun s =>
            Forall (fun i => Shop.ItemRow.price i <> None)
                   (Shop.SaleRow.items s))
         (Shop.sale_rows t).

(** The price of the item is sent, and [float] reads it as [nan]. *)
Definition nan_price (w : Shop.world) (item : Shop.item_request) : Prop :=
  exists v, Shop.item_price item = Some v /\ Shop.float w v = Ret Shop.NaN.

(** No item of the request has a price that [float] reads as [nan]. *)
Definition prices_are_numbers (w : Shop.world)
  (data : option Shop.request) : Prop :=
  forall d items,
    data = Some d -> Shop.req_items d = Some items ->
    Forall (fun item => ~ nan_price w item) items.

(** The tables after a series of checkouts. *)
Definition checkouts (reqs : list (Shop.world * option Shop.request))
  (t : Shop.tables) : Shop.tables :=
  fold_left (fun t wr => snd (Shop.checkout (fst wr) (snd wr) t)) reqs t.

Definition no_sales : Shop.tables :=
  {| Shop.sale_rows := []; Shop.coupons := [] |}.

(** A stored embedding of another dimension than the probe embedding. *)
Definition other_length (target : list float) (d : FaceDescriptor.t) : Prop :=
  List.length (FaceDescriptor.vector_json d) <> List.length target.

End More.

Module MoreExamples.

Import AIEngine Models App Spec Examples More.

(** A region of width 8 and one without width, as the model returns them. *)
Definition wide_item (e : list float) : represent_item :=
  {| item_embedding := Some e;
     item_facial_area := Some [("x", 1); ("y", 2); ("w", 8); ("h", 9)] |}.

Definition narrow_item (e : list float) : represent_item :=
  {| item_embedding := Some e;
     item_facial_area := Some [("x", 1); ("y", 2); ("w", 0); ("h", 9)] |}.

(** The model finds two faces, with the embeddings [e1] and [e2]. *)
Definition seen_two (e1 e2 : list float) : represent_outcome :=
  Ret [{| item_embedding := Some e1;
          item_facial_area :=
            Some [("x", 0); ("y", 0); ("w", 10); ("h", 10)] |};
       {| item_embedding := Some e2;
          item_facial_area :=
            Some [("x", 50); ("y", 0); ("w", 10); ("h", 10)] |}].

Definition second_face (e : list float) : face :=
  {| embedding := e; box := [("x", 50); ("y", 0); ("w", 10); ("h", 10)] |}.

(** A kiosk as [kiosk], whose database engine refuses [refused]. *)
Definition kiosk_with (o : represent_outcome) (refused : statement -> bool)
  : world :=
  {| b64decode := fun encoded => Ret encoded;
     write_temp := fun _ => Ret tt;
     represent := fun _ => o;
     os_remove := Ret tt;
     refuses := refused;
     utcnow := 1000 |}.

Definition refuse_commit (st : statement) : bool :=
  match st with
  | Commit => true
  | _ => false
  end.

(** A till where the engine accepts every statement and [float] reads
    no text. *)
Definition till : Shop.world :=
  {| Shop.float_of_text := fun _ => Raise ValueError;
     Shop.random_code := "K7Q2M9XA";
     Shop.refuses := fun _ => false;
     Shop.utcnow := 700;
     Shop.now := 700 |}.

Definition one_use (code : string) (uses : Z) : Shop.Coupon.t :=
  {| Shop.Coupon.id := 1; Shop.Coupon.code := code;
     Shop.Coupon.coupon_type := Some "fixed"; Shop.Coupon.value := 10%R;
     Shop.Coupon.max_uses := 1; Shop.Coupon.current_uses := uses;
     Shop.Coupon.expiry := None |}.

Definition with_coupon (code : string) (uses : Z) : Shop.tables :=
  {| Shop.sale_rows := []; Shop.coupons := [one_use code uses] |}.

Definition digital_item (price : Shop.json) : Shop.item_request :=
  {| Shop.item_photo_id := Some 10;
     Shop.item_product_name := Some (Some "Digital HD");
     Shop.item_price := Some price;
     Shop.item_product_type := None;
     Shop.item_photographer := None |}.

Definition basket (code : option string) (items : list Shop.item_request)
  : Shop.request :=
  {| Shop.req_total := Some (Shop.JNum (Shop.Num 15));
     Shop.req_final_total := Some (Shop.JNum (Shop.Num 5));
     Shop.req_discount_code := code;
     Shop.req_items := Some items |}.

(** A database whose one sale is the one a checkout of [item] at the
    till stores in empty tables. *)
Definition day_of (item : Shop.item_request) : database :=
  {| photos := []; face_descriptors := [];
     sales := map Shop.as_closing_sale
                (Shop.sale_rows
                   (snd (Shop.checkout till (Some (basket None [item]))
                           no_sales)));
     eod_reports := [] |}.

(** A region of width 8 whose dict has no [embedding] key. *)
Definition bare_item : represent_item :=
  {| item_embedding := None;
     item_facial_area := Some [("x", 1); ("y", 2); ("w", 8); ("h", 9)] |}.

End MoreExamples.

(** ** Tactics *)

(** The rows of an example store have embeddings of the probe's dimension
    and refer to the photo 10 or the photo 20. *)
Ltac rows_consistent :=
  repeat first
    [ apply Forall_nil
    | apply Forall_cons;
      [ split; [reflexivity | first [left; reflexivity | right; reflexivity]]
      | ] ].

(** * Properties *)

(** ** The extractor adapter *)

Module ExtractorFacts.

Import AIEngine Spec Examples.

Lemma extract_one_wide (res : represent_item) (acc l : list face) :
  Forall wide acc -> extract_one res acc = Ret l -> Forall wide l.
Proof.
  intros Hacc. unfold extract_one.
  destruct (item_facial_area res) as [a|] eqn:Ha; cbn.
  - destruct (0 <? get a "w" 0) eqn:Hw.
    + destruct (item_embedding res) as [e|]; [|discriminate].
      intros [= <-]. apply Forall_app. split; [exact Hacc|].
      constructor; [|constructor]. unfold wide; cbn. now apply Z.ltb_lt.
    + now intros [= <-].
  - now intros [= <-].
Qed.

Lemma extract_loop_wide (results : list represent_item) :
  forall acc l, Forall wide acc -> extract_loop results acc = Ret l ->
                Forall wide l.
Proof.
  induction results as [|res rest IH]; intros acc l Hacc; cbn.
  - now intros [= <-].
  - destruct (extract_one res acc) as [acc'|e] eqn:H1; cbn; [|discriminate].
    apply IH. eapply extract_one_wide; eauto.
Qed.

Lemma extract_faces_returns (o : represent_outcome) :
  exists faces, extract_faces o = Ret faces.
Proof.
  unfold extract_faces.
  destruct o as [results|e]; cbn; [|now exists []].
  destruct (extract_loop results []); cbn; eauto.
Qed.

(** C7, as the code has it: [extract_faces] returns, and every face it
    returns has a box of positive width (the guard of the loop reads the
    key [w] and no other). *)
Theorem extract_faces_width_positive (o : represent_outcome) :
  exists faces, extract_faces o = Ret faces /\ Forall wide faces.
Proof.
  unfold extract_faces.
  destruct o as [results|e]; cbn; [|exists []; split; [reflexivity|constructor]].
  destruct (extract_loop results []) as [l|e] eqn:Hloop; cbn.
  - exists l. split; [reflexivity|].
    eapply extract_loop_wide; [|exact Hloop]. constructor.
  - exists []. split; [reflexivity|constructor].
Qed.

(** C7 as the specification states it fails: a region of width 5 and
    height 0 passes the guard, and the face returned has a box of height
    zero. *)
Lemma extract_faces_keeps_zero_height :
  extract_faces (Ret [flat_item]) = Ret [flat_face] /\ flat flat_face.
Proof. split; reflexivity. Qed.

(** C9: [extract_faces] returns a list on every outcome of the model call
    and never raises; when the model call raises, and when the loop over
    its results raises, the list is empty, which is also what is returned
    when the model finds no face. *)
Theorem extract_faces_total (o : represent_outcome) :
  (exists faces, extract_faces o = Ret faces) /\
  (forall e, extract_faces (Raise e) = Ret []) /\
  (forall e, extract_faces (Raise e) = extract_faces (Ret [])) /\
  (forall results,
      extract_faces (Ret results) =
      Ret (match extract_loop results [] with
           | Ret faces => faces
           | Raise _ => []
           end)).
Proof.
  split; [apply extract_faces_returns|].
  split; [reflexivity|].
  split; [reflexivity|].
  intros results. unfold extract_faces; cbn.
  now destruct (extract_loop results []).
Qed.

End ExtractorFacts.

(** ** Doubles *)

Module FloatFacts.

Import Spec.

Ltac compare_cases :=
  repeat match goal with
  | |- context [(?a ?= ?b)%Z] =>
      destruct (Z.compare_spec a b); subst
  | |- context [PosDef.Pos.compare_cont Eq ?a ?b] =>
      change (PosDef.Pos.compare_cont Eq a b) with (Pos.compare a b);
      destruct (Pos.compare_spec a b); subst
  | H : context [(?a ?= ?b)%Z] |- _ =>
      destruct (Z.compare_spec a b); subst
  | H : context [PosDef.Pos.compare_cont Eq ?a ?b] |- _ =>
      change (PosDef.Pos.compare_cont Eq a b) with (Pos.compare a b) in H;
      destruct (Pos.compare_spec a b); subst
  end.

Ltac by_cases :=
  cbn in *; compare_cases; cbn in *;
  try reflexivity; try discriminate; try congruence; try lia.

(** The comparison of the specification of binary64 is a total preorder
    on the values that are no [nan]. *)
Lemma SFleb_trans (x y z : spec_float) :
  SFleb x y = true -> SFleb y z = true -> SFleb x z = true.
Proof.
  unfold SFleb.
  destruct x as [[]|[]| |[] mx ex], y as [[]|[]| |[] my ey],
           z as [[]|[]| |[] mz ez]; intros H1 H2; by_cases.
Qed.

Lemma SFeqb_trans (x y z : spec_float) :
  SFeqb x y = true -> SFeqb y z = true -> SFeqb x z = true.
Proof.
  unfold SFeqb.
  destruct x as [[]|[]| |[] mx ex], y as [[]|[]| |[] my ey],
           z as [[]|[]| |[] mz ez]; intros H1 H2; by_cases.
Qed.

Lemma SFeqb_sym (x y : spec_float) : SFeqb x y = SFeqb y x.
Proof.
  unfold SFeqb.
  destruct x as [[]|[]| |[] mx ex], y as [[]|[]| |[] my ey]; by_cases.
Qed.

Lemma SFltb_SFleb (x y : spec_float) : SFltb x y = true -> SFleb x y = true.
Proof. unfold SFltb, SFleb. now destruct (SFcompare x y) as [[]|]. Qed.

Lemma SFltb_number (x y : spec_float) :
  SFltb x y = true -> SFeqb x x = true /\ SFeqb y y = true.
Proof.
  unfold SFltb, SFeqb.
  destruct x as [[]|[]| |[] mx ex], y as [[]|[]| |[] my ey];
    intros H; split; by_cases.
Qed.

Lemma SFleb_total (x y : spec_float) :
  SFeqb x x = true -> SFeqb y y = true ->
  SFltb x y = false -> SFleb y x = true.
Proof.
  unfold SFltb, SFleb, SFeqb.
  destruct x as [[]|[]| |[] mx ex], y as [[]|[]| |[] my ey];
    intros Hx Hy H; by_cases.
Qed.

Lemma SFleb_SFltb (x y : spec_float) : SFleb x y = true -> SFltb y x = false.
Proof.
  unfold SFltb, SFleb.
  destruct x as [[]|[]| |[] mx ex], y as [[]|[]| |[] my ey];
    intros H; by_cases.
Qed.

Lemma SFleb_antisym (x y : spec_float) :
  SFleb x y = true -> SFleb y x = true -> SFeqb x y = true.
Proof.
  unfold SFeqb, SFleb.
  destruct x as [[]|[]| |[] mx ex], y as [[]|[]| |[] my ey];
    intros H1 H2; by_cases.
Qed.

Lemma SFeqb_SFleb (x y : spec_float) : SFeqb x y = true -> SFleb x y = true.
Proof. unfold SFeqb, SFleb. now destruct (SFcompare x y) as [[]|]. Qed.

Lemma SFmul_comm (prec emax : Z) (x y : spec_float) :
  SFmul prec emax x y = SFmul prec emax y x.
Proof.
  destruct x as [sx|sx| |sx mx ex], y as [sy|sy| |sy my ey]; cbn;
    rewrite ?(xorb_comm sx sy), ?(Pos.mul_comm mx my), ?(Z.add_comm ex ey);
    reflexivity.
Qed.

(** The same on the doubles of the code. *)
Lemma leb_trans (x y z : float) :
  PrimFloat.leb x y = true -> PrimFloat.leb y z = true ->
  PrimFloat.leb x z = true.
Proof. rewrite !leb_spec. apply SFleb_trans. Qed.

Lemma eqb_trans (x y z : float) :
  PrimFloat.eqb x y = true -> PrimFloat.eqb y z = true ->
  PrimFloat.eqb x z = true.
Proof. rewrite !eqb_spec. apply SFeqb_trans. Qed.

Lemma eqb_sym (x y : float) : PrimFloat.eqb x y = PrimFloat.eqb y x.
Proof. rewrite !eqb_spec. apply SFeqb_sym. Qed.

Lemma ltb_leb (x y : float) :
  PrimFloat.ltb x y = true -> PrimFloat.leb x y = true.
Proof. rewrite ltb_spec, leb_spec. apply SFltb_SFleb. Qed.

Lemma ltb_number (x y : float) :
  PrimFloat.ltb x y = true -> number x /\ number y.
Proof. unfold number. rewrite ltb_spec, !eqb_spec. apply SFltb_number. Qed.

Lemma leb_total (x y : float) :
  number x -> number y ->
  PrimFloat.ltb x y = false -> PrimFloat.leb y x = true.
Proof.
  unfold number. rewrite ltb_spec, leb_spec, !eqb_spec. apply SFleb_total.
Qed.

Lemma leb_ltb (x y : float) :
  PrimFloat.leb x y = true -> PrimFloat.ltb y x = false.
Proof. rewrite ltb_spec, leb_spec. apply SFleb_SFltb. Qed.

Lemma leb_antisym (x y : float) :
  PrimFloat.leb x y = true -> PrimFloat.leb y x = true ->
  PrimFloat.eqb x y = true.
Proof. rewrite !leb_spec, eqb_spec. apply SFleb_antisym. Qed.

Lemma eqb_leb (x y : float) :
  PrimFloat.eqb x y = true -> PrimFloat.leb x y = true.
Proof. rewrite leb_spec, eqb_spec. apply SFeqb_SFleb. Qed.

Lemma eqb_ltb (x y : float) :
  PrimFloat.eqb x y = true -> PrimFloat.ltb x y = false.
Proof.
  intros H. apply leb_ltb, eqb_leb. now rewrite eqb_sym.
Qed.

Lemma mul_comm (x y : float) : PrimFloat.mul x y = PrimFloat.mul y x.
Proof.
  apply Prim2SF_inj. rewrite !mul_spec. apply SFmul_comm.
Qed.

End FloatFacts.

(** ** Cosine similarity *)

Module SimilarityFacts.

Import AIEngine Spec.

Lemma np_dot_same_length (v1 v2 : list float) :
  List.length v1 = List.length v2 -> np_dot v1 v2 = Ret (dot v1 v2).
Proof. intros H. unfold np_dot. now rewrite H, Nat.eqb_refl. Qed.

Lemma np_dot_mismatch (v1 v2 : list float) :
  List.length v1 <> List.length v2 -> np_dot v1 v2 = Raise ValueError.
Proof.
  intros H. unfold np_dot.
  destruct (Nat.eqb _ _) eqn:E; [|reflexivity].
  now apply Nat.eqb_eq in E.
Qed.



(** The values of the examples, computed. *)
Example cosine_values :
  cosine [3; 4]%float [3; 4]%float = 1%float /\
  cosine [3; 4]%float [4; 3]%float = 0.96%float /\
  cosine [3; 4]%float [4; -3]%float = 0%float /\
  cosine [1%float] [1%float] = 1%float /\
  cosine [1%float] [-1]%float = (-1)%float.
Proof. repeat split. Qed.


End SimilarityFacts.

(** ** Sorting *)

Module SortFacts.

Import App Spec FloatFacts.

Section Sort.

Variable A : Type.
Variable key : A -> float.

Lemma insert_reverse_perm (x : A) (l : list A) :
  Permutation (insert_reverse key x l) (x :: l).
Proof.
  induction l as [|y l IH]; cbn; [reflexivity|].
  destruct (PrimFloat.ltb (key x) (key y)); [|reflexivity].
  rewrite IH. apply perm_swap.
Qed.

Lemma sort_reverse_perm (l : list A) : Permutation (sort_reverse key l) l.
Proof.
  induction l as [|x l IH]; cbn; [reflexivity|].
  rewrite insert_reverse_perm. now constructor.
Qed.

Lemma insert_reverse_sorted (x : A) (l : list A) :
  number (key x) -> Forall (fun a => number (key a)) l ->
  StronglySorted (ge_key key) l ->
  StronglySorted (ge_key key) (insert_reverse key x l).
Proof.
  intros Hx.
  induction l as [|y l IH]; intros Hn Hs; cbn.
  - repeat constructor.
  - inversion Hs as [|? ? Hl Hy]; subst.
    inversion Hn as [|? ? Hny Hnl]; subst.
    destruct (PrimFloat.ltb (key x) (key y)) eqn:Hlt.
    + constructor; [now apply IH|].
      rewrite insert_reverse_perm. constructor; [|exact Hy].
      unfold ge_key. now apply ltb_leb.
    + assert (Hyx : PrimFloat.leb (key y) (key x) = true)
        by now apply leb_total.
      constructor; [exact Hs|].
      constructor; [exact Hyx|].
      eapply Forall_impl; [|exact Hy].
      unfold ge_key. intros a Ha. exact (leb_trans Ha Hyx).
Qed.

Lemma sort_reverse_sorted (l : list A) :
  Forall (fun a => number (key a)) l ->
  StronglySorted (ge_key key) (sort_reverse key l).
Proof.
  induction 1 as [|x l Hx Hl IH]; cbn; [constructor|].
  apply insert_reverse_sorted; [exact Hx| |exact IH].
  eapply Permutation_Forall; [symmetry; apply sort_reverse_perm|exact Hl].
Qed.

End Sort.

Lemma filter_sorted {A} (R : A -> A -> Prop) (f : A -> bool) (l : list A) :
  StronglySorted R l -> StronglySorted R (filter f l).
Proof.
  induction 1 as [|x l Hs IH Hx]; cbn; [constructor|].
  destruct (f x); [|exact IH].
  constructor; [exact IH|].
  rewrite Forall_forall in *. intros a Ha.
  apply filter_In in Ha as [Ha _]. now apply Hx.
Qed.

Lemma sort_reverse_map {A B} (f : A -> B) (key : B -> float) (l : list A) :
  sort_reverse key (map f l) = map f (sort_reverse (fun a => key (f a)) l).
Proof.
  unfold sort_reverse.
  induction l as [|x l IH]; [reflexivity|]. cbn [map fold_right]. rewrite IH.
  generalize (fold_right (insert_reverse (fun a => key (f a))) [] l).
  intros m.
  induction m as [|y m IHm]; [reflexivity|]. cbn.
  destruct (PrimFloat.ltb (key (f x)) (key (f y))); cbn;
    [now rewrite IHm|reflexivity].
Qed.

(** The scan of SQLite lists every row once, by ascending identifier. *)
Lemma rowid_insert_perm (d : Models.FaceDescriptor.t)
  (l : list Models.FaceDescriptor.t) :
  Permutation (Models.rowid_insert d l) (d :: l).
Proof.
  induction l as [|y l IH]; cbn; [reflexivity|].
  destruct (_ <=? _); [reflexivity|].
  rewrite IH. apply perm_swap.
Qed.

Lemma rowid_scan_perm (rows : list Models.FaceDescriptor.t) :
  Permutation (Models.rowid_scan rows) rows.
Proof.
  induction rows as [|d rows IH]; cbn; [reflexivity|].
  rewrite rowid_insert_perm. now constructor.
Qed.

Lemma rowid_insert_sorted (d : Models.FaceDescriptor.t)
  (l : list Models.FaceDescriptor.t) :
  StronglySorted by_id l -> StronglySorted by_id (Models.rowid_insert d l).
Proof.
  induction l as [|y l IH]; intros Hs; cbn.
  - repeat constructor.
  - inversion Hs as [|? ? Hl Hy]; subst.
    destruct (Models.FaceDescriptor.id d <=? Models.FaceDescriptor.id y)
      eqn:Hle.
    + apply Z.leb_le in Hle. constructor; [exact Hs|].
      constructor; [exact Hle|].
      eapply Forall_impl; [|exact Hy]. unfold by_id. intros a Ha. lia.
    + apply Z.leb_gt in Hle. constructor; [now apply IH|].
      rewrite rowid_insert_perm. constructor; [unfold by_id; lia|exact Hy].
Qed.

Lemma rowid_scan_sorted (rows : list Models.FaceDescriptor.t) :
  StronglySorted by_id (Models.rowid_scan rows).
Proof.
  induction rows as [|d rows IH]; cbn; [constructor|].
  now apply rowid_insert_sorted.
Qed.

End SortFacts.

(** ** identify_client *)

Module IdentifyFacts.

Import AIEngine Models App Spec Examples FloatFacts SortFacts SimilarityFacts.

(** On a stored embedding of the dimension of the probe, the score is
    what [get_similarity] returns, the cosine in doubles. *)
Lemma score_comparable (target : list float) (d : FaceDescriptor.t) :
  comparable target d ->
  get_similarity target (FaceDescriptor.vector_json d)
  = Ret (score target d) /\
  score target d = cosine target (FaceDescriptor.vector_json d).
Proof.
  intros H. unfold score, get_similarity.
  rewrite np_dot_same_length by (symmetry; exact H). now split.
Qed.

Lemma above_number (s : float) : above s -> number s.
Proof. intros H. now apply ltb_number in H. Qed.

Lemma scan_one_session (target : list float) (d : FaceDescriptor.t)
  (acc : list match_result) (refuses : statement -> bool) (s : session) :
  snd (scan_one target d acc refuses s) = s.
Proof.
  unfold scan_one, mbind, lift.
  destruct (get_similarity target (FaceDescriptor.vector_json d))
    as [sim|e]; [|reflexivity].
  destruct (PrimFloat.ltb _ sim); [|reflexivity].
  unfold photo_of. now destruct (find _ _).
Qed.

Lemma scan_session (target : list float) (refuses : statement -> bool)
  (ds : list FaceDescriptor.t) :
  forall acc s, snd (scan target ds acc refuses s) = s.
Proof.
  induction ds as [|d ds IH]; intros acc s; cbn; [reflexivity|].
  unfold mbind at 1.
  pose proof (scan_one_session target d acc refuses s) as H1.
  destruct (scan_one target d acc refuses s) as [[acc'|e] s1];
    cbn in H1; subst s1; [apply IH|reflexivity].
Qed.

(** The loop on a row it gets through. *)
Lemma scan_one_passable (target : list float) (d : FaceDescriptor.t)
  (acc : list match_result) (refuses : statement -> bool) (s : session) :
  passable (working s) target d ->
  scan_one target d acc refuses s =
  (Ret (acc ++ if exceedsb target d
               then [match_of (working s) target d] else []), s).
Proof.
  intros [Hlen Hphoto].
  unfold scan_one, mbind, lift.
  rewrite (proj1 (score_comparable Hlen)).
  unfold exceedsb in *.
  destruct (PrimFloat.ltb _ (score target d)).
  - unfold photo_of, match_of, photo_row in *.
    destruct (find _ _) as [p|]; [reflexivity|].
    now destruct (Hphoto eq_refl).
  - unfold ret. now rewrite app_nil_r.
Qed.

Lemma scan_passable (target : list float) (refuses : statement -> bool)
  (s : session) (ds : list FaceDescriptor.t) :
  forall acc,
    Forall (passable (working s) target) ds ->
    scan target ds acc refuses s =
    (Ret (acc ++ map (match_of (working s) target)
                     (filter (exceedsb target) ds)), s).
Proof.
  induction ds as [|d ds IH]; intros acc Hall; cbn [scan filter map].
  - unfold ret. now rewrite app_nil_r.
  - inversion Hall as [|? ? Hd Hrest]; subst.
    unfold mbind at 1. rewrite scan_one_passable by assumption.
    rewrite IH by assumption.
    destruct (exceedsb target d); cbn [map]; [|now rewrite app_nil_r].
    now rewrite <- app_assoc.
Qed.

(** The loop on a row it stops at. *)
Lemma scan_one_blocking (target : list float) (d : FaceDescriptor.t)
  (acc : list match_result) (refuses : statement -> bool) (s : session) :
  blocking (working s) target d ->
  exists e, scan_one target d acc refuses s = (Raise e, s).
Proof.
  intros [Hlen|[Hex Hphoto]]; unfold scan_one, mbind, lift.
  - exists ValueError. unfold get_similarity.
    rewrite np_dot_mismatch; [reflexivity|].
    intros H. apply Hlen. unfold comparable. now symmetry.
  - unfold exceedsb, score in Hex.
    destruct (get_similarity target (FaceDescriptor.vector_json d))
      as [sim|e]; [|now exists e].
    rewrite Hex. exists AttributeError.
    unfold photo_of, photo_row in *. now rewrite Hphoto.
Qed.

Lemma scan_blocking (target : list float) (refuses : statement -> bool)
  (s : session) (ds : list FaceDescriptor.t) :
  Exists (blocking (working s) target) ds ->
  forall acc, exists e, scan target ds acc refuses s = (Raise e, s).
Proof.
  induction 1 as [d ds Hd|d ds _ IH]; intros acc; cbn [scan].
  - destruct (@scan_one_blocking target d acc refuses s Hd) as [e He].
    exists e. unfold mbind. now rewrite He.
  - unfold mbind at 1.
    pose proof (scan_one_session target d acc refuses s) as Hs.
    destruct (scan_one target d acc refuses s) as [[acc'|e] s1];
      cbn in Hs; subst s1; [apply IH|now exists e].
Qed.

(** Whatever the table holds, a result of the scan comes from a row of
    the table. *)
Lemma scan_one_sound (target : list float) (d : FaceDescriptor.t)
  (acc ms : list match_result) (refuses : statement -> bool)
  (s s' : session) :
  scan_one target d acc refuses s = (Ret ms, s') ->
  s' = s /\
  (ms = acc \/
   exists m, ms = acc ++ [m] /\
             photo_id m = FaceDescriptor.photo_id d /\
             above (similarity m)).
Proof.
  unfold scan_one, mbind, lift.
  destruct (get_similarity target (FaceDescriptor.vector_json d))
    as [sim|e]; [|discriminate].
  destruct (PrimFloat.ltb _ sim) eqn:Hgt.
  - unfold photo_of. destruct (find _ _) as [p|]; [|discriminate].
    unfold ret. intros [= <- <-]. split; [reflexivity|].
    right. eexists. split; [reflexivity|]. now split.
  - unfold ret. intros [= <- <-]. now split; [|left].
Qed.

Lemma scan_sound (target : list float) (refuses : statement -> bool)
  (ds : list FaceDescriptor.t) :
  forall acc ms s s',
    scan target ds acc refuses s = (Ret ms, s') ->
    forall m, In m ms -> In m acc \/ from_rows ds m.
Proof.
  induction ds as [|d ds IH]; intros acc ms s s'; cbn.
  - unfold ret. intros [= <- <-] m Hm. now left.
  - unfold mbind at 1.
    destruct (scan_one target d acc refuses s) as [[acc'|e] s1] eqn:H1;
      [|discriminate].
    intros Hscan m Hm.
    apply scan_one_sound in H1 as [-> Hacc].
    destruct (IH _ _ _ _ Hscan m Hm) as [Hin|(d' & Hd' & Hrest)].
    + destruct Hacc as [->|(m' & -> & Hp & Hs)]; [now left|].
      apply in_app_or in Hin as [Hin|[<-|[]]]; [now left|].
      right. exists d. split; [now left|now split].
    + right. exists d'. split; [now right|exact Hrest].
Qed.

Lemma from_rows_listing (rows : list FaceDescriptor.t) (m : match_result) :
  from_rows (rowid_scan rows) m -> from_rows rows m.
Proof.
  intros (d & Hd & H). exists d. split; [|exact H].
  exact (Permutation_in _ (rowid_scan_perm rows) Hd).
Qed.

(** The handler up to the extraction, on a request whose image is
    readable. *)
Lemma identify_after_extraction (w : world) (img data : string)
  (faces : list face) (db : database) :
  probe_readable w img data ->
  extract_faces (represent w data) = Ret faces ->
  identify_client w (posted img) db =
  match faces with
  | [] => found [] (Some no_face_message)
  | first_face :: _ =>
      match fst (teardown
                   (mtry
                      (all_descriptors <--
                         query_all (fun db => rowid_scan (face_descriptors db)) ;;
                       matches <-- scan (embedding first_face) all_descriptors [] ;;
                       ret (found (firstn 20 (sort_reverse similarity matches))
                                  None))
                      (fun e => ret (jsonify (Error (Str e)) 500)))
                   (refuses w) db) with
      | Ret resp => resp
      | Raise e => {| status := 500; payload := Error (Str e) |}
      end
  end.
Proof.
  intros (Hne & header & encoded & Hsplit & Hdec & Hwrite & Hrm) Hfaces.
  unfold identify_client, identify_body, teardown, posted.
  cbn [truthy dict_get find fst snd String.eqb Ascii.eqb Bool.eqb].
  unfold mbind at 1, lift. cbn [truthy].
  destruct (String.eqb img EmptyString) eqn:E;
    [apply String.eqb_eq in E; contradiction|].
  cbn [negb]. unfold mtry, mbind, lift. cbn [split_header].
  rewrite Hsplit; cbn. rewrite Hdec, Hwrite, Hfaces, Hrm.
  destruct faces as [|f rest]; [reflexivity|].
  unfold ret, found.
  destruct (query_all (fun db0 => rowid_scan (face_descriptors db0))
              (refuses w) (begin db)) as [[ds|e] s'];
    [|reflexivity].
  now destruct (scan (embedding f) ds [] (refuses w) s') as [[ms|e] s''].
Qed.

(** The ways a request ends: the image of the request is missing, the
    handler fails, no face is found, or the scan returns its matches. *)
Lemma identify_cases (w : world) (request_json : json) (db : database) :
  (exists image,
      image_of request_json = Ret image /\ truthy image = false /\
      identify_client w request_json db
      = jsonify (Error NoImageProvided) 400) \/
  ((forall image, image_of request_json = Ret image -> truthy image = true) /\
   ((exists e, identify_client w request_json db = failed e) \/
    identify_client w request_json db = found [] (Some no_face_message) \/
    (exists f ms,
        scan (embedding f) (rowid_scan (face_descriptors db)) []
             (refuses w) (begin db) = (Ret ms, begin db) /\
        identify_client w request_json db =
        found (firstn 20 (sort_reverse similarity ms)) None))).
Proof.
  unfold identify_client, identify_body, teardown, image_of.
  cbv beta iota zeta delta [mtry mbind lift ret query_all execute].
  destruct (dict_get _ "image") as [image|e];
    [|right; split; [discriminate|left; now exists e]].
  destruct (truthy image) eqn:Himage; cbn [negb];
    [|left; now exists image].
  right. split; [now intros image' [= <-]|].
  destruct (split_header image) as [parts|e]; [|left; now exists e].
  destruct (b64decode w (snd parts)) as [data|e]; [|left; now exists e].
  destruct (write_temp w data) as [[]|e]; [|left; now exists e].
  destruct (extract_faces (represent w data)) as [faces|e];
    [|left; now exists e].
  destruct (os_remove w) as [[]|e]; [|left; now exists e].
  destruct faces as [|f rest]; [right; now left|].
  destruct (refuses w Select); [left; now exists OperationalError|].
  cbn [working begin].
  pose proof (scan_session (embedding f) (refuses w)
                (rowid_scan (face_descriptors db)) [] (begin db)) as Hs.
  destruct (scan (embedding f) (rowid_scan (face_descriptors db)) []
              (refuses w) (begin db)) as [[ms|e] s'] eqn:Hscan;
    cbn in Hs; subst s'; [|left; now exists e].
  right. right. exists f, ms. now split.
Qed.

(** Every result of a request comes from a row the table holds at the
    time of the request. *)
Lemma identify_results_from_table (w : world) (request_json : json)
  (db : database) (m : match_result) :
  In m (results_of (identify_client w request_json db)) ->
  from_rows (face_descriptors db) m.
Proof.
  destruct (identify_cases w request_json db)
    as [(image & _ & _ & ->)|[_ [[e ->]|[->|(f & ms & Hscan & ->)]]]];
    try (intros []).
  cbn. intros Hm.
  assert (Hin : In m ms).
  { apply (Permutation_in _ (sort_reverse_perm similarity ms)).
    rewrite <- (firstn_skipn 20). apply in_or_app. now left. }
  apply from_rows_listing.
  destruct (scan_sound _ _ _ _ _ Hscan m Hin) as [[]|H]. exact H.
Qed.

Lemma scannable_listing (db : database) (target : list float) :
  scannable db target ->
  Forall (passable db target) (rowid_scan (face_descriptors db)).
Proof.
  apply Permutation_Forall. symmetry. apply rowid_scan_perm.
Qed.

Lemma unscannable_listing (db : database) (target : list float) :
  unscannable db target ->
  Exists (blocking db target) (rowid_scan (face_descriptors db)).
Proof.
  unfold unscannable. rewrite !Exists_exists.
  intros (d & Hd & H). exists d. split; [|exact H].
  exact (Permutation_in _ (Permutation_sym (rowid_scan_perm _)) Hd).
Qed.

(** The loop gets through every row of the table or stops at one. *)
Lemma scannable_or_not (db : database) (target : list float) :
  scannable db target \/ unscannable db target.
Proof.
  unfold scannable, unscannable.
  induction (face_descriptors db) as [|d ds IH]; [left; constructor|].
  destruct IH as [IH|IH]; [|right; now apply Exists_cons_tl].
  unfold passable, blocking, comparable.
  destruct (Nat.eq_dec (List.length (FaceDescriptor.vector_json d))
                       (List.length target)) as [Hlen|Hlen];
    [|right; apply Exists_cons_hd; now left].
  destruct (exceedsb target d) eqn:Hex.
  - destruct (photo_row db d) as [p|] eqn:Hp.
    + left. constructor; [|exact IH]. split; [exact Hlen|].
      rewrite Hp. discriminate.
    + right. apply Exists_cons_hd. right. now split.
  - left. constructor; [|exact IH]. split; [exact Hlen|].
    rewrite Hex. discriminate.
Qed.

(** The response to a probe with a face, by the outcome of the scan. *)
Lemma identify_with_face (w : world) (img : string) (first_face : face)
  (others : list face) (db : database) :
  probe_detects w img (first_face :: others) ->
  identify_client w (posted img) db =
  if refuses w Select then failed OperationalError
  else
    match fst (scan (embedding first_face) (rowid_scan (face_descriptors db))
                 [] (refuses w) (begin db)) with
    | Ret ms => found (firstn 20 (sort_reverse similarity ms)) None
    | Raise e => failed e
    end.
Proof.
  intros (data & Hread & Hfaces).
  rewrite (identify_after_extraction db Hread Hfaces).
  cbv beta iota zeta delta [teardown mtry mbind query_all execute ret].
  destruct (refuses w Select); [reflexivity|].
  cbn [begin working].
  now destruct (scan _ _ _ _ _) as [[ms|e] s'].
Qed.

(** The response to a probe with a face: the ranked matches when the
    engine answers and the loop gets through the table, the error
    otherwise. *)
Lemma identify_outcome (w : world) (img : string) (first_face : face)
  (others : list face) (db : database) :
  probe_detects w img (first_face :: others) ->
  (db_answers w -> scannable db (embedding first_face) ->
   scan (embedding first_face) (rowid_scan (face_descriptors db)) []
        (refuses w) (begin db)
   = (Ret (candidates db (embedding first_face)), begin db) /\
   identify_client w (posted img) db =
   found (firstn 20 (sort_reverse similarity
                       (candidates db (embedding first_face)))) None) /\
  (refuses w Select = true \/ unscannable db (embedding first_face) ->
   exists e, identify_client w (posted img) db = failed e).
Proof.
  intros Hprobe. rewrite (identify_with_face db Hprobe).
  split.
  - intros Hdb Hscan. rewrite Hdb.
    apply scannable_listing in Hscan.
    assert (H : scan (embedding first_face) (rowid_scan (face_descriptors db))
                  [] (refuses w) (begin db)
                = (Ret (candidates db (embedding first_face)), begin db)).
    { now rewrite (@scan_passable (embedding first_face) (refuses w)
                     (begin db) _ [] Hscan). }
    split; [exact H|]. now rewrite H.
  - intros [Hdb|Hbad].
    + rewrite Hdb. now exists OperationalError.
    + destruct (refuses w Select); [now exists OperationalError|].
      apply unscannable_listing in Hbad.
      destruct (@scan_blocking (embedding first_face) (refuses w)
                  (begin db) _ Hbad []) as [e He].
      exists e. now rewrite He.
Qed.

Lemma candidates_above (db : database) (target : list float) :
  Forall (fun m => above (similarity m)) (candidates db target).
Proof.
  unfold candidates, hits. apply Forall_map, Forall_forall.
  intros d Hd. apply filter_In in Hd as [_ Hd]. exact Hd.
Qed.

Lemma candidates_numbers (db : database) (target : list float) :
  Forall (fun m => number (similarity m)) (candidates db target).
Proof.
  eapply Forall_impl; [|apply candidates_above].
  intros m. apply above_number.
Qed.

Lemma filter_perm {A} (f : A -> bool) (l l' : list A) :
  Permutation l l' -> Permutation (filter f l) (filter f l').
Proof.
  induction 1 as [|x l l' _ IH|x y l|l l' l'' _ IH1 _ IH2]; cbn.
  - constructor.
  - destruct (f x); [now constructor|exact IH].
  - destruct (f x), (f y); try reflexivity. apply perm_swap.
  - now transitivity (filter f l').
Qed.

Lemma hits_perm (db : database) (target : list float) :
  Permutation (hits db target)
              (filter (exceedsb target) (face_descriptors db)).
Proof. apply filter_perm, rowid_scan_perm. Qed.

Lemma sorted_firstn_skipn {A} (R : A -> A -> Prop) (l : list A) :
  StronglySorted R l ->
  forall n a b, In a (firstn n l) -> In b (skipn n l) -> R a b.
Proof.
  induction 1 as [|x l Hs IH Hx]; intros n a b Ha Hb.
  - now rewrite firstn_nil in Ha.
  - destruct n as [|n]; [contradiction|]. cbn in Ha, Hb.
    destruct Ha as [<-|Ha]; [|eauto].
    rewrite Forall_forall in Hx. apply Hx.
    rewrite <- (firstn_skipn n l). apply in_or_app. now right.
Qed.

(** C2, as the code has it: on a probe with at least one detected face,
    when the engine answers the query and the loop gets through every row
    of the table (each stored embedding has the dimension of the probe
    embedding, and each matching descriptor refers to a photo), the loop
    of [identify_client] collects a list [matches], the sort turns it
    into [ranked], and the answer has status 200, no message, and the
    first 20 entries of [ranked] as results; [ranked] holds exactly the
    match results of the stored descriptors whose similarity with the
    embedding of the first detected face, as [get_similarity] returns it,
    is above 0.65, each as often as it is stored, most similar first;
    every entry has a similarity above 0.65, the results are 20 or all of
    them, and no entry cut off scores higher than an entry kept.  When
    the engine refuses the query or the loop stops at a row, the answer
    is the error with status 500 and has no results; one of the two is
    the case.  On every store, a result of the answer carries the photo
    reference of a stored descriptor and a similarity above 0.65. *)
Theorem identify_ranks_matches (w : world) (img : string) (db : database) :
  (forall first_face others,
      probe_detects w img (first_face :: others) ->
      (db_answers w ->
       scannable db (embedding first_face) ->
       exists matches ranked,
         scan (embedding first_face) (rowid_scan (face_descriptors db)) []
              (refuses w) (begin db) = (Ret matches, begin db) /\
         ranked = sort_reverse similarity matches /\
         identify_client w (posted img) db = found (firstn 20 ranked) None /\
         Permutation ranked
           (map (match_of db (embedding first_face))
                (filter (exceedsb (embedding first_face))
                        (face_descriptors db))) /\
         StronglySorted descending ranked /\
         Sorted descending ranked /\
         Forall (fun m => above (similarity m)) ranked /\
         List.length (firstn 20 ranked) =
         Nat.min 20 (List.length (filter (exceedsb (embedding first_face))
                                         (face_descriptors db))) /\
         (forall kept cut,
             In kept (firstn 20 ranked) -> In cut (skipn 20 ranked) ->
             PrimFloat.leb (similarity cut) (similarity kept) = true)) /\
      (refuses w Select = true \/ unscannable db (embedding first_face) ->
       exists e,
         identify_client w (posted img) db = failed e /\
         results_of (identify_client w (posted img) db) = []) /\
      (scannable db (embedding first_face) \/
       unscannable db (embedding first_face))) /\
  (forall m,
      In m (results_of (identify_client w (posted img) db)) ->
      from_rows (face_descriptors db) m).
Proof.
  split; [|intros m; apply identify_results_from_table].
  intros first_face others Hprobe.
  destruct (identify_outcome db Hprobe) as [Hgood Hbad].
  set (target := embedding first_face) in *.
  split; [|split; [|apply scannable_or_not]].
  - intros Hdb Hscan. destruct (Hgood Hdb Hscan) as [Hrun Hresp].
    exists (candidates db target),
           (sort_reverse similarity (candidates db target)).
    pose proof (sort_reverse_sorted similarity (candidates_numbers db target))
      as Hsorted.
    pose proof (sort_reverse_perm similarity (candidates db target)) as Hperm.
    assert (Hall : Permutation (candidates db target)
                     (map (match_of db target)
                          (filter (exceedsb target) (face_descriptors db))))
      by apply Permutation_map, hits_perm.
    split; [exact Hrun|]. split; [reflexivity|]. split; [exact Hresp|].
    split; [now transitivity (candidates db target)|].
    split; [exact Hsorted|].
    split; [now apply StronglySorted_Sorted|].
    split; [|split].
    + eapply Permutation_Forall; [symmetry; exact Hperm|].
      apply candidates_above.
    + rewrite length_firstn, (Permutation_length Hperm),
        (Permutation_length Hall). now rewrite length_map.
    + intros kept cut Hk Hc.
      exact (sorted_firstn_skipn Hsorted 20 kept cut Hk Hc).
  - intros Hfail. destruct (Hbad Hfail) as [e He].
    exists e. rewrite He. now split.
Qed.

(** The hypotheses of the theorems on a kiosk that sees one face. *)
Lemma kiosk_detects (e : list float) :
  probe_detects (kiosk (seen e)) snapshot [probe_face e].
Proof.
  exists "AAAA". split; [|reflexivity].
  split; [discriminate|].
  exists "data:image/jpeg;base64", "AAAA". repeat split; reflexivity.
Qed.

Lemma kiosk_readable (o : represent_outcome) :
  probe_readable (kiosk o) snapshot "AAAA".
Proof.
  split; [discriminate|].
  exists "data:image/jpeg;base64", "AAAA". repeat split; reflexivity.
Qed.

(** A store whose rows have the dimension of the probe and refer to one
    of its two photos lets the loop through. *)
Lemma store_scannable (target : list float) (ds : list FaceDescriptor.t) :
  Forall (fun d =>
            List.length (FaceDescriptor.vector_json d) = List.length target /\
            (FaceDescriptor.photo_id d = 10 \/ FaceDescriptor.photo_id d = 20))
         ds ->
  scannable (store ds) target.
Proof.
  unfold scannable; cbn. apply Forall_impl.
  intros d [Hlen Hp]. split; [exact Hlen|]. intros _.
  unfold photo_row; cbn. destruct Hp as [-> | ->]; discriminate.
Qed.

(** C2 on a store of three descriptors and the probe embedding (3, 4). *)
Lemma identify_ranks_matches_witness :
  exists matches ranked,
    scan [3; 4]%float (rowid_scan (face_descriptors three_descriptors)) []
         (refuses (kiosk (seen [3; 4]%float))) (begin three_descriptors)
    = (Ret matches, begin three_descriptors) /\
    ranked = sort_reverse similarity matches /\
    identify_client (kiosk (seen [3; 4]%float)) (posted snapshot)
      three_descriptors
    = found (firstn 20 ranked) None /\
    Permutation ranked
      (map (match_of three_descriptors [3; 4]%float)
           (filter (exceedsb [3; 4]%float)
                   (face_descriptors three_descriptors))) /\
    StronglySorted descending ranked /\
    Sorted descending ranked /\
    Forall (fun m => above (similarity m)) ranked /\
    List.length (firstn 20 ranked) =
    Nat.min 20 (List.length (filter (exceedsb [3; 4]%float)
                                    (face_descriptors three_descriptors))) /\
    (forall kept cut,
        In kept (firstn 20 ranked) -> In cut (skipn 20 ranked) ->
        PrimFloat.leb (similarity cut) (similarity kept) = true).
Proof.
  apply (proj1 (proj1 (identify_ranks_matches (kiosk (seen [3; 4]%float))
                         snapshot three_descriptors)
                  (probe_face [3; 4]%float) [] (kiosk_detects [3; 4]%float))).
  - reflexivity.
  - apply store_scannable. rows_consistent.
Defined.

(** The request of the witness of C2, computed: the descriptor with the
    embedding of the probe comes first with similarity 1, the one at
    similarity 0.96 second, and the one at similarity 0 is left out. *)
Example identify_three_descriptors :
  identify_client (kiosk (seen [3; 4]%float)) (posted snapshot)
    three_descriptors
  = found [ {| photo_id := 10; similarity := 1%float;
               path := "2024-01-01/Juan/a.jpg"; date := 100 |};
            {| photo_id := 20; similarity := 0.96%float;
               path := "2024-01-01/Juan/b.jpg"; date := 200 |} ] None.
Proof. reflexivity. Qed.

(** The threshold is compared on doubles: the embeddings (1, 1, 1, 0, 0,
    0) and (91, 91, 91, 184, 10, 1) have the cosine 13/20 over the real
    numbers, [get_similarity] returns the double 0.6500000000000001 on
    them, which is above the double of 0.65, and the photo is returned. *)
Example identify_at_the_threshold :
  identify_client (kiosk (seen [1; 1; 1; 0; 0; 0]%float)) (posted snapshot)
    (store [descriptor 1 10 [91; 91; 91; 184; 10; 1]%float])
  = found [ {| photo_id := 10; similarity := 0.6500000000000001%float;
               path := "2024-01-01/Juan/a.jpg"; date := 100 |} ] None.
Proof. reflexivity. Qed.

(** C2 as the specification states it fails: on a store with a descriptor
    equal to the probe and a descriptor of another dimension, the first
    has a similarity above the threshold and is not returned: the answer
    is the error of [np.dot] on the second, with no results. *)
Lemma identify_matching_row_not_returned :
  In (descriptor 1 10 [1%float]) (face_descriptors mixed_dimensions) /\
  get_similarity [1%float]
    (FaceDescriptor.vector_json (descriptor 1 10 [1%float]))
  = Ret 1%float /\
  PrimFloat.ltb 0.65%float 1%float = true /\
  identify_client (kiosk (seen [1%float])) (posted snapshot)
    mixed_dimensions
  = {| status := 500; payload := Error (Str ValueError) |} /\
  results_of
    (identify_client (kiosk (seen [1%float])) (posted snapshot)
       mixed_dimensions) = [].
Proof. split; [now left|]. repeat split. Qed.

(** The ranking seen on the descriptors instead of on their results. *)
Lemma ranked_candidates (db : database) (target : list float) :
  sort_reverse similarity (candidates db target) =
  map (match_of db target) (sort_reverse (score target) (hits db target)).
Proof. unfold candidates. now rewrite sort_reverse_map. Qed.

Lemma hits_numbers (db : database) (target : list float) :
  Forall (fun d => number (score target d)) (hits db target).
Proof.
  unfold hits. apply Forall_forall. intros d Hd.
  apply filter_In in Hd as [_ Hd]. now apply above_number.
Qed.

Lemma hits_by_id (db : database) (target : list float) :
  StronglySorted by_id (hits db target).
Proof. unfold hits. apply filter_sorted, rowid_scan_sorted. Qed.

(** The insertion of the sort keeps descriptors of equal score in the
    order of their identifiers, when the descriptor it inserts has the
    lowest. *)
Lemma insert_reverse_ranked (target : list float) (x : FaceDescriptor.t)
  (l : list FaceDescriptor.t) :
  number (score target x) ->
  Forall (fun d => number (score target d)) l ->
  Forall (by_id x) l ->
  StronglySorted (ranked_before target) l ->
  StronglySorted (ranked_before target) (insert_reverse (score target) x l).
Proof.
  intros Hx.
  induction l as [|y l IH]; intros Hn Hid Hs; cbn.
  - repeat constructor.
  - inversion Hs as [|? ? Hl Hy]; subst.
    inversion Hn as [|? ? Hny Hnl]; subst.
    inversion Hid as [|? ? Hxy Hxl]; subst.
    destruct (PrimFloat.ltb (score target x) (score target y)) eqn:Hlt.
    + constructor; [now apply IH|].
      rewrite insert_reverse_perm. constructor; [|exact Hy].
      split; [now apply ltb_leb|].
      intros Heq. rewrite eqb_sym in Heq.
      pose proof (eqb_ltb Heq) as H. congruence.
    + assert (Hyx : PrimFloat.leb (score target y) (score target x) = true)
        by now apply leb_total.
      constructor; [exact Hs|].
      constructor; [split; [exact Hyx|intros _; exact Hxy]|].
      rewrite Forall_forall in Hy, Hxl. apply Forall_forall.
      intros a Ha. split; [|intros _; now apply Hxl].
      exact (leb_trans (proj1 (Hy a Ha)) Hyx).
Qed.

Lemma sort_reverse_ranked (target : list float) (l : list FaceDescriptor.t) :
  Forall (fun d => number (score target d)) l ->
  StronglySorted by_id l ->
  StronglySorted (ranked_before target) (sort_reverse (score target) l).
Proof.
  induction l as [|x l IH]; intros Hn Hs; cbn; [constructor|].
  inversion Hn as [|? ? Hx Hl]; subst.
  inversion Hs as [|? ? Hs' Hxl]; subst.
  apply insert_reverse_ranked; [exact Hx| | |now apply IH].
  - eapply Permutation_Forall; [symmetry; apply sort_reverse_perm|exact Hl].
  - eapply Permutation_Forall; [symmetry; apply sort_reverse_perm|exact Hxl].
Qed.

(** A list has one arrangement sorted by a relation that no two of its
    entries satisfy both ways. *)
Lemma sorted_perm_unique {A} (R : A -> A -> Prop) (l1 : list A) :
  forall l2,
    (forall a b, In a l1 -> In b l1 -> R a b -> R b a -> a = b) ->
    StronglySorted R l1 -> StronglySorted R l2 ->
    Permutation l1 l2 -> l1 = l2.
Proof.
  induction l1 as [|x l1 IH]; intros l2 Hanti H1 H2 Hperm.
  - apply Permutation_nil in Hperm. now subst.
  - destruct l2 as [|y l2];
      [apply Permutation_sym, Permutation_nil in Hperm; discriminate|].
    inversion H1 as [|? ? H1' Hx]; subst.
    inversion H2 as [|? ? H2' Hy]; subst.
    assert (Hhead : x = y).
    { assert (Hx2 : In x (y :: l2))
        by (apply (Permutation_in _ Hperm); now left).
      assert (Hy1 : In y (x :: l1))
        by (apply (Permutation_in _ (Permutation_sym Hperm)); now left).
      destruct Hx2 as [->|Hx2]; [reflexivity|].
      destruct Hy1 as [->|Hy1]; [reflexivity|].
      rewrite Forall_forall in Hx, Hy.
      apply Hanti; [now left|now right|now apply Hx|now apply Hy]. }
    subst y. f_equal. apply IH; [|assumption|assumption|].
    + intros a b Ha Hb. apply Hanti; now right.
    + now apply Permutation_cons_inv with x.
Qed.

(** The identifier is the primary key: it tells the rows apart. *)
Lemma id_determines_row (ds : list FaceDescriptor.t) :
  NoDup (map FaceDescriptor.id ds) ->
  forall a b, In a ds -> In b ds ->
              FaceDescriptor.id a = FaceDescriptor.id b -> a = b.
Proof.
  induction ds as [|d ds IH]; intros Hnd a b Ha Hb Hid; [contradiction|].
  cbn in Hnd. inversion Hnd as [|? ? Hnotin Hnd']; subst.
  destruct Ha as [->|Ha], Hb as [->|Hb].
  - reflexivity.
  - exfalso. apply Hnotin. rewrite Hid. now apply in_map.
  - exfalso. apply Hnotin. rewrite <- Hid. now apply in_map.
  - now apply IH.
Qed.

(** C4: the results are those of the matching descriptors, ranked so that
    a descriptor stands before every descriptor of lower score, and
    before every descriptor that [==] holds of equal score and that has a
    higher identifier: the query lists the table by ascending identifier
    (the rowid scan of SQLite), and the sort is stable.  The identifier
    being the primary key of the table, this ranking is the only
    arrangement of the matching descriptors with that property, so the
    results are determined by the probe and the store.  (When the engine
    refuses the query or the loop stops at a row, there are no
    results.) *)
Theorem identify_ties_by_ascending_id (w : world) (img : string)
  (first_face : face) (others : list face) (db : database) :
  probe_detects w img (first_face :: others) ->
  exists ranked : list FaceDescriptor.t,
    (db_answers w ->
     scannable db (embedding first_face) ->
     identify_client w (posted img) db =
     found (firstn 20 (map (match_of db (embedding first_face)) ranked))
           None) /\
    (refuses w Select = true \/ unscannable db (embedding first_face) ->
     results_of (identify_client w (posted img) db) = []) /\
    Permutation ranked
      (filter (exceedsb (embedding first_face)) (face_descriptors db)) /\
    StronglySorted (ranked_before (embedding first_face)) ranked /\
    (NoDup (map FaceDescriptor.id (face_descriptors db)) ->
     forall other,
       Permutation other ranked ->
       StronglySorted (ranked_before (embedding first_face)) other ->
       other = ranked).
Proof.
  intros Hprobe.
  destruct (identify_outcome db Hprobe) as [Hgood Hbad].
  set (target := embedding first_face) in *.
  exists (sort_reverse (score target) (hits db target)).
  assert (Hperm : Permutation (sort_reverse (score target) (hits db target))
                    (filter (exceedsb target) (face_descriptors db))).
  { rewrite sort_reverse_perm. apply hits_perm. }
  assert (Hsorted : StronglySorted (ranked_before target)
                      (sort_reverse (score target) (hits db target))).
  { apply sort_reverse_ranked; [apply hits_numbers|apply hits_by_id]. }
  split; [|split; [|split; [exact Hperm|split; [exact Hsorted|]]]].
  - intros Hdb Hscan. destruct (Hgood Hdb Hscan) as [_ ->].
    now rewrite ranked_candidates.
  - intros Hfail. destruct (Hbad Hfail) as [e ->]. reflexivity.
  - intros Hkey other Hother Hs.
    apply sorted_perm_unique with (R := ranked_before target);
      [|exact Hs|exact Hsorted|exact Hother].
    intros a b Ha Hb [Hab Hida] [Hba Hidb].
    assert (Hrow : forall d, In d other -> In d (face_descriptors db)).
    { intros d Hd. apply (Permutation_in _ Hother) in Hd.
      apply (Permutation_in _ Hperm) in Hd.
      now apply filter_In in Hd. }
    pose proof (leb_antisym Hba Hab) as Heq.
    apply (@id_determines_row (face_descriptors db) Hkey a b);
      [now apply Hrow|now apply Hrow|].
    apply Hida in Heq as Hle1.
    rewrite eqb_sym in Heq. apply Hidb in Heq. lia.
Qed.

(** C4 on a table that holds two descriptors of the same embedding, the
    higher identifier first. *)
Lemma identify_ties_by_ascending_id_witness :
  exists ranked : list FaceDescriptor.t,
    (db_answers (kiosk (seen [1%float])) ->
     scannable listed_2_1 [1%float] ->
     identify_client (kiosk (seen [1%float])) (posted snapshot) listed_2_1 =
     found (firstn 20 (map (match_of listed_2_1 [1%float]) ranked)) None) /\
    (refuses (kiosk (seen [1%float])) Select = true \/
     unscannable listed_2_1 [1%float] ->
     results_of
       (identify_client (kiosk (seen [1%float])) (posted snapshot)
          listed_2_1) = []) /\
    Permutation ranked
      (filter (exceedsb [1%float]) (face_descriptors listed_2_1)) /\
    StronglySorted (ranked_before [1%float]) ranked /\
    (NoDup (map FaceDescriptor.id (face_descriptors listed_2_1)) ->
     forall other,
       Permutation other ranked ->
       StronglySorted (ranked_before [1%float]) other ->
       other = ranked).
Proof.
  apply (@identify_ties_by_ascending_id (kiosk (seen [1%float])) snapshot
           (probe_face [1%float]) [] listed_2_1).
  apply kiosk_detects.
Defined.

(** Two descriptors of the same score, computed: the result of the
    descriptor 1 (photo 10) comes before the result of the descriptor 2
    (photo 20), whichever of the two rows was stored first. *)
Example identify_two_equal_scores :
  map FaceDescriptor.id (face_descriptors listed_2_1) = [2; 1] /\
  identify_client (kiosk (seen [1%float])) (posted snapshot) listed_2_1
  = found [ {| photo_id := 10; similarity := 1%float;
               path := "2024-01-01/Juan/a.jpg"; date := 100 |};
            {| photo_id := 20; similarity := 1%float;
               path := "2024-01-01/Juan/b.jpg"; date := 200 |} ] None /\
  identify_client (kiosk (seen [1%float])) (posted snapshot) listed_1_2
  = identify_client (kiosk (seen [1%float])) (posted snapshot) listed_2_1.
Proof. repeat split. Qed.

Lemma appearances_candidates (db : database) (target : list float) (p : Z)
  (ds : list FaceDescriptor.t) :
  appearances p (map (match_of db target) ds) =
  List.length (filter (fun d => FaceDescriptor.photo_id d =? p) ds).
Proof.
  unfold appearances.
  induction ds as [|d ds IH]; [reflexivity|]. cbn.
  destruct (Z.eq_dec (FaceDescriptor.photo_id d) p) as [E|N].
  - rewrite (proj2 (Z.eqb_eq _ _) E). cbn. now rewrite IH.
  - rewrite (proj2 (Z.eqb_neq _ _) N). exact IH.
Qed.

(** C10, as the code has it: on a probe with a face, when the engine
    answers the query and the loop gets through every row of the table,
    the loop of [identify_client] collects a list [matches] and the sort
    turns it into the list [ranked] that the answer cuts to its first 20
    entries; [ranked] holds one result for each stored descriptor above
    the threshold, with the photo reference of that descriptor: a photo
    appears in it as many times as it has matching descriptors, every
    matching descriptor has its result in it, and every result in it is
    the result of a matching descriptor.  When the engine refuses the
    query or the loop stops at a row, the answer is the error and no
    photo appears in it. *)
Theorem identify_per_descriptor (w : world) (img : string)
  (first_face : face) (others : list face) (db : database) :
  probe_detects w img (first_face :: others) ->
  (db_answers w ->
   scannable db (embedding first_face) ->
   exists matches ranked,
     scan (embedding first_face) (rowid_scan (face_descriptors db)) []
          (refuses w) (begin db) = (Ret matches, begin db) /\
     ranked = sort_reverse similarity matches /\
     identify_client w (posted img) db = found (firstn 20 ranked) None /\
     (forall p,
         appearances p ranked =
         List.length (matching_faces db (embedding first_face) p)) /\
     (forall d,
         In d (face_descriptors db) ->
         exceedsb (embedding first_face) d = true ->
         exists m, In m ranked /\ m = match_of db (embedding first_face) d /\
                   photo_id m = FaceDescriptor.photo_id d) /\
     (forall m,
         In m ranked ->
         exists d, In d (face_descriptors db) /\
                   exceedsb (embedding first_face) d = true /\
                   m = match_of db (embedding first_face) d)) /\
  (refuses w Select = true \/ unscannable db (embedding first_face) ->
   exists e,
     identify_client w (posted img) db = failed e /\
     forall p,
       appearances p (results_of (identify_client w (posted img) db))
       = 0%nat).
Proof.
  intros Hprobe.
  destruct (identify_outcome db Hprobe) as [Hgood Hbad].
  set (target := embedding first_face) in *.
  split.
  - intros Hdb Hscan. destruct (Hgood Hdb Hscan) as [Hrun Hresp].
    exists (candidates db target),
           (sort_reverse similarity (candidates db target)).
    pose proof (sort_reverse_perm similarity (candidates db target)) as Hperm.
    assert (Hall : Permutation (candidates db target)
                     (map (match_of db target)
                          (filter (exceedsb target) (face_descriptors db))))
      by apply Permutation_map, hits_perm.
    assert (Hboth := Permutation_trans Hperm Hall).
    split; [exact Hrun|]. split; [reflexivity|]. split; [exact Hresp|].
    split; [|split].
    + intros p. unfold appearances at 1, matching_faces.
      pose proof (Permutation_map photo_id Hboth) as Hmap.
      rewrite (proj1 (Permutation_count_occ Z.eq_dec _ _) Hmap p).
      apply appearances_candidates.
    + intros d Hd He. exists (match_of db target d).
      split; [|split; reflexivity].
      apply (Permutation_in _ (Permutation_sym Hboth)).
      apply in_map, filter_In. now split.
    + intros m Hm. apply (Permutation_in _ Hboth) in Hm.
      apply in_map_iff in Hm as (d & <- & Hd).
      apply filter_In in Hd as [Hd He]. now exists d.
  - intros Hfail. destruct (Hbad Hfail) as [e ->].
    exists e. now split.
Qed.

(** C10 on a photo with two stored faces that both match the probe. *)
Lemma identify_per_descriptor_witness :
  exists matches ranked,
    scan [1%float] (rowid_scan (face_descriptors twin_faces)) []
         (refuses (kiosk (seen [1%float]))) (begin twin_faces)
    = (Ret matches, begin twin_faces) /\
    ranked = sort_reverse similarity matches /\
    identify_client (kiosk (seen [1%float])) (posted snapshot) twin_faces
    = found (firstn 20 ranked) None /\
    (forall p,
        appearances p ranked =
        List.length (matching_faces twin_faces [1%float] p)) /\
    (forall d,
        In d (face_descriptors twin_faces) ->
        exceedsb [1%float] d = true ->
        exists m, In m ranked /\ m = match_of twin_faces [1%float] d /\
                  photo_id m = FaceDescriptor.photo_id d) /\
    (forall m,
        In m ranked ->
        exists d, In d (face_descriptors twin_faces) /\
                  exceedsb [1%float] d = true /\
                  m = match_of twin_faces [1%float] d).
Proof.
  apply (proj1 (@identify_per_descriptor (kiosk (seen [1%float])) snapshot
                  (probe_face [1%float]) [] twin_faces
                  (kiosk_detects [1%float]))).
  - reflexivity.
  - apply store_scannable. rows_consistent.
Defined.

(** The photo 10 with two matching faces is returned twice. *)
Example identify_same_photo_twice :
  map photo_id
    (results_of
       (identify_client (kiosk (seen [1%float])) (posted snapshot) twin_faces))
  = [10; 10].
Proof. reflexivity. Qed.

(** C10 as the specification states it fails: the photo 10 has two stored
    faces that match the probe, and next to a stored face of another
    dimension neither contributes a result: the answer is the error of
    [np.dot], and the photo appears in it no time. *)
Lemma identify_matching_faces_lost :
  List.length (matching_faces twins_and_stray [1%float] 10) = 2%nat /\
  identify_client (kiosk (seen [1%float])) (posted snapshot) twins_and_stray
  = {| status := 500; payload := Error (Str ValueError) |} /\
  appearances 10
    (results_of
       (identify_client (kiosk (seen [1%float])) (posted snapshot)
          twins_and_stray)) = 0%nat.
Proof. repeat split. Qed.

(** On a table where nothing matches, the loop gets through exactly when
    every stored embedding has the dimension of the probe embedding. *)
Lemma nothing_matches_scannable (db : database) (target : list float) :
  filter (exceedsb target) (face_descriptors db) = [] ->
  (Forall (comparable target) (face_descriptors db) -> scannable db target) /\
  (Exists (fun d => ~ comparable target d) (face_descriptors db) ->
   unscannable db target).
Proof.
  intros Hnone. split.
  - unfold scannable. rewrite !Forall_forall. intros Hall d Hd.
    split; [now apply Hall|]. intros Hex. exfalso.
    assert (Hin : In d (filter (exceedsb target) (face_descriptors db)))
      by (apply filter_In; now split).
    now rewrite Hnone in Hin.
  - unfold unscannable. apply Exists_impl. intros d Hd. now left.
Qed.

(** C5, as the code has it: when the probe yields no face,
    [identify_client] answers with status 200, no results and the message
    of [no_face_message]; when it yields a face and no stored descriptor
    has a similarity above the threshold, it answers with status 200, no
    results and no message if the engine answers the query and every
    stored embedding has the dimension of the probe embedding, and with
    the error if the engine refuses the query or a stored embedding has
    another dimension; the two empty answers differ. *)
Theorem identify_empty_outcomes (w : world) (img : string) (db : database) :
  (probe_detects w img [] ->
   identify_client w (posted img) db = found [] (Some no_face_message)) /\
  (forall first_face others,
      probe_detects w img (first_face :: others) ->
      filter (exceedsb (embedding first_face)) (face_descriptors db) = [] ->
      (db_answers w ->
       Forall (comparable (embedding first_face)) (face_descriptors db) ->
       identify_client w (posted img) db = found [] None) /\
      (refuses w Select = true \/
       Exists (fun d => ~ comparable (embedding first_face) d)
              (face_descriptors db) ->
       exists e, identify_client w (posted img) db = failed e)) /\
  status (found [] (Some no_face_message)) = 200 /\
  status (found [] None) = 200 /\
  found [] (Some no_face_message) <> found [] None.
Proof.
  split; [|split; [|split; [|split]]]; try reflexivity.
  - intros (data & Hread & Hfaces).
    now rewrite (identify_after_extraction db Hread Hfaces).
  - intros first_face others Hprobe Hnone.
    destruct (identify_outcome db Hprobe) as [Hgood Hbad].
    destruct (nothing_matches_scannable db _ Hnone) as [Hscan Hstop].
    split.
    + intros Hdb Hall. destruct (Hgood Hdb (Hscan Hall)) as [_ ->].
      unfold candidates, hits.
      assert (Hempty : filter (exceedsb (embedding first_face))
                         (rowid_scan (face_descriptors db)) = []).
      { apply Permutation_nil. rewrite <- Hnone. symmetry. apply hits_perm. }
      now rewrite Hempty.
    + intros [Hdb|Hex]; apply Hbad; [now left|right; now apply Hstop].
  - discriminate.
Qed.

Lemma kiosk_detects_nothing :
  probe_detects (kiosk (Ret [])) snapshot [].
Proof. exists "AAAA". split; [apply kiosk_readable|reflexivity]. Qed.

(** C5 on a snapshot without a face, and on a snapshot with a face whose
    embedding is opposite to the one stored. *)
Lemma identify_empty_outcomes_witness :
  identify_client (kiosk (Ret [])) (posted snapshot) opposite_face
  = found [] (Some no_face_message) /\
  identify_client (kiosk (seen [1%float])) (posted snapshot) opposite_face
  = found [] None.
Proof.
  split.
  - apply (proj1 (identify_empty_outcomes (kiosk (Ret [])) snapshot
                    opposite_face)).
    apply kiosk_detects_nothing.
  - apply (proj1 (proj1 (proj2 (identify_empty_outcomes
                                  (kiosk (seen [1%float])) snapshot
                                  opposite_face))
                    (probe_face [1%float]) [] (kiosk_detects [1%float])
                    eq_refl)).
    + reflexivity.
    + repeat constructor.
Defined.

(** C5 as the specification states it fails: a face is detected, the one
    stored descriptor has another dimension than the probe and no
    similarity above the threshold, and the answer is not the empty
    success but the error of [np.dot], with status 500. *)
Lemma identify_no_match_yet_error :
  probe_detects (kiosk (seen [1%float])) snapshot [probe_face [1%float]] /\
  filter (exceedsb [1%float]) (face_descriptors other_dimension) = [] /\
  identify_client (kiosk (seen [1%float])) (posted snapshot) other_dimension
  = {| status := 500; payload := Error (Str ValueError) |} /\
  identify_client (kiosk (seen [1%float])) (posted snapshot) other_dimension
  <> found [] None.
Proof.
  split; [apply kiosk_detects|]. split; [reflexivity|].
  split; [reflexivity|]. discriminate.
Qed.

(** C3, as the code has it: when the image of the request is readable and
    the model call on it raises, [identify_client] answers as it does when
    no face is found: status 200, no results, and the message of
    [no_face_message]. *)
Theorem identify_extractor_down (w : world) (img data : string) (e : exn)
  (db : database) :
  probe_readable w img data ->
  represent w data = Raise e ->
  identify_client w (posted img) db = found [] (Some no_face_message) /\
  forall w', probe_detects w' img [] ->
             identify_client w (posted img) db = identify_client w' (posted img) db.
Proof.
  intros Hread Hraise.
  assert (H : identify_client w (posted img) db
              = found [] (Some no_face_message)).
  { rewrite (@identify_after_extraction w img data [] db Hread);
      [reflexivity|].
    rewrite Hraise. reflexivity. }
  split; [exact H|].
  intros w' (data' & Hread' & Hfaces').
  now rewrite H, (identify_after_extraction db Hread' Hfaces').
Qed.

(** C3 on a kiosk whose model call raises. *)
Lemma identify_extractor_down_witness :
  identify_client (kiosk (Raise ModelError)) (posted snapshot) (store [])
  = found [] (Some no_face_message) /\
  forall w', probe_detects w' snapshot [] ->
             identify_client (kiosk (Raise ModelError)) (posted snapshot)
               (store [])
             = identify_client w' (posted snapshot) (store []).
Proof.
  apply (@identify_extractor_down (kiosk (Raise ModelError)) snapshot
           "AAAA" ModelError (store [])).
  - apply kiosk_readable.
  - reflexivity.
Defined.

(** C3 as the specification states it fails: the model call raises, and
    the answer is no error but the success of a probe without a face:
    status 200, an empty result list, and the message that no face was
    detected. *)
Lemma identify_hides_extractor_failure :
  represent (kiosk (Raise ModelError)) "AAAA" = Raise ModelError /\
  identify_client (kiosk (Raise ModelError)) (posted snapshot) (store [])
  = {| status := 200;
       payload := Results [] (Some "No se detectó ningún rostro") |}.
Proof. split; reflexivity. Qed.

End IdentifyFacts.

(** ** close_day_api *)

Module ClosingFacts.

Import AIEngine Models App Spec Examples.

(** The handler for an administrator, step by step. *)
Lemma close_day_admin (w : world) (u : user) (notes : string)
  (db : database) :
  role u = "admin" ->
  close_day_api w (Some u) notes db =
  if refuses w Select then (failed OperationalError, db)
  else
    match tally_sales (sales_to_close db) empty_tally with
    | Raise e => (failed e, db)
    | Ret t =>
        if refuses w InsertReport then (failed OperationalError, db)
        else if refuses w DeleteDescriptors then (failed OperationalError, db)
        else if refuses w Commit then (failed OperationalError, db)
        else (closed_ok (EODReport.id (closing_record w u notes db t)),
              closed db (closing_record w u notes db t))
    end.
Proof.
  intros Hrole.
  unfold close_day_api, login_required. rewrite Hrole.
  replace (negb (Nat.eqb (List.length ["admin"]) 0)
           && negb (existsb (String.eqb "admin") ["admin"]))%bool
    with false by reflexivity.
  cbv beta iota zeta delta
    [teardown close_day_body mtry mbind query_all execute lift add_report
     delete_all_descriptors commit ret begin working committed failed
     closed_ok closed closing_record sales_to_close empty_tally].
  destruct (refuses w Select); [reflexivity|].
  destruct (tally_sales _ _) as [t|e]; [|reflexivity].
  destruct (refuses w InsertReport); [reflexivity|].
  destruct (refuses w DeleteDescriptors); [reflexivity|].
  destruct (refuses w Commit); reflexivity.
Qed.

Lemma close_day_anonymous (w : world) (notes : string) (db : database) :
  close_day_api w None notes db =
  ({| status := 302; payload := RedirectTo "login" |}, db).
Proof. reflexivity. Qed.

Lemma close_day_not_admin (w : world) (u : user) (notes : string)
  (db : database) :
  role u <> "admin" ->
  close_day_api w (Some u) notes db =
  ({| status := 403; payload := Text "Acceso denegado (Rol insuficiente)" |},
   db).
Proof.
  intros Hrole. unfold close_day_api, login_required.
  apply String.eqb_neq in Hrole. cbn [existsb List.length Nat.eqb negb].
  now rewrite Hrole.
Qed.

(** A successful closing leaves the database closed. *)
Lemma close_day_success (w : world) (su : option user) (notes : string)
  (db db' : database) (id : Z) :
  close_day_api w su notes db = (closed_ok id, db') ->
  exists r, EODReport.id r = id /\ db' = closed db r.
Proof.
  destruct su as [u|]; [|rewrite close_day_anonymous; discriminate].
  destruct (string_dec (role u) "admin") as [Hrole|Hrole];
    [|rewrite (@close_day_not_admin w u notes db Hrole); discriminate].
  rewrite (@close_day_admin w u notes db Hrole).
  destruct (refuses w Select); [discriminate|].
  destruct (tally_sales _ _) as [t|e]; [|discriminate].
  destruct (refuses w InsertReport); [discriminate|].
  destruct (refuses w DeleteDescriptors); [discriminate|].
  destruct (refuses w Commit); [discriminate|].
  intros [= <- <-]. now eexists.
Qed.

(** C1: a closing either records the closing and deletes every descriptor
    (the response is the success, the closing record is in the table of
    reports, the table of descriptors is empty), or it changes nothing
    and its response is no success; for an administrator, when a step
    fails (a refused query, a refused insertion of the record, a refused
    deletion of the descriptors, a refused commit, a tally that raises)
    the response is the error and the database is the one before the
    call, and when no step fails the closing succeeds. *)
Theorem close_day_atomic (w : world) (su : option user) (notes : string)
  (db : database) :
  ((exists r,
       close_day_api w su notes db = (closed_ok (EODReport.id r), closed db r) /\
       In r (eod_reports (closed db r)) /\
       face_descriptors (closed db r) = []) \/
   (snd (close_day_api w su notes db) = db /\
    status (fst (close_day_api w su notes db)) <> 200)) /\
  (forall u,
      su = Some u -> role u = "admin" -> step_fails w db ->
      exists e, close_day_api w su notes db = (failed e, db)) /\
  (forall u,
      su = Some u -> role u = "admin" -> ~ step_fails w db ->
      exists t,
        tally_sales (sales_to_close db) empty_tally = Ret t /\
        close_day_api w su notes db =
        (closed_ok (EODReport.id (closing_record w u notes db t)),
         closed db (closing_record w u notes db t))).
Proof.
  split; [|split].
  - destruct su as [u|];
      [|right; rewrite close_day_anonymous; split; [reflexivity|discriminate]].
    destruct (string_dec (role u) "admin") as [Hrole|Hrole];
      [|right; rewrite (@close_day_not_admin w u notes db Hrole);
        split; [reflexivity|discriminate]].
    rewrite (@close_day_admin w u notes db Hrole).
    destruct (refuses w Select);
      [right; split; [reflexivity|discriminate]|].
    destruct (tally_sales _ _) as [t|e];
      [|right; split; [reflexivity|discriminate]].
    destruct (refuses w InsertReport);
      [right; split; [reflexivity|discriminate]|].
    destruct (refuses w DeleteDescriptors);
      [right; split; [reflexivity|discriminate]|].
    destruct (refuses w Commit);
      [right; split; [reflexivity|discriminate]|].
    left. eexists. split; [reflexivity|]. split; [|reflexivity].
    cbn. apply in_or_app. right. now left.
  - intros u -> Hrole Hfail. rewrite (@close_day_admin w u notes db Hrole).
    destruct (refuses w Select) eqn:Hsel; [eexists; reflexivity|].
    destruct (tally_sales _ _) as [t|e] eqn:Htally; [|eexists; reflexivity].
    destruct (refuses w InsertReport) eqn:Hins; [eexists; reflexivity|].
    destruct (refuses w DeleteDescriptors) eqn:Hdel; [eexists; reflexivity|].
    destruct (refuses w Commit) eqn:Hcom; [eexists; reflexivity|].
    exfalso.
    destruct Hfail as [H|[H|[H|[H|[e H]]]]]; congruence.
  - intros u -> Hrole Hfine. rewrite (@close_day_admin w u notes db Hrole).
    unfold step_fails in Hfine.
    destruct (refuses w Select); [exfalso; auto|].
    destruct (tally_sales _ _) as [t|e];
      [|exfalso; apply Hfine; do 4 right; now exists e].
    destruct (refuses w InsertReport); [exfalso; auto|].
    destruct (refuses w DeleteDescriptors); [exfalso; auto|].
    destruct (refuses w Commit); [exfalso; auto 6|].
    now exists t.
Qed.

(** C1 on a store of ten descriptors: a closing where every step works,
    and a closing where the engine refuses the deletion. *)
Lemma close_day_atomic_witness :
  (exists t,
      tally_sales (sales_to_close (store ten_descriptors)) empty_tally = Ret t /\
      close_day_api (kiosk (Ret [])) (Some admin) "cierre"
        (store ten_descriptors) =
      (closed_ok (EODReport.id
                    (closing_record (kiosk (Ret [])) admin "cierre"
                       (store ten_descriptors) t)),
       closed (store ten_descriptors)
         (closing_record (kiosk (Ret [])) admin "cierre"
            (store ten_descriptors) t))) /\
  (exists e,
      close_day_api (kiosk_refusing refuse_delete) (Some admin) "cierre"
        (store ten_descriptors) =
      (failed e, store ten_descriptors)).
Proof.
  split.
  - apply (proj2 (proj2 (close_day_atomic (kiosk (Ret [])) (Some admin)
                           "cierre" (store ten_descriptors))) admin);
      [reflexivity|reflexivity|].
    intros [H|[H|[H|[H|[e H]]]]]; discriminate.
  - apply (proj1 (proj2 (close_day_atomic (kiosk_refusing refuse_delete)
                           (Some admin) "cierre" (store ten_descriptors)))
             admin); [reflexivity|reflexivity|].
    right; right; left; reflexivity.
Defined.

(** Scenario D, computed: after the closing the table of descriptors has
    no row and the closing record is the one report; when the deletion is
    refused, and when the tally raises on an item without a price, the
    response is the error and the ten descriptors and the empty table of
    reports are as before. *)
Example close_day_scenario_D :
  close_day_api (kiosk (Ret [])) (Some admin) "cierre" (store ten_descriptors)
  = ({| status := 200; payload := StatusOk 1 |},
     {| photos := [photo10; photo20];
        face_descriptors := [];
        sales := [];
        eod_reports :=
          [{| EODReport.id := 1; EODReport.timestamp := 1000;
              EODReport.total_revenue := 0%R;
              EODReport.digital_count := 0; EODReport.print_count := 0;
              EODReport.photographer_splits_json := [];
              EODReport.closing_user := "ana";
              EODReport.notes := "cierre" |}] |}) /\
  close_day_api (kiosk_refusing refuse_delete) (Some admin) "cierre"
    (store ten_descriptors)
  = ({| status := 500; payload := Error (Str OperationalError) |},
     store ten_descriptors) /\
  close_day_api (kiosk (Ret [])) (Some admin) "cierre" store_with_unpriced_sale
  = ({| status := 500; payload := Error (Str TypeError) |},
     store_with_unpriced_sale).
Proof. repeat split; reflexivity. Qed.

(** A closing on the second day, computed: the sales after the earlier
    closing are summed up, an item counts as a print when its type has
    "print" in it whatever the case, a missing photographer is "Manual",
    the record gets the next identifier, and the descriptors are gone. *)
Example close_day_second_day :
  close_day_api (kiosk (Ret [])) (Some admin) "cierre" second_day
  = ({| status := 200; payload := StatusOk 2 |},
     {| photos := photos second_day;
        face_descriptors := [];
        sales := sales second_day;
        eod_reports :=
          [earlier_closing;
           {| EODReport.id := 2; EODReport.timestamp := 1000;
              EODReport.total_revenue := (0 + 35 + 15)%R;
              EODReport.digital_count := 2; EODReport.print_count := 1;
              EODReport.photographer_splits_json :=
                [("Manual", (0 + 20)%R); ("Juan", (0 + 15 + 15)%R)];
              EODReport.closing_user := "ana";
              EODReport.notes := "cierre" |}] |}).
Proof. reflexivity. Qed.

(** *** After the purge *)

Lemma with_descriptors_same (db : database) :
  with_descriptors db (face_descriptors db ++ []) = db.
Proof. destruct db. unfold with_descriptors. cbn. now rewrite app_nil_r. Qed.

(** The insertions of the background task add rows of its photo to the
    table the transaction sees, and touch nothing that is committed. *)
Lemma add_faces_appends (refuses : statement -> bool) (pid : Z)
  (faces : list face) :
  forall s r s',
    add_faces pid faces refuses s = (r, s') ->
    committed s' = committed s /\
    exists news,
      working s' =
      with_descriptors (working s) (face_descriptors (working s) ++ news) /\
      Forall (fun d => FaceDescriptor.photo_id d = pid) news.
Proof.
  induction faces as [|f faces IH]; intros s r s'; cbn.
  - unfold ret. intros [= <- <-]. split; [reflexivity|].
    exists []. now rewrite with_descriptors_same.
  - unfold mbind at 1, add_descriptor, mbind at 1, execute.
    destruct (refuses InsertDescriptor).
    + intros [= <- <-]. split; [reflexivity|].
      exists []. now rewrite with_descriptors_same.
    + intros Hrest. apply IH in Hrest as (Hc & news & Hw & Hall).
      cbn in Hc, Hw. split; [exact Hc|].
      eexists (_ :: news). split.
      * rewrite Hw. unfold with_descriptors. cbn.
        now rewrite <- app_assoc.
      * constructor; [reflexivity|exact Hall].
Qed.

Lemma process_photo_ai_appends (w : world) (pid : Z) (file : string)
  (db : database) :
  exists news,
    process_photo_ai w pid file db =
    with_descriptors db (face_descriptors db ++ news) /\
    Forall (fun d => FaceDescriptor.photo_id d = pid) news.
Proof.
  unfold process_photo_ai, teardown, process_photo_body, mtry.
  unfold mbind at 1, lift.
  destruct (extract_faces (represent w file)) as [faces|e];
    [|exists []; now rewrite with_descriptors_same].
  unfold mbind at 1.
  destruct (add_faces pid faces (refuses w) (begin db)) as [[[]|e] s'] eqn:Ha;
    apply add_faces_appends in Ha as (Hc & news & Hw & Hall);
    cbn in Hc, Hw.
  - unfold commit, mbind, execute.
    destruct (refuses w Commit); cbn.
    + exists []. now rewrite Hc, with_descriptors_same.
    + exists news. now rewrite Hw.
  - cbn. exists []. now rewrite Hc, with_descriptors_same.
Qed.

Lemma ingest_appends (ups : list upload) :
  forall db,
    exists news,
      ingest ups db = with_descriptors db (face_descriptors db ++ news) /\
      Forall (fun d => In (FaceDescriptor.photo_id d) (map upload_photo ups))
             news.
Proof.
  unfold ingest.
  induction ups as [|up ups IH]; intros db; cbn [fold_left map].
  - exists []. now rewrite with_descriptors_same.
  - destruct (process_photo_ai_appends (upload_world up) (upload_photo up)
                (upload_file up) db) as (n1 & -> & H1).
    destruct (IH (with_descriptors db (face_descriptors db ++ n1)))
      as (n2 & -> & H2).
    exists (n1 ++ n2). split.
    + unfold with_descriptors. cbn. now rewrite <- app_assoc.
    + apply Forall_app. split.
      * eapply Forall_impl; [|exact H1]. intros d ->. now left.
      * eapply Forall_impl; [|exact H2]. intros d Hd. now right.
Qed.

(** C6: after a closing that succeeded, a descriptor [d] that was in the
    store is in it no more; no request to identify returns a result,
    whatever the probe; and after the photos uploaded later have been
    processed, every result refers to one of those photos. *)
Theorem purged_descriptor_never_matches (w : world) (su : option user)
  (notes : string) (db db' : database) (id : Z) (d : FaceDescriptor.t) :
  In d (face_descriptors db) ->
  close_day_api w su notes db = (closed_ok id, db') ->
  ~ In d (face_descriptors db') /\
  face_descriptors db' = [] /\
  (forall w' request_json,
      results_of (identify_client w' request_json db') = []) /\
  (forall later w' request_json m,
      In m (results_of (identify_client w' request_json (ingest later db'))) ->
      In (photo_id m) (map upload_photo later)).
Proof.
  intros _ Hclose.
  apply close_day_success in Hclose as (r & _ & ->).
  split; [intros []|]. split; [reflexivity|]. split.
  - intros w' request_json.
    destruct (results_of (identify_client w' request_json (closed db r)))
      as [|m ms] eqn:Hres; [reflexivity|].
    assert (Hm : In m (results_of (identify_client w' request_json
                                     (closed db r))))
      by (rewrite Hres; now left).
    apply IdentifyFacts.identify_results_from_table in Hm as (d' & [] & _).
  - intros later w' request_json m Hm.
    apply IdentifyFacts.identify_results_from_table in Hm
      as (d' & Hd' & -> & _).
    destruct (ingest_appends later (closed db r)) as (news & Heq & Hall).
    rewrite Heq in Hd'. cbn in Hd'.
    rewrite Forall_forall in Hall. now apply Hall.
Qed.

(** C6 on the descriptor of an uploaded photo and the closing that
    follows the upload. *)
Lemma purged_descriptor_never_matches_witness :
  ~ In (descriptor 1 10 [1%float]) (face_descriptors after_closing) /\
  face_descriptors after_closing = [] /\
  (forall w' request_json,
      results_of (identify_client w' request_json after_closing) = []) /\
  (forall later w' request_json m,
      In m (results_of
              (identify_client w' request_json
                 (ingest later after_closing))) ->
      In (photo_id m) (map upload_photo later)).
Proof.
  apply (@purged_descriptor_never_matches (kiosk (Ret [])) (Some admin)
           "cierre" uploaded after_closing 1 (descriptor 1 10 [1%float])).
  - left. reflexivity.
  - reflexivity.
Defined.

(** The round trip, computed: before the closing, the probe with the
    embedding of the stored face gets the photo 10 at similarity 1; after
    the closing, the same probe gets no result and no message. *)
Example identify_before_and_after_closing :
  identify_client (kiosk (seen [1%float])) (posted snapshot) uploaded
  = found [ {| photo_id := 10; similarity := 1%float;
               path := "2024-01-01/Juan/a.jpg"; date := 100 |} ] None /\
  identify_client (kiosk (seen [1%float])) (posted snapshot) after_closing
  = found [] None.
Proof. split; reflexivity. Qed.

End ClosingFacts.

(** * Further properties *)

(** ** ai_engine.py *)

Module MoreExtractorFacts.

Import AIEngine Spec More MoreExamples.

Lemma extract_one_kept (res : represent_item) (f : face) (acc : list face) :
  has_width res = true -> face_of res = Some f ->
  extract_one res acc = Ret (acc ++ [f]).
Proof.
  unfold has_width, face_of, extract_one. intros Hw Hf. rewrite Hw.
  destruct (item_embedding res), (item_facial_area res);
    try discriminate. now injection Hf as <-.
Qed.

Lemma extract_one_skipped (res : represent_item) (acc : list face) :
  has_width res = false -> extract_one res acc = Ret acc.
Proof. unfold has_width, extract_one. now intros ->. Qed.

(** The faces of the items that pass the guard, in their order. *)
Lemma extract_loop_filter (results : list represent_item) :
  forall acc faces,
    map face_of (filter has_width results) = map Some faces ->
    extract_loop results acc = Ret (acc ++ faces).
Proof.
  induction results as [|res rest IH]; intros acc faces; cbn [filter map].
  - destruct faces; [|discriminate]. intros _. cbn. now rewrite app_nil_r.
  - cbn [extract_loop]. destruct (has_width res) eqn:Hw.
    + destruct faces as [|f faces]; [discriminate|].
      cbn [map]. intros [= Hf Hrest].
      rewrite (@extract_one_kept res f acc Hw Hf). cbn [bind].
      rewrite (IH _ _ Hrest). now rewrite <- app_assoc.
    + intros Hrest. rewrite (@extract_one_skipped res acc Hw). cbn [bind].
      now apply IH.
Qed.

(** [extract_faces] keeps exactly the items whose region has a positive
    width, in the order of the model, each with its embedding and its box
    as the model gave them. *)
Theorem extract_faces_keeps_wide_items (results : list represent_item)
  (faces : list face) :
  map face_of (filter has_width results) = map Some faces ->
  extract_faces (Ret results) = Ret faces.
Proof.
  intros H. unfold extract_faces. cbn [bind].
  now rewrite (@extract_loop_filter results [] faces H).
Qed.

Lemma extract_faces_keeps_wide_items_witness :
  extract_faces
    (Ret [wide_item [1; 2]%float; narrow_item [3; 4]%float; wide_item [5; 6]%float])
  = Ret [ {| embedding := [1; 2]%float;
             box := [("x", 1); ("y", 2); ("w", 8); ("h", 9)] |};
          {| embedding := [5; 6]%float;
             box := [("x", 1); ("y", 2); ("w", 8); ("h", 9)] |} ].
Proof.
  apply extract_faces_keeps_wide_items. reflexivity.
Defined.

Lemma extract_loop_bare (results : list represent_item) :
  Exists lacks_embedding results ->
  forall acc, exists e, extract_loop results acc = Raise e.
Proof.
  induction 1 as [res rest [Hw He]|res rest _ IH]; intros acc; cbn.
  - exists KeyError. unfold extract_one. unfold has_width in Hw.
    rewrite Hw, He. reflexivity.
  - destruct (extract_one res acc) as [acc'|e]; cbn; [apply IH|now exists e].
Qed.

(** One item that passes the guard and has no [embedding] key loses the
    whole extraction: [extract_faces] returns the empty list, also when
    other items of the same image are complete. *)
Theorem extract_faces_missing_embedding (results : list represent_item) :
  Exists lacks_embedding results ->
  extract_faces (Ret results) = Ret [].
Proof.
  intros H. unfold extract_faces. cbn [bind].
  destruct (extract_loop_bare H []) as [e ->]. reflexivity.
Qed.

Lemma extract_faces_missing_embedding_witness :
  extract_faces (Ret [wide_item [1; 2]%float; bare_item; wide_item [5; 6]%float])
  = Ret [].
Proof.
  apply extract_faces_missing_embedding.
  right. left. split; reflexivity.
Defined.

End MoreExtractorFacts.

Module MoreSimilarityFacts.

Import AIEngine Spec More FloatFacts.

Lemma dot_from_comm (v1 : list float) :
  forall v2 acc,
    fold_left (fun acc xy => (acc + fst xy * snd xy)%float)
              (combine v1 v2) acc =
    fold_left (fun acc xy => (acc + fst xy * snd xy)%float)
              (combine v2 v1) acc.
Proof.
  induction v1 as [|x v1 IH]; intros [|y v2] acc; cbn; try reflexivity.
  rewrite (mul_comm x y). apply IH.
Qed.

Lemma dot_comm (v1 v2 : list float) : dot v1 v2 = dot v2 v1.
Proof. apply dot_from_comm. Qed.

(** The similarity does not depend on which vector is the probe and which
    the stored one: [get_similarity v1 v2] and [get_similarity v2 v1] are
    the same number, the same [nan], or the same [ValueError]. *)
Theorem get_similarity_symmetric (v1 v2 : list float) :
  get_similarity v1 v2 = get_similarity v2 v1.
Proof.
  unfold get_similarity, np_dot.
  rewrite (Nat.eqb_sym (List.length v2) (List.length v1)).
  destruct (Nat.eqb (List.length v1) (List.length v2)); [|reflexivity].
  cbn [bind]. rewrite (dot_comm v1 v2), (mul_comm (norm v1) (norm v2)).
  reflexivity.
Qed.

(** The similarity in doubles depends on the length of the vectors: (3,
    0, 3) and (1, 0, 1) point the same way, and against (1, 0, 1) the
    first scores 1 and the second the double before 1. *)
Example get_similarity_of_a_multiple :
  get_similarity [3; 0; 3]%float [1; 0; 1]%float = Ret 1%float /\
  get_similarity [1; 0; 1]%float [1; 0; 1]%float
  = Ret 0.9999999999999998%float.
Proof. split; reflexivity. Qed.

End MoreSimilarityFacts.

(** ** identify_client *)

Module MoreIdentifyFacts.

Import AIEngine Models App Spec Examples More MoreExamples.
Import FloatFacts SimilarityFacts SortFacts IdentifyFacts.





(** Requests without an image, computed: no body, an empty dict, a zero,
    an empty list under [image]; and requests that fail: a body that is a
    list, a number under [image], an image without a comma. *)
Example identify_without_image :
  identify_client (kiosk (Ret [])) JsNull (store []) = no_image /\
  identify_client (kiosk (Ret [])) (JsDict []) (store []) = no_image /\
  identify_client (kiosk (Ret [])) (JsDict [("image", JsInt 0)]) (store [])
  = no_image /\
  identify_client (kiosk (Ret [])) (JsDict [("image", JsList [])]) (store [])
  = no_image /\
  identify_client (kiosk (Ret [])) (JsList [JsInt 1]) (store [])
  = failed AttributeError /\
  identify_client (kiosk (Ret [])) (JsDict [("image", JsInt 7)]) (store [])
  = failed AttributeError /\
  identify_client (kiosk (Ret [])) (posted "AAAA") (store [])
  = failed ValueError.
Proof. repeat split. Qed.

(** A request to identify never changes the database: whatever it answers,
    the committed tables after it are the ones before it. *)
Theorem identify_reads_only (w : world) (request_json : json)
  (db : database) :
  snd (teardown (identify_body w request_json) (refuses w) db) = db.
Proof.
  unfold identify_body, teardown.
  cbv beta iota zeta delta [mtry mbind lift ret query_all execute].
  destruct (dict_get _ "image") as [image|e]; [|reflexivity].
  destruct (truthy image); cbn [negb]; [|reflexivity].
  destruct (split_header image) as [parts|e]; [|reflexivity].
  destruct (b64decode w (snd parts)) as [data|e]; [|reflexivity].
  destruct (write_temp w data) as [[]|e]; [|reflexivity].
  destruct (extract_faces (represent w data)) as [faces|e]; [|reflexivity].
  destruct (os_remove w) as [[]|e]; [|reflexivity].
  destruct faces as [|f rest]; [reflexivity|].
  destruct (refuses w Select); [reflexivity|].
  cbn [working begin].
  pose proof (scan_session (embedding f) (refuses w)
                (rowid_scan (face_descriptors db)) [] (begin db)) as Hs.
  destruct (scan _ _ _ _ _) as [[ms|e] s']; cbn in Hs; subst s'; reflexivity.
Qed.

(** Only the first face of the probe counts: two probes whose first
    detected face is the same get the same answer on the same store,
    whatever other faces each of them shows. *)
Theorem identify_uses_first_face (w w' : world) (img img' : string)
  (first_face : face) (others others' : list face) (db : database) :
  probe_detects w img (first_face :: others) ->
  probe_detects w' img' (first_face :: others') ->
  refuses w = refuses w' ->
  identify_client w (posted img) db = identify_client w' (posted img') db.
Proof.
  intros (data & Hread & Hfaces) (data' & Hread' & Hfaces') Hsame.
  rewrite (identify_after_extraction db Hread Hfaces).
  rewrite (identify_after_extraction db Hread' Hfaces').
  now rewrite Hsame.
Qed.

Lemma kiosk_detects_two (e1 e2 : list float) :
  probe_detects (kiosk (seen_two e1 e2)) snapshot
    [probe_face e1; second_face e2].
Proof.
  exists "AAAA". split; [apply kiosk_readable|reflexivity].
Qed.

Lemma identify_uses_first_face_witness :
  identify_client (kiosk (seen_two [3; 4]%float [4; -3]%float)) (posted snapshot)
    three_descriptors
  = identify_client (kiosk (seen [3; 4]%float)) (posted snapshot)
      three_descriptors.
Proof.
  apply (@identify_uses_first_face _ _ _ _ (probe_face [3; 4]%float)
           [second_face [4; -3]%float] []).
  - apply kiosk_detects_two.
  - apply kiosk_detects.
  - reflexivity.
Defined.

Lemma scan_one_other_length (target : list float) (d : FaceDescriptor.t)
  (acc : list match_result) (refuses : statement -> bool) (s : session) :
  other_length target d ->
  scan_one target d acc refuses s = (Raise ValueError, s).
Proof.
  intros Hlen. unfold scan_one, mbind, lift, get_similarity.
  rewrite np_dot_mismatch; [reflexivity|].
  intros H. apply Hlen. now symmetry.
Qed.

Lemma scan_one_raises (target : list float) (d : FaceDescriptor.t)
  (acc : list match_result) (refuses : statement -> bool) (s s' : session)
  (e : exn) :
  scan_one target d acc refuses s = (Raise e, s') ->
  e = ValueError \/ (e = AttributeError /\ photo_row (working s) d = None).
Proof.
  unfold scan_one, mbind, lift, get_similarity, np_dot.
  destruct (Nat.eqb _ _); cbn [bind]; [|intros [= <- _]; now left].
  destruct (PrimFloat.ltb _ _); [|discriminate].
  unfold photo_of, photo_row. destruct (find _ _); [discriminate|].
  intros [= <- _]. now right.
Qed.

Lemma scan_other_length (target : list float) (refuses : statement -> bool)
  (s : session) (ds : list FaceDescriptor.t) :
  Exists (other_length target) ds ->
  forall acc,
    exists e,
      scan target ds acc refuses s = (Raise e, s) /\
      (Forall (fun d => photo_row (working s) d <> None) ds ->
       e = ValueError).
Proof.
  induction 1 as [d ds Hd|d ds _ IH]; intros acc; cbn [scan].
  - exists ValueError. unfold mbind.
    now rewrite (@scan_one_other_length target d acc refuses s Hd).
  - unfold mbind at 1.
    pose proof (scan_one_session target d acc refuses s) as Hs.
    destruct (scan_one target d acc refuses s) as [[acc'|e] s1] eqn:H1;
      cbn in Hs; subst s1.
    + destruct (IH acc') as (e & -> & He). exists e.
      split; [reflexivity|]. intros Hall. apply He.
      now inversion Hall.
    + exists e. split; [reflexivity|]. intros Hall.
      destruct (scan_one_raises _ _ _ _ _ H1) as [->|[_ Hnone]];
        [reflexivity|].
      inversion Hall; contradiction.
Qed.

(** One stored embedding of another dimension than the probe embedding
    makes the whole request fail: the answer is the error with status 500
    and no partial result, also when other descriptors match; when every
    descriptor refers to its photo, the error is the [ValueError] of
    [np.dot]. *)
Theorem identify_fails_on_other_dimension (w : world) (img : string)
  (first_face : face) (others : list face) (db : database) :
  probe_detects w img (first_face :: others) ->
  db_answers w ->
  Exists (other_length (embedding first_face)) (face_descriptors db) ->
  exists e,
    identify_client w (posted img) db = failed e /\
    results_of (identify_client w (posted img) db) = [] /\
    (Forall (fun d => photo_row db d <> None) (face_descriptors db) ->
     e = ValueError).
Proof.
  intros Hprobe Hdb Hbad.
  assert (Hlisted : Exists (other_length (embedding first_face))
                           (rowid_scan (face_descriptors db))).
  { rewrite Exists_exists in *. destruct Hbad as (d & Hd & H).
    exists d. split; [|exact H].
    exact (Permutation_in _ (Permutation_sym (rowid_scan_perm _)) Hd). }
  destruct (scan_other_length (refuses w) (begin db) Hlisted [])
    as (e & Hscan & He).
  exists e.
  assert (H : identify_client w (posted img) db = failed e).
  { rewrite (identify_with_face db Hprobe). rewrite Hdb. now rewrite Hscan. }
  rewrite H. split; [reflexivity|]. split; [reflexivity|].
  intros Hall. apply He. cbn [begin working].
  eapply Permutation_Forall; [symmetry; apply rowid_scan_perm|exact Hall].
Qed.

Lemma identify_fails_on_other_dimension_witness :
  exists e,
    identify_client (kiosk (seen [1%float])) (posted snapshot)
      (store [descriptor 1 10 [1%float]; descriptor 2 20 [1; 0]%float]) = failed e /\
    results_of
      (identify_client (kiosk (seen [1%float])) (posted snapshot)
         (store [descriptor 1 10 [1%float]; descriptor 2 20 [1; 0]%float])) = [] /\
    (Forall (fun d =>
               photo_row (store [descriptor 1 10 [1%float];
                                 descriptor 2 20 [1; 0]%float]) d <> None)
            (face_descriptors
               (store [descriptor 1 10 [1%float]; descriptor 2 20 [1; 0]%float])) ->
     e = ValueError).
Proof.
  apply (@identify_fails_on_other_dimension (kiosk (seen [1%float])) snapshot
           (probe_face [1%float]) []).
  - apply kiosk_detects.
  - reflexivity.
  - right. left. unfold other_length. cbn. discriminate.
Defined.

End MoreIdentifyFacts.

(** ** process_photo_ai *)

Module MoreIngestFacts.

Import AIEngine Models App Spec Examples More MoreExamples.
Import FloatFacts SimilarityFacts SortFacts IdentifyFacts.

Lemma session_eta (s : session) :
  {| committed := committed s; working := working s |} = s.
Proof. now destruct s. Qed.

Lemma database_eta (db : database) :
  with_descriptors db (face_descriptors db) = db.
Proof. now destruct db. Qed.

(** The insertions when the engine accepts them. *)
Lemma add_faces_accepted (refuses : statement -> bool) (pid : Z)
  (faces : list face) :
  refuses InsertDescriptor = false ->
  forall s,
    add_faces pid faces refuses s =
    (Ret tt,
     {| committed := committed s;
        working :=
          with_descriptors (working s)
            (face_descriptors (working s)
             ++ descriptors_of pid faces (face_descriptors (working s))) |}).
Proof.
  intros Hins.
  induction faces as [|f faces IH]; intros s; cbn [add_faces descriptors_of].
  - unfold ret. rewrite app_nil_r, database_eta, session_eta. reflexivity.
  - unfold mbind at 1, add_descriptor, mbind at 1, execute.
    rewrite Hins. rewrite IH. cbn [committed working face_descriptors].
    unfold with_descriptors. cbn. now rewrite <- app_assoc.
Qed.

(** The insertions when the engine refuses them. *)
Lemma add_faces_refused (refuses : statement -> bool) (pid : Z)
  (f : face) (faces : list face) (s : session) :
  refuses InsertDescriptor = true ->
  add_faces pid (f :: faces) refuses s = (Raise OperationalError, s).
Proof.
  intros Hins. cbn [add_faces].
  unfold mbind at 1, add_descriptor, mbind at 1, execute.
  now rewrite Hins.
Qed.

Lemma descriptors_of_rows (pid : Z) (faces : list face) :
  forall ds,
    map FaceDescriptor.vector_json (descriptors_of pid faces ds)
    = map embedding faces /\
    map FaceDescriptor.box_json (descriptors_of pid faces ds)
    = map box faces /\
    Forall (fun d => FaceDescriptor.photo_id d = pid)
           (descriptors_of pid faces ds).
Proof.
  induction faces as [|f faces IH]; intros ds; cbn.
  - repeat split; constructor.
  - repeat split.
    + f_equal. apply IH.
    + f_equal. apply IH.
    + constructor; [reflexivity|apply IH].
Qed.

(** The background task stores all the faces of a photo or none: with
    [faces] the list [extract_faces] returns on the file, when the engine
    accepts the insertions and the commit the table of descriptors gains
    one row per face, in the order of the faces, each with the photo, the
    embedding and the box of its face; when the engine refuses the commit,
    or an insertion, the database is left as it was; so it is when no
    face is found and when the model call raises.  No other table is
    touched. *)
Theorem process_photo_ai_all_or_nothing (w : world) (pid : Z)
  (file : string) (db : database) :
  exists faces,
    extract_faces (represent w file) = Ret faces /\
    (refuses w InsertDescriptor = false -> refuses w Commit = false ->
     process_photo_ai w pid file db =
     with_descriptors db
       (face_descriptors db
        ++ descriptors_of pid faces (face_descriptors db))) /\
    (refuses w Commit = true \/ refuses w InsertDescriptor = true ->
     process_photo_ai w pid file db = db) /\
    (faces = [] -> process_photo_ai w pid file db = db) /\
    (forall e, represent w file = Raise e ->
               process_photo_ai w pid file db = db) /\
    map FaceDescriptor.vector_json
        (descriptors_of pid faces (face_descriptors db))
    = map embedding faces /\
    map FaceDescriptor.box_json
        (descriptors_of pid faces (face_descriptors db))
    = map box faces /\
    Forall (fun d => FaceDescriptor.photo_id d = pid)
           (descriptors_of pid faces (face_descriptors db)).
Proof.
  destruct (ExtractorFacts.extract_faces_returns (represent w file))
    as [faces Hfaces].
  exists faces. split; [exact Hfaces|].
  assert (Hrun : process_photo_ai w pid file db =
                 committed (snd ((_ <-- add_faces pid faces ;; commit)
                                   (refuses w) (begin db)))).
  { unfold process_photo_ai, teardown, process_photo_body, mtry.
    unfold mbind at 1, lift. rewrite Hfaces.
    destruct ((_ <-- add_faces pid faces ;; commit) (refuses w) (begin db))
      as [[[]|e] s']; reflexivity. }
  assert (Hempty : faces = [] -> process_photo_ai w pid file db = db).
  { intros ->. rewrite Hrun. cbn [add_faces].
    unfold mbind, ret, commit, mbind, execute.
    destruct (refuses w Commit); reflexivity. }
  split; [|split; [|split; [exact Hempty|split]]].
  - intros Hins Hcom. rewrite Hrun. unfold mbind at 1.
    rewrite (@add_faces_accepted (refuses w) pid faces Hins).
    unfold commit, mbind, execute. rewrite Hcom. reflexivity.
  - intros Hrefused. destruct faces as [|f faces]; [now apply Hempty|].
    rewrite Hrun. unfold mbind at 1.
    destruct (refuses w InsertDescriptor) eqn:Hins.
    + now rewrite (@add_faces_refused (refuses w) pid f faces (begin db) Hins).
    + destruct Hrefused as [Hcom|Habs]; [|discriminate].
      rewrite (@add_faces_accepted (refuses w) pid (f :: faces) Hins).
      unfold commit, mbind, execute. now rewrite Hcom.
  - intros e He. apply Hempty.
    unfold extract_faces in Hfaces. rewrite He in Hfaces. cbn in Hfaces.
    now injection Hfaces.
  - apply descriptors_of_rows.
Qed.

(** The task on a photo with two faces, computed: two rows with the next
    two identifiers; and the same task when the commit is refused. *)
Example process_photo_ai_two_faces :
  process_photo_ai (kiosk (seen_two [1; 0]%float [0; 1]%float)) 20 "jpeg"
    (store [descriptor 7 10 [1; 1]%float])
  = store [descriptor 7 10 [1; 1]%float;
           {| FaceDescriptor.id := 8; FaceDescriptor.photo_id := 20;
              FaceDescriptor.vector_json := [1; 0]%float;
              FaceDescriptor.box_json :=
                [("x", 0); ("y", 0); ("w", 10); ("h", 10)] |};
           {| FaceDescriptor.id := 9; FaceDescriptor.photo_id := 20;
              FaceDescriptor.vector_json := [0; 1]%float;
              FaceDescriptor.box_json :=
                [("x", 50); ("y", 0); ("w", 10); ("h", 10)] |}] /\
  process_photo_ai
    (kiosk_with (seen_two [1; 0]%float [0; 1]%float) refuse_commit) 20 "jpeg"
    (store [descriptor 7 10 [1; 1]%float])
  = store [descriptor 7 10 [1; 1]%float].
Proof. split; reflexivity. Qed.

(** *** From the upload to the identification *)

Lemma process_photo_ai_stores (w : world) (pid : Z) (file : string)
  (db : database) (faces : list face) :
  extract_faces (represent w file) = Ret faces ->
  refuses w InsertDescriptor = false ->
  refuses w Commit = false ->
  process_photo_ai w pid file db =
  with_descriptors db
    (face_descriptors db ++ descriptors_of pid faces (face_descriptors db)).
Proof.
  intros Hfaces Hins Hcom.
  unfold process_photo_ai, teardown, process_photo_body, mtry.
  unfold mbind at 1, lift. rewrite Hfaces. unfold mbind at 1.
  rewrite (@add_faces_accepted (refuses w) pid faces Hins).
  unfold commit, mbind, execute. rewrite Hcom. reflexivity.
Qed.

Lemma descriptors_of_face (pid : Z) (f : face) (faces : list face) :
  In f faces ->
  forall ds,
    exists d, In d (descriptors_of pid faces ds) /\
              FaceDescriptor.vector_json d = embedding f /\
              FaceDescriptor.photo_id d = pid.
Proof.
  induction faces as [|g faces IH]; intros Hin ds; [contradiction|].
  cbn [descriptors_of]. destruct Hin as [->|Hin].
  - eexists. split; [left; reflexivity|]. split; reflexivity.
  - destruct (IH Hin (ds ++ [{| FaceDescriptor.id :=
                                  next_id (map FaceDescriptor.id ds);
                                FaceDescriptor.photo_id := pid;
                                FaceDescriptor.vector_json := embedding g;
                                FaceDescriptor.box_json := box g |}]))
      as (d & Hd & Hrest).
    exists d. split; [right; exact Hd|exact Hrest].
Qed.

(** After the background task has stored the faces of a photo, a probe
    whose first face has the embedding of one of them gets that photo,
    provided the similarity of that embedding with itself, as
    [get_similarity] computes it, is above the threshold: the photo is in
    the ranked list the answer is cut from, with that similarity, and it
    is among the 20 results of the answer unless all 20 score at least as
    high.  (The store before the upload and the faces of the upload have
    the dimension of the probe; the descriptors refer to photos of the
    table of photos.) *)
Theorem uploaded_face_is_found (w0 w : world) (pid : Z)
  (file img : string) (faces others : list face) (stored probe : face)
  (db : database) (p : Photo.t) :
  extract_faces (represent w0 file) = Ret faces ->
  refuses w0 InsertDescriptor = false ->
  refuses w0 Commit = false ->
  In stored faces ->
  Forall (fun f => List.length (embedding f) = List.length (embedding probe))
         faces ->
  find (fun q => Photo.id q =? pid) (photos db) = Some p ->
  store_consistent db (embedding probe) ->
  probe_detects w img (probe :: others) ->
  db_answers w ->
  embedding stored = embedding probe ->
  above (cosine (embedding probe) (embedding probe)) ->
  exists ranked,
    identify_client w (posted img) (process_photo_ai w0 pid file db)
    = found (firstn 20 ranked) None /\
    In {| photo_id := pid;
          similarity := cosine (embedding probe) (embedding probe);
          path := Photo.relative_path p; date := Photo.created_at p |}
       ranked /\
    Forall (fun m => above (similarity m)) ranked /\
    (In {| photo_id := pid;
           similarity := cosine (embedding probe) (embedding probe);
           path := Photo.relative_path p; date := Photo.created_at p |}
        (firstn 20 ranked) \/
     (List.length (firstn 20 ranked) = 20%nat /\
      Forall (fun m =>
                PrimFloat.leb (cosine (embedding probe) (embedding probe))
                              (similarity m) = true)
             (firstn 20 ranked))).
Proof.
  intros Hfaces Hins Hcom Hin Hdims Hphoto Hstore Hprobe Hdb Hsame Hself.
  set (target := embedding probe) in *.
  rewrite (@process_photo_ai_stores w0 pid file db faces Hfaces Hins Hcom).
  set (news := descriptors_of pid faces (face_descriptors db)).
  set (db1 := with_descriptors db (face_descriptors db ++ news)).
  destruct (descriptors_of_rows pid faces (face_descriptors db))
    as (Hvec & _ & Hpid). fold news in Hvec, Hpid.
  assert (Hscan : scannable db1 target).
  { unfold scannable, db1. cbn [face_descriptors with_descriptors].
    apply Forall_app. split.
    - eapply Forall_impl; [|exact Hstore].
      intros d [Hlen Hrow]. split; [exact Hlen|]. intros _. exact Hrow.
    - rewrite Forall_forall in Hpid. apply Forall_forall. intros d Hd. split.
      + assert (Hv : In (FaceDescriptor.vector_json d)
                        (map embedding faces))
          by (rewrite <- Hvec; now apply in_map).
        apply in_map_iff in Hv as (f & Hf & Hfin).
        rewrite Forall_forall in Hdims. unfold comparable.
        rewrite <- Hf. now apply Hdims.
      + intros _. unfold photo_row. cbn [photos with_descriptors].
        rewrite (Hpid d Hd), Hphoto. discriminate. }
  destruct (identify_outcome db1 Hprobe) as [Hgood _].
  destruct (Hgood Hdb Hscan) as [_ Hresp]. fold target in Hresp.
  exists (sort_reverse similarity (candidates db1 target)).
  pose proof (sort_reverse_perm similarity (candidates db1 target)) as Hperm.
  pose proof (sort_reverse_sorted similarity (candidates_numbers db1 target))
    as Hsorted.
  assert (Hmine : In {| photo_id := pid; similarity := cosine target target;
                        path := Photo.relative_path p;
                        date := Photo.created_at p |}
                     (sort_reverse similarity (candidates db1 target))).
  { destruct (@descriptors_of_face pid stored faces Hin (face_descriptors db))
      as (d & Hd & Hv & Hp). fold news in Hd. rewrite Hsame in Hv.
    fold target in Hv.
    assert (Hcomp : comparable target d)
      by (unfold comparable; now rewrite Hv).
    destruct (score_comparable Hcomp) as [_ Hscore]. rewrite Hv in Hscore.
    apply (Permutation_in _ (Permutation_sym Hperm)).
    unfold candidates. apply in_map_iff. exists d. split.
    - unfold match_of, photo_row. cbn [photos db1 with_descriptors].
      now rewrite Hp, Hphoto, Hscore.
    - unfold hits. apply filter_In. split.
      + apply (Permutation_in _ (Permutation_sym (rowid_scan_perm _))).
        unfold db1. cbn [face_descriptors with_descriptors].
        apply in_or_app. now right.
      + unfold exceedsb. rewrite Hscore. exact Hself. }
  split; [exact Hresp|]. split; [exact Hmine|]. split.
  { eapply Permutation_Forall; [symmetry; exact Hperm|].
    apply candidates_above. }
  rewrite <- (firstn_skipn 20 (sort_reverse similarity (candidates db1 target)))
    in Hmine.
  apply in_app_or in Hmine as [Hkept|Hcut]; [now left|right].
  split.
  - rewrite length_firstn. apply Nat.min_l.
    destruct (Nat.le_gt_cases 20
                (List.length (sort_reverse similarity (candidates db1 target))))
      as [Hle|Hlt]; [exact Hle|].
    rewrite skipn_all2 in Hcut by lia. contradiction.
  - apply Forall_forall. intros m Hm.
    exact (sorted_firstn_skipn Hsorted 20 m _ Hm Hcut).
Qed.

Lemma uploaded_face_is_found_witness :
  exists ranked,
    identify_client (kiosk (seen [3; 4]%float)) (posted snapshot)
      (process_photo_ai (kiosk (seen_two [4; 3]%float [3; 4]%float)) 20 "jpeg"
         three_descriptors)
    = found (firstn 20 ranked) None /\
    In {| photo_id := 20;
          similarity :=
            cosine (embedding (probe_face [3; 4]%float))
                   (embedding (probe_face [3; 4]%float));
          path := Photo.relative_path photo20;
          date := Photo.created_at photo20 |} ranked /\
    Forall (fun m => above (similarity m)) ranked /\
    (In {| photo_id := 20;
           similarity :=
             cosine (embedding (probe_face [3; 4]%float))
                    (embedding (probe_face [3; 4]%float));
           path := Photo.relative_path photo20;
           date := Photo.created_at photo20 |}
        (firstn 20 ranked) \/
     (List.length (firstn 20 ranked) = 20%nat /\
      Forall (fun m =>
                PrimFloat.leb
                  (cosine (embedding (probe_face [3; 4]%float))
                          (embedding (probe_face [3; 4]%float)))
                  (similarity m) = true)
             (firstn 20 ranked))).
Proof.
  apply (@uploaded_face_is_found
           (kiosk (seen_two [4; 3]%float [3; 4]%float))
           (kiosk (seen [3; 4]%float))
           20 "jpeg" snapshot
           [probe_face [4; 3]%float; second_face [3; 4]%float] []
           (second_face [3; 4]%float) (probe_face [3; 4]%float)
           three_descriptors photo20).
  - reflexivity.
  - reflexivity.
  - reflexivity.
  - right. left. reflexivity.
  - repeat constructor.
  - reflexivity.
  - unfold store_consistent, three_descriptors. cbn [face_descriptors store].
    repeat constructor; discriminate.
  - apply kiosk_detects.
  - reflexivity.
  - reflexivity.
  - reflexivity.
Defined.

(** The upload and the request of the witness, computed: the two stored
    copies of the probe embedding come first, each at similarity 1. *)
Example identify_after_upload :
  identify_client (kiosk (seen [3; 4]%float)) (posted snapshot)
    (process_photo_ai (kiosk (seen_two [4; 3]%float [3; 4]%float)) 20 "jpeg"
       three_descriptors)
  = found [ {| photo_id := 10; similarity := 1%float;
               path := "2024-01-01/Juan/a.jpg"; date := 100 |};
            {| photo_id := 20; similarity := 1%float;
               path := "2024-01-01/Juan/b.jpg"; date := 200 |};
            {| photo_id := 20; similarity := 0.96%float;
               path := "2024-01-01/Juan/b.jpg"; date := 200 |};
            {| photo_id := 20; similarity := 0.96%float;
               path := "2024-01-01/Juan/b.jpg"; date := 200 |} ] None.
Proof. reflexivity. Qed.

End MoreIngestFacts.

(** ** close_day_api *)

Module MoreClosingFacts.

Import AIEngine Models App Spec Examples More MoreExamples ClosingFacts.

(** *** The tally *)

Lemma split_of_add (ph ph' : string) (p : R) (splits : list (string * R)) :
  split_of ph' (splits_add ph p splits)
  = (split_of ph' splits + if String.eqb ph ph' then p else 0)%R.
Proof.
  unfold split_of.
  induction splits as [|[k v] rest IH]; cbn [splits_add find fst snd].
  - destruct (String.eqb ph ph'); cbn [snd]; lra.
  - destruct (String.eqb k ph) eqn:Ek; cbn [find fst snd].
    + apply String.eqb_eq in Ek. subst k.
      destruct (String.eqb ph ph'); cbn [snd]; lra.
    + destruct (String.eqb k ph') eqn:Ek'; [|exact IH].
      apply String.eqb_eq in Ek'. subst k.
      rewrite (String.eqb_sym ph ph'), Ek. cbn [snd]. lra.
Qed.

Lemma splits_add_keys (ph : string) (p : R) (splits : list (string * R))
  (k : string) :
  In k (map fst (splits_add ph p splits)) <->
  k = ph \/ In k (map fst splits).
Proof.
  induction splits as [|[k' v] rest IH]; cbn.
  - intuition.
  - destruct (String.eqb k' ph) eqn:Ek; cbn.
    + apply String.eqb_eq in Ek. subst k'. intuition.
    + rewrite IH. intuition.
Qed.

Lemma splits_add_nodup (ph : string) (p : R) (splits : list (string * R)) :
  NoDup (map fst splits) -> NoDup (map fst (splits_add ph p splits)).
Proof.
  induction splits as [|[k v] rest IH]; intros Hnd; cbn.
  - repeat constructor. intros [].
  - inversion Hnd as [|? ? Hk Hrest]; subst.
    destruct (String.eqb k ph) eqn:Ek; cbn; [exact Hnd|].
    apply String.eqb_neq in Ek.
    constructor; [|now apply IH].
    rewrite splits_add_keys. intros [E|Hin]; [now apply Ek|now apply Hk].
Qed.

(** What the tally of a list of items adds to a tally. *)
Lemma tally_items_adds (its : list SaleItem.t) :
  forall t t',
    tally_items its t = Ret t' ->
    print_count t'
    = print_count t + Z.of_nat (List.length (filter is_print its)) /\
    digital_count t'
    = digital_count t
      + Z.of_nat (List.length (filter (fun i => negb (is_print i)) its)) /\
    (forall ph,
        split_of ph (ph_splits t')
        = (split_of ph (ph_splits t) + prices_of ph its)%R) /\
    (NoDup (map fst (ph_splits t)) -> NoDup (map fst (ph_splits t'))) /\
    (forall k, In k (map fst (ph_splits t')) ->
               In k (map fst (ph_splits t)) \/ In k (map credited_to its)).
Proof.
  induction its as [|item its IH]; intros t t'; cbn [tally_items].
  - intros [= <-]. cbn. repeat split; try lia; auto.
    intros ph. lra.
  - unfold tally_item at 1. fold (is_print item). fold (credited_to item).
    destruct (SaleItem.price item) as [p|] eqn:Hp; [|discriminate].
    cbn [bind]. intros Hrest.
    apply IH in Hrest as (Hpr & Hdi & Hsp & Hnd & Hkeys).
    cbn [print_count digital_count ph_splits] in *.
    cbn [filter prices_of map]. rewrite Hp.
    split; [|split; [|split; [|split]]].
    + rewrite Hpr. destruct (is_print item); cbn [List.length]; lia.
    + rewrite Hdi. destruct (is_print item); cbn [negb List.length]; lia.
    + intros ph. rewrite Hsp, split_of_add.
      destruct (String.eqb (credited_to item) ph); lra.
    + intros H. apply Hnd. now apply splits_add_nodup.
    + intros k Hk. destruct (Hkeys k Hk) as [Hin|Hin]; [|now right; right].
      apply splits_add_keys in Hin as [->|Hin]; [right; now left|now left].
Qed.

Lemma tally_sales_adds (ss : list Sale.t) :
  forall t t',
    tally_sales ss t = Ret t' ->
    print_count t'
    = print_count t
      + Z.of_nat (List.length (filter is_print (flat_map Sale.items ss))) /\
    digital_count t'
    = digital_count t
      + Z.of_nat (List.length (filter (fun i => negb (is_print i))
                                      (flat_map Sale.items ss))) /\
    (forall ph,
        split_of ph (ph_splits t')
        = (split_of ph (ph_splits t)
           + prices_of ph (flat_map Sale.items ss))%R) /\
    (NoDup (map fst (ph_splits t)) -> NoDup (map fst (ph_splits t'))) /\
    (forall k, In k (map fst (ph_splits t')) ->
               In k (map fst (ph_splits t)) \/
               In k (map credited_to (flat_map Sale.items ss))).
Proof.
  induction ss as [|s ss IH]; intros t t'; cbn [tally_sales flat_map].
  - intros [= <-]. cbn. repeat split; try lia; auto.
    intros ph. lra.
  - destruct (tally_items (Sale.items s) t) as [t1|e] eqn:H1;
      [|discriminate].
    cbn [bind]. intros Hrest.
    apply tally_items_adds in H1 as (Hpr1 & Hdi1 & Hsp1 & Hnd1 & Hk1).
    apply IH in Hrest as (Hpr & Hdi & Hsp & Hnd & Hk).
    rewrite !filter_app, !length_app, map_app.
    split; [|split; [|split; [|split]]].
    + lia.
    + lia.
    + intros ph. rewrite Hsp, Hsp1.
      assert (Happ : forall a b, prices_of ph (a ++ b)
                                 = (prices_of ph a + prices_of ph b)%R).
      { intros a b. induction a as [|x a IHa]; cbn; [lra|].
        destruct (String.eqb (credited_to x) ph); rewrite IHa; lra. }
      rewrite Happ. lra.
    + auto.
    + intros k Hin. destruct (Hk k Hin) as [H|H].
      * destruct (Hk1 k H) as [H'|H']; [now left|].
        right. apply in_or_app. now left.
      * right. apply in_or_app. now right.
Qed.

Lemma tally_items_priced (its : list SaleItem.t) :
  forall t t',
    tally_items its t = Ret t' ->
    Forall (fun i => SaleItem.price i <> None) its.
Proof.
  induction its as [|item its IH]; intros t t'; cbn [tally_items];
    [constructor|].
  unfold tally_item at 1.
  destruct (SaleItem.price item) as [p|] eqn:Hp; [|discriminate].
  cbn [bind]. intros Hrest. constructor; [now rewrite Hp|].
  now apply IH in Hrest.
Qed.

Lemma tally_sales_priced (ss : list Sale.t) :
  forall t t',
    tally_sales ss t = Ret t' ->
    Forall (fun i => SaleItem.price i <> None) (flat_map Sale.items ss).
Proof.
  induction ss as [|s ss IH]; intros t t'; cbn [tally_sales flat_map];
    [constructor|].
  destruct (tally_items (Sale.items s) t) as [t1|e] eqn:H1; [|discriminate].
  cbn [bind]. intros Hrest. apply Forall_app. split.
  - now apply tally_items_priced in H1.
  - now apply IH in Hrest.
Qed.

Lemma filter_partition_length {A} (f : A -> bool) (l : list A) :
  (List.length (filter f l)
   + List.length (filter (fun a => negb (f a)) l))%nat
  = List.length l.
Proof.
  induction l as [|a l IH]; [reflexivity|]. cbn.
  destruct (f a); cbn; lia.
Qed.

(** A closing that succeeded, with the user and the tally behind it. *)
Lemma close_day_success_record (w : world) (su : option user)
  (notes : string) (db db' : database) (id : Z) :
  close_day_api w su notes db = (closed_ok id, db') ->
  exists u t,
    su = Some u /\ role u = "admin" /\
    tally_sales (sales_to_close db) empty_tally = Ret t /\
    id = EODReport.id (closing_record w u notes db t) /\
    db' = closed db (closing_record w u notes db t).
Proof.
  destruct su as [u|]; [|rewrite close_day_anonymous; discriminate].
  destruct (string_dec (role u) "admin") as [Hrole|Hrole];
    [|rewrite (@close_day_not_admin w u notes db Hrole); discriminate].
  rewrite (@close_day_admin w u notes db Hrole).
  destruct (refuses w Select); [discriminate|].
  destruct (tally_sales _ _) as [t|e] eqn:Ht; [|discriminate].
  destruct (refuses w InsertReport); [discriminate|].
  destruct (refuses w DeleteDescriptors); [discriminate|].
  destruct (refuses w Commit); [discriminate|].
  intros [= <- <-]. exists u, t. repeat split; assumption.
Qed.

(** The closing record of a closing that succeeded counts every item of
    the sales it sums up once: the prints are the items whose type has
    "print" in it, the digital ones are all the others, and the two
    counts add up to the number of items; its revenue is the sum of the
    totals of those sales, and its user is the administrator of the
    session. *)
Theorem closing_record_counts_items (w : world) (su : option user)
  (notes : string) (db db' : database) (id : Z) :
  close_day_api w su notes db = (closed_ok id, db') ->
  exists r,
    db' = closed db r /\
    EODReport.id r = id /\
    EODReport.print_count r
    = Z.of_nat (List.length (filter is_print (items_to_close db))) /\
    EODReport.digital_count r
    = Z.of_nat (List.length (filter (fun i => negb (is_print i))
                                    (items_to_close db))) /\
    EODReport.digital_count r + EODReport.print_count r
    = Z.of_nat (List.length (items_to_close db)) /\
    EODReport.total_revenue r = sum_final_total (sales_to_close db) /\
    EODReport.timestamp r = utcnow w /\
    su = Some {| username := EODReport.closing_user r; role := "admin" |}.
Proof.
  intros Hclose.
  apply close_day_success_record in Hclose
    as (u & t & -> & Hrole & Ht & -> & ->).
  exists (closing_record w u notes db t).
  apply tally_sales_adds in Ht as (Hpr & Hdi & _).
  cbn [print_count digital_count empty_tally] in Hpr, Hdi.
  fold (items_to_close db) in Hpr, Hdi.
  cbn [closing_record EODReport.print_count EODReport.digital_count
       EODReport.total_revenue EODReport.timestamp EODReport.closing_user
       EODReport.id].
  repeat split; try lia.
  - rewrite Hpr, Hdi.
    pose proof (filter_partition_length is_print (items_to_close db)). lia.
  - destruct u as [name r]. cbn in *. now subst r.
Qed.

Lemma closing_record_counts_items_witness :
  exists r,
    snd (close_day_api (kiosk (Ret [])) (Some admin) "cierre" second_day)
    = closed second_day r /\
    EODReport.id r = 2 /\
    EODReport.print_count r
    = Z.of_nat (List.length (filter is_print (items_to_close second_day))) /\
    EODReport.digital_count r
    = Z.of_nat (List.length (filter (fun i => negb (is_print i))
                                    (items_to_close second_day))) /\
    EODReport.digital_count r + EODReport.print_count r
    = Z.of_nat (List.length (items_to_close second_day)) /\
    EODReport.total_revenue r = sum_final_total (sales_to_close second_day) /\
    EODReport.timestamp r = utcnow (kiosk (Ret [])) /\
    Some admin
    = Some {| username := EODReport.closing_user r; role := "admin" |}.
Proof.
  apply (@closing_record_counts_items (kiosk (Ret [])) (Some admin) "cierre"
           second_day
           (snd (close_day_api (kiosk (Ret [])) (Some admin) "cierre"
                   second_day))
           2).
  reflexivity.
Defined.

(** The splits of the closing record of a closing that succeeded give
    each photographer the sum of the prices of the items credited to them
    (to "Manual" when an item names nobody): a photographer is a key
    once, every key is credited in some item, who is no key has sold
    nothing, and every item that was summed up has a price. *)
Theorem closing_record_splits (w : world) (su : option user)
  (notes : string) (db db' : database) (id : Z) :
  close_day_api w su notes db = (closed_ok id, db') ->
  exists r,
    db' = closed db r /\
    (forall ph,
        split_of ph (EODReport.photographer_splits_json r)
        = prices_of ph (items_to_close db)) /\
    NoDup (map fst (EODReport.photographer_splits_json r)) /\
    (forall k,
        In k (map fst (EODReport.photographer_splits_json r)) ->
        In k (map credited_to (items_to_close db))) /\
    Forall (fun i => SaleItem.price i <> None) (items_to_close db).
Proof.
  intros Hclose.
  apply close_day_success_record in Hclose
    as (u & t & -> & Hrole & Ht & -> & ->).
  exists (closing_record w u notes db t).
  pose proof (tally_sales_priced _ _ Ht) as Hpriced.
  apply tally_sales_adds in Ht as (_ & _ & Hsp & Hnd & Hkeys).
  cbn [ph_splits empty_tally map] in Hsp, Hnd, Hkeys.
  fold (items_to_close db) in Hsp, Hkeys, Hpriced.
  cbn [closing_record EODReport.photographer_splits_json].
  split; [reflexivity|]. split; [|split; [|split]].
  - intros ph. rewrite Hsp. unfold split_of. cbn. lra.
  - apply Hnd. constructor.
  - intros k Hk. destruct (Hkeys k Hk) as [[]|H]. exact H.
  - exact Hpriced.
Qed.

Lemma closing_record_splits_witness :
  exists r,
    snd (close_day_api (kiosk (Ret [])) (Some admin) "cierre" second_day)
    = closed second_day r /\
    (forall ph,
        split_of ph (EODReport.photographer_splits_json r)
        = prices_of ph (items_to_close second_day)) /\
    NoDup (map fst (EODReport.photographer_splits_json r)) /\
    (forall k,
        In k (map fst (EODReport.photographer_splits_json r)) ->
        In k (map credited_to (items_to_close second_day))) /\
    Forall (fun i => SaleItem.price i <> None) (items_to_close second_day).
Proof.
  apply (@closing_record_splits (kiosk (Ret [])) (Some admin) "cierre"
           second_day
           (snd (close_day_api (kiosk (Ret [])) (Some admin) "cierre"
                   second_day))
           2).
  reflexivity.
Defined.

(** *** The sales of a closing *)

Lemma latest_report_latest (rs : list EODReport.t) :
  match latest_report rs with
  | Some r =>
      In r rs /\
      Forall (fun r' => EODReport.timestamp r' <= EODReport.timestamp r) rs
  | None => rs = []
  end.
Proof.
  induction rs as [|r rs IH]; [reflexivity|]. cbn.
  destruct (latest_report rs) as [r'|].
  - destruct IH as [Hin Hall].
    destruct (EODReport.timestamp r <? EODReport.timestamp r') eqn:E.
    + apply Z.ltb_lt in E. split; [now right|].
      constructor; [lia|exact Hall].
    + apply Z.ltb_ge in E. split; [now left|].
      constructor; [lia|]. eapply Forall_impl; [|exact Hall].
      cbn. intros a Ha. lia.
  - subst rs. split; [now left|]. constructor; [lia|constructor].
Qed.

Lemma sales_to_close_window (db : database) :
  sales_to_close db = filter (after_all_closings db) (sales db).
Proof.
  unfold sales_to_close, after_all_closings.
  pose proof (latest_report_latest (eod_reports db)) as H.
  destruct (latest_report (eod_reports db)) as [r|].
  - destruct H as [Hin Hall]. apply filter_ext. intros s.
    rewrite Forall_forall in Hall.
    destruct (forallb _ _) eqn:E.
    + rewrite forallb_forall in E. now apply E.
    + apply Z.ltb_ge. apply not_true_iff_false in E.
      destruct (Z.ltb_spec (EODReport.timestamp r) (Sale.timestamp s))
        as [Hlt|Hge]; [|exact Hge].
      exfalso. apply E. apply forallb_forall. intros r' Hr'.
      apply Z.ltb_lt. specialize (Hall r' Hr'). cbn in Hall. lia.
  - rewrite H. cbn. clear H.
    induction (sales db) as [|s ss IH]; [reflexivity|].
    cbn. now rewrite <- IH.
Qed.

Lemma filter_filter {A} (f g : A -> bool) (l : list A) :
  filter (fun a => (f a && g a)%bool) l = filter g (filter f l).
Proof.
  induction l as [|a l IH]; [reflexivity|]. cbn.
  destruct (f a); cbn; [destruct (g a); now rewrite IH|exact IH].
Qed.

(** A closing sums up exactly the sales dated after every closing on
    record; and after a closing that succeeded, the next one sums up, of
    the sales in the table, only those dated after it: a sale dated at or
    before a closing is in no later closing. *)
Theorem closing_counts_sales_once (w : world) (su : option user)
  (notes : string) (db db' : database) (id : Z) :
  close_day_api w su notes db = (closed_ok id, db') ->
  sales_to_close db = filter (after_all_closings db) (sales db) /\
  sales_to_close db'
  = filter (fun s => utcnow w <? Sale.timestamp s) (sales_to_close db) /\
  (forall s, In s (sales_to_close db') ->
             utcnow w < Sale.timestamp s /\ In s (sales_to_close db)) /\
  (forall s, Sale.timestamp s <= utcnow w -> ~ In s (sales_to_close db')).
Proof.
  intros Hclose.
  apply close_day_success_record in Hclose
    as (u & t & -> & Hrole & Ht & -> & ->).
  assert (Hnext : sales_to_close (closed db (closing_record w u notes db t))
                  = filter (fun s => utcnow w <? Sale.timestamp s)
                           (sales_to_close db)).
  { rewrite !sales_to_close_window. cbn [sales closed].
    rewrite <- filter_filter. apply filter_ext. intros s.
    unfold after_all_closings. cbn [eod_reports closed].
    rewrite forallb_app. cbn. now rewrite andb_true_r. }
  split; [apply sales_to_close_window|]. split; [exact Hnext|]. split.
  - intros s Hs. rewrite Hnext in Hs. apply filter_In in Hs as [Hin Hlt].
    split; [now apply Z.ltb_lt|exact Hin].
  - intros s Hle Hs. rewrite Hnext in Hs. apply filter_In in Hs as [_ Hlt].
    apply Z.ltb_lt in Hlt. lia.
Qed.

Lemma closing_counts_sales_once_witness :
  sales_to_close second_day
  = filter (after_all_closings second_day) (sales second_day) /\
  sales_to_close
    (snd (close_day_api (kiosk (Ret [])) (Some admin) "cierre" second_day))
  = filter (fun s => utcnow (kiosk (Ret [])) <? Sale.timestamp s)
           (sales_to_close second_day) /\
  (forall s,
      In s (sales_to_close
              (snd (close_day_api (kiosk (Ret [])) (Some admin) "cierre"
                      second_day))) ->
      utcnow (kiosk (Ret [])) < Sale.timestamp s /\
      In s (sales_to_close second_day)) /\
  (forall s,
      Sale.timestamp s <= utcnow (kiosk (Ret [])) ->
      ~ In s (sales_to_close
                (snd (close_day_api (kiosk (Ret [])) (Some admin) "cierre"
                        second_day)))).
Proof.
  apply (@closing_counts_sales_once (kiosk (Ret [])) (Some admin) "cierre"
           second_day
           (snd (close_day_api (kiosk (Ret [])) (Some admin) "cierre"
                   second_day))
           2).
  reflexivity.
Defined.

(** Only an administrator closes the day: a request without a session is
    sent to the login page, a request of any other role is refused with
    status 403, and in both cases nothing is read or written: the
    database, its descriptors included, is the one before the request. *)
Theorem close_day_needs_admin (w : world) (su : option user)
  (notes : string) (db : database) :
  (forall u, su = Some u -> role u <> "admin") ->
  snd (close_day_api w su notes db) = db /\
  (su = None ->
   fst (close_day_api w su notes db)
   = {| status := 302; payload := RedirectTo "login" |}) /\
  (su <> None ->
   fst (close_day_api w su notes db)
   = {| status := 403;
        payload := Text "Acceso denegado (Rol insuficiente)" |}).
Proof.
  intros Hrole. destruct su as [u|].
  - rewrite (@close_day_not_admin w u notes db (Hrole u eq_refl)).
    split; [reflexivity|]. split; [discriminate|reflexivity].
  - rewrite close_day_anonymous.
    split; [reflexivity|]. split; [reflexivity|]. intros H. now destruct H.
Qed.

Lemma close_day_needs_admin_witness :
  snd (close_day_api (kiosk (Ret []))
         (Some {| username := "luis"; role := "supervisor" |}) "cierre"
         (store ten_descriptors))
  = store ten_descriptors /\
  (Some {| username := "luis"; role := "supervisor" |} = None ->
   fst (close_day_api (kiosk (Ret []))
          (Some {| username := "luis"; role := "supervisor" |}) "cierre"
          (store ten_descriptors))
   = {| status := 302; payload := RedirectTo "login" |}) /\
  (Some {| username := "luis"; role := "supervisor" |} <> None ->
   fst (close_day_api (kiosk (Ret []))
          (Some {| username := "luis"; role := "supervisor" |}) "cierre"
          (store ten_descriptors))
   = {| status := 403;
        payload := Text "Acceso denegado (Rol insuficiente)" |}).
Proof.
  apply close_day_needs_admin.
  intros u [= <-]. discriminate.
Defined.

End MoreClosingFacts.

(** ** checkout and validate_coupon *)

Module MoreShopFacts.

Import Models App Spec More MoreExamples.

Lemma use_coupon_absent (code : string) (cs : list Shop.Coupon.t) :
  Shop.coupon_with code cs = None -> Shop.use_coupon code cs = cs.
Proof.
  unfold Shop.coupon_with.
  induction cs as [|c cs IH]; [reflexivity|]. cbn.
  destruct (String.eqb (Shop.Coupon.code c) code); [discriminate|].
  intros H. now rewrite IH.
Qed.

(** The [try] block on a well-formed request. *)
Lemma checkout_try_readable (w : Shop.world) (d : Shop.request)
  (t : Shop.tables) (total final : R) (rows : list Shop.ItemRow.t) :
  readable w d total final rows ->
  Shop.checkout_try w (Some d) t =
  (_ <- sends w d t rows ;;
   Ret ({| Shop.sale_rows := Shop.sale_rows t ++ [sale_of w d t total final rows];
           Shop.coupons := coupons_after d t |},
        Shop.SaleOk (Shop.SaleRow.id (sale_of w d t total final rows))
                    (Shop.random_code w))).
Proof.
  intros (Htotal & Hfinal & Hrows).
  unfold Shop.checkout_try, coupons_after, sends. cbn [bind].
  destruct (Shop.subscript (Shop.req_total d)) as [tv|]; [|discriminate].
  cbn [bind] in Htotal |- *. rewrite Htotal. cbn [bind].
  destruct (Shop.subscript (Shop.req_final_total d)) as [fv|]; [|discriminate].
  cbn [bind] in Hfinal |- *. rewrite Hfinal. cbn [bind].
  destruct (Shop.subscript (Shop.req_items d)) as [iv|]; [|discriminate].
  cbn [bind] in Hrows.
  unfold Shop.insert_sale, Shop.execute.
  destruct (Shop.truthy (Shop.req_discount_code d)).
  - destruct (Shop.refuses w Shop.InsertSale); [reflexivity|]. cbn [bind].
    destruct (Shop.refuses w Shop.SelectCoupon); [reflexivity|]. cbn [bind].
    rewrite Hrows. cbn [bind fst snd].
    destruct (Shop.coupon_with _ _) as [c|] eqn:Hc;
      [|rewrite (use_coupon_absent _ _ Hc)];
      destruct (Shop.refuses w Shop.UpdateCoupon); cbn [bind];
      destruct rows; cbn [bind];
      destruct (Shop.refuses w Shop.InsertItem); cbn [bind];
      destruct (Shop.refuses w Shop.CommitAll); reflexivity.
  - cbn [bind]. rewrite Hrows. cbn [bind].
    destruct (Shop.refuses w Shop.InsertSale); cbn [bind fst snd];
      [reflexivity|].
    destruct rows; cbn [bind];
      destruct (Shop.refuses w Shop.InsertItem); cbn [bind];
      destruct (Shop.refuses w Shop.CommitAll); reflexivity.
Qed.

(** The steps of the [try] block, one after the other. *)
Ltac run_checkout :=
  repeat (cbn [bind fst snd];
          match goal with
          | H : ?x = _ |- context [?x] => rewrite H
          end).

(** A request is well formed, or its [try] block raises the same error
    on every content of the tables. *)
Lemma unreadable_raises (w : Shop.world) (data : option Shop.request) :
  (exists d total final rows,
      data = Some d /\ readable w d total final rows) \/
  (exists e, forall t, Shop.checkout_try w data t = Raise e).
Proof.
  destruct data as [d|]; [|right; now exists TypeError].
  unfold readable.
  destruct (Shop.subscript (Shop.req_total d)) as [tv|e] eqn:Htv;
    [|right; exists e; intros t; unfold Shop.checkout_try;
      run_checkout; reflexivity].
  destruct (Shop.float w tv) as [total|e] eqn:Htotal;
    [|right; exists e; intros t; unfold Shop.checkout_try;
      run_checkout; reflexivity].
  destruct (Shop.subscript (Shop.req_final_total d)) as [fv|e] eqn:Hfv;
    [|right; exists e; intros t; unfold Shop.checkout_try;
      run_checkout; reflexivity].
  destruct (Shop.float w fv) as [final|e] eqn:Hfinal;
    [|right; exists e; intros t; unfold Shop.checkout_try;
      run_checkout; reflexivity].
  destruct (Shop.subscript (Shop.req_items d)) as [iv|ei] eqn:Hiv.
  - destruct (Shop.new_items w iv) as [rows|er] eqn:Hrows.
    + destruct total as [total|], final as [final|].
      * left. exists d, total, final, rows.
        split; [reflexivity|]. rewrite Htv, Hfv, Hiv. cbn [bind].
        repeat split; assumption.
      * right.
        destruct (Shop.truthy (Shop.req_discount_code d)) eqn:Hcode,
                 (Shop.refuses w Shop.InsertSale) eqn:Hins;
          eexists; intros t;
          unfold Shop.checkout_try, Shop.insert_sale, Shop.execute;
          run_checkout; reflexivity.
      * right.
        destruct (Shop.truthy (Shop.req_discount_code d)) eqn:Hcode,
                 (Shop.refuses w Shop.InsertSale) eqn:Hins;
          eexists; intros t;
          unfold Shop.checkout_try, Shop.insert_sale, Shop.execute;
          run_checkout; reflexivity.
      * right.
        destruct (Shop.truthy (Shop.req_discount_code d)) eqn:Hcode,
                 (Shop.refuses w Shop.InsertSale) eqn:Hins;
          eexists; intros t;
          unfold Shop.checkout_try, Shop.insert_sale, Shop.execute;
          run_checkout; reflexivity.
    + right.
      destruct (Shop.truthy (Shop.req_discount_code d)) eqn:Hcode,
               (Shop.refuses w Shop.InsertSale) eqn:Hins,
               (Shop.refuses w Shop.SelectCoupon) eqn:Hsel,
               total as [total|], final as [final|];
        eexists; intros t;
        unfold Shop.checkout_try, Shop.insert_sale, Shop.execute;
        run_checkout; reflexivity.
  - right.
    destruct (Shop.truthy (Shop.req_discount_code d)) eqn:Hcode,
             (Shop.refuses w Shop.InsertSale) eqn:Hins,
             (Shop.refuses w Shop.SelectCoupon) eqn:Hsel,
             total as [total|], final as [final|];
      eexists; intros t;
      unfold Shop.checkout_try, Shop.insert_sale, Shop.execute;
      run_checkout; reflexivity.
Qed.

(** A request is well formed or its [try] block raises. *)
Lemma readable_or_raises (w : Shop.world) (data : option Shop.request)
  (t : Shop.tables) :
  (exists d total final rows,
      data = Some d /\ readable w d total final rows) \/
  (exists e, Shop.checkout_try w data t = Raise e).
Proof.
  destruct (unreadable_raises w data) as [H|[e He]]; [now left|].
  right. now exists e.
Qed.

(** The two ways a checkout ends. *)
Lemma checkout_cases (w : Shop.world) (data : option Shop.request)
  (t : Shop.tables) :
  (exists d total final rows,
      data = Some d /\ readable w d total final rows /\
      Shop.checkout w data t =
      (Shop.SaleOk (Shop.SaleRow.id (sale_of w d t total final rows))
                   (Shop.random_code w),
       {| Shop.sale_rows :=
            Shop.sale_rows t ++ [sale_of w d t total final rows];
          Shop.coupons := coupons_after d t |})) \/
  (exists e, Shop.checkout w data t = (Shop.SaleError e, t)).
Proof.
  unfold Shop.checkout.
  destruct (readable_or_raises w data t)
    as [(d & total & final & rows & -> & Hread)|[e ->]];
    [|right; now exists e].
  rewrite (checkout_try_readable t Hread).
  destruct (sends w d t rows) as [[]|e]; cbn [bind];
    [|right; now exists e].
  left. exists d, total, final, rows.
  split; [reflexivity|]. split; [exact Hread|reflexivity].
Qed.

Lemma new_items_length (w : Shop.world) (items : list Shop.item_request) :
  forall rows,
    Shop.new_items w items = Ret rows ->
    List.length rows = List.length items.
Proof.
  induction items as [|item items IH]; intros rows; cbn.
  - now intros [= <-].
  - unfold Shop.new_item at 1.
    destruct (Shop.subscript (Shop.item_product_name item)); [|discriminate].
    cbn [bind].
    destruct (Shop.subscript (Shop.item_price item)); [|discriminate].
    cbn [bind]. destruct (Shop.float w _); [|discriminate]. cbn [bind].
    destruct (Shop.new_items w items) as [rest|]; [|discriminate].
    cbn [bind]. intros [= <-]. cbn. now rewrite (IH rest eq_refl).
Qed.

(** A well-formed request at an engine that accepts every statement. *)
Lemma checkout_accepted (w : Shop.world) (d : Shop.request)
  (t : Shop.tables) (total final : R) (rows : list Shop.ItemRow.t) :
  readable w d total final rows ->
  (forall st, Shop.refuses w st = false) ->
  Shop.checkout w (Some d) t =
  (Shop.SaleOk (Shop.SaleRow.id (sale_of w d t total final rows))
               (Shop.random_code w),
   {| Shop.sale_rows := Shop.sale_rows t ++ [sale_of w d t total final rows];
      Shop.coupons := coupons_after d t |}).
Proof.
  intros Hread Hok. unfold Shop.checkout.
  rewrite (checkout_try_readable t Hread). unfold sends, Shop.execute.
  rewrite !Hok.
  destruct (Shop.truthy _); cbn [bind];
    [destruct (Shop.coupon_with _ _)|]; cbn [bind];
    destruct rows; reflexivity.
Qed.

(** A checkout stores the whole sale or nothing: either the response is
    the success, and the sales table has gained one sale with a fresh
    identifier, the totals the request carried (numbers, no [nan]), its
    discount code, one item per object of the request, and the coupon of
    the code (when the code is not empty) has one use more; or the
    response is the error and the tables are the ones before.  With a
    well-formed request and an engine that accepts every statement it is
    the success. *)
Theorem checkout_all_or_nothing (w : Shop.world)
  (data : option Shop.request) (t : Shop.tables) :
  ((exists d total final rows items,
       data = Some d /\
       Shop.req_items d = Some items /\
       Shop.new_items w items = Ret rows /\
       List.length rows = List.length items /\
       bind (Shop.subscript (Shop.req_total d)) (Shop.float w)
       = Ret (Shop.Num total) /\
       bind (Shop.subscript (Shop.req_final_total d)) (Shop.float w)
       = Ret (Shop.Num final) /\
       ~ In (Shop.SaleRow.id (sale_of w d t total final rows))
            (map Shop.SaleRow.id (Shop.sale_rows t)) /\
       Shop.checkout w data t =
       (Shop.SaleOk (Shop.SaleRow.id (sale_of w d t total final rows))
                    (Shop.random_code w),
        {| Shop.sale_rows :=
             Shop.sale_rows t ++ [sale_of w d t total final rows];
           Shop.coupons := coupons_after d t |})) \/
   (exists e, Shop.checkout w data t = (Shop.SaleError e, t))) /\
  (forall d total final rows,
      data = Some d ->
      readable w d total final rows ->
      (forall st, Shop.refuses w st = false) ->
      Shop.checkout w data t =
      (Shop.SaleOk (Shop.SaleRow.id (sale_of w d t total final rows))
                   (Shop.random_code w),
       {| Shop.sale_rows :=
            Shop.sale_rows t ++ [sale_of w d t total final rows];
          Shop.coupons := coupons_after d t |})).
Proof.
  split.
  - destruct (checkout_cases w data t)
      as [(d & total & final & rows & -> & Hread & Hrun)|He];
      [left|now right].
    destruct Hread as (Htotal & Hfinal & Hrows).
    destruct (Shop.req_items d) as [items|] eqn:Hitems; [|discriminate].
    cbn [Shop.subscript bind] in Hrows.
    exists d, total, final, rows, items.
    split; [reflexivity|]. split; [exact Hitems|]. split; [exact Hrows|].
    split; [now apply (@new_items_length w items)|].
    split; [exact Htotal|]. split; [exact Hfinal|].
    split; [|exact Hrun].
    cbn [sale_of Shop.SaleRow.id]. unfold next_id.
    generalize (map Shop.SaleRow.id (Shop.sale_rows t)). intros ids Hin.
    assert (Hmax : forall i, In i ids -> i <= fold_right Z.max 0 ids).
    { clear Hin. induction ids as [|j ids IH]; intros i Hi; [destruct Hi|].
      destruct Hi as [E|H].
      - subst. cbn. lia.
      - cbn. specialize (IH i H). lia. }
    specialize (Hmax _ Hin). lia.
  - intros d total final rows -> Hread Hok. now apply checkout_accepted.
Qed.

(** A checkout of two items with a coupon, computed; and the same with
    one price that is [null]: the error, and nothing stored. *)
Example checkout_two_items :
  Shop.checkout till
    (Some (basket (Some "YP-A1B2")
             [digital_item (Shop.JNum (Shop.Num 15)); digital_item (Shop.JNum (Shop.Num 5))]))
    (with_coupon "YP-A1B2" 0)
  = (Shop.SaleOk 1 "K7Q2M9XA",
     {| Shop.sale_rows :=
          [{| Shop.SaleRow.id := 1; Shop.SaleRow.timestamp := 700;
              Shop.SaleRow.total := 15%R; Shop.SaleRow.final_total := 5%R;
              Shop.SaleRow.discount_code := Some "YP-A1B2";
              Shop.SaleRow.status := "completed";
              Shop.SaleRow.access_code := "K7Q2M9XA";
              Shop.SaleRow.items :=
                [{| Shop.ItemRow.photo_id := Some 10;
                    Shop.ItemRow.product_name := Some "Digital HD";
                    Shop.ItemRow.price := Some 15%R;
                    Shop.ItemRow.product_type := Some "digital";
                    Shop.ItemRow.photographer := Some "Manual" |};
                 {| Shop.ItemRow.photo_id := Some 10;
                    Shop.ItemRow.product_name := Some "Digital HD";
                    Shop.ItemRow.price := Some 5%R;
                    Shop.ItemRow.product_type := Some "digital";
                    Shop.ItemRow.photographer := Some "Manual" |}] |}];
        Shop.coupons := [one_use "YP-A1B2" 1] |}) /\
  Shop.checkout till
    (Some (basket (Some "YP-A1B2")
             [digital_item (Shop.JNum (Shop.Num 15)); digital_item Shop.JNull]))
    (with_coupon "YP-A1B2" 0)
  = (Shop.SaleError TypeError, with_coupon "YP-A1B2" 0).
Proof. split; reflexivity. Qed.

(** *** From the checkout to the closing *)

(** The row of an item has no price exactly when [float] read the price
    as [nan]. *)
Lemma new_items_prices (w : Shop.world) (items : list Shop.item_request) :
  forall rows,
    Shop.new_items w items = Ret rows ->
    (Forall (fun item => ~ nan_price w item) items ->
     Forall (fun i => Shop.ItemRow.price i <> None) rows) /\
    (Exists (nan_price w) items ->
     Exists (fun i => Shop.ItemRow.price i = None) rows).
Proof.
  induction items as [|item items IH]; intros rows; cbn [Shop.new_items].
  - intros [= <-]. split; [constructor|intros H; inversion H].
  - unfold Shop.new_item at 1.
    destruct (Shop.subscript (Shop.item_product_name item)); [|discriminate].
    cbn [bind].
    destruct (Shop.item_price item) as [v|] eqn:Hv;
      cbn [Shop.subscript bind]; [|discriminate].
    destruct (Shop.float w v) as [price|] eqn:Hprice; [|discriminate].
    cbn [bind].
    destruct (Shop.new_items w items) as [rest|]; [|discriminate].
    cbn [bind]. intros [= <-]. destruct (IH rest eq_refl) as [Hall Hex].
    split.
    + intros Hitems. inversion Hitems as [|? ? Hitem Hrest]; subst.
      constructor; [|now apply Hall].
      cbn [Shop.ItemRow.price]. destruct price as [r|]; [discriminate|].
      exfalso. apply Hitem. exists v. now split.
    + intros Hitems. inversion Hitems as [? ? Hitem|? ? Hrest]; subst.
      * apply Exists_cons_hd. destruct Hitem as (v' & Hv' & Hnan).
        rewrite Hv in Hv'. injection Hv' as <-.
        rewrite Hprice in Hnan. injection Hnan as ->. reflexivity.
      * apply Exists_cons_tl. now apply Hex.
Qed.

Lemma checkout_priced (w : Shop.world) (data : option Shop.request)
  (t : Shop.tables) :
  prices_are_numbers w data ->
  priced t -> priced (snd (Shop.checkout w data t)).
Proof.
  intros Hnum Hp.
  destruct (checkout_cases w data t)
    as [(d & total & final & rows & -> & Hread & ->)|[e ->]]; [|exact Hp].
  unfold priced. cbn [snd Shop.sale_rows]. apply Forall_app. split; [exact Hp|].
  constructor; [|constructor]. cbn [sale_of Shop.SaleRow.items].
  destruct Hread as (_ & _ & Hrows).
  destruct (Shop.req_items d) as [items|] eqn:Hitems; [|discriminate].
  cbn [Shop.subscript bind] in Hrows.
  apply (proj1 (@new_items_prices w items rows Hrows)).
  now apply (Hnum d items).
Qed.

Lemma checkouts_priced (reqs : list (Shop.world * option Shop.request)) :
  Forall (fun wr => prices_are_numbers (fst wr) (snd wr)) reqs ->
  forall t, priced t -> priced (checkouts reqs t).
Proof.
  unfold checkouts.
  induction 1 as [|[w data] reqs Hreq _ IH]; intros t Hp; [exact Hp|].
  cbn [fold_left fst snd]. apply IH. now apply checkout_priced.
Qed.

Lemma tally_items_returns (its : list SaleItem.t) :
  Forall (fun i => SaleItem.price i <> None) its ->
  forall t, exists t', tally_items its t = Ret t'.
Proof.
  induction 1 as [|item its Hitem _ IH]; intros t; cbn [tally_items].
  - now exists t.
  - unfold tally_item at 1.
    destruct (SaleItem.price item); [|contradiction]. cbn [bind]. apply IH.
Qed.

Lemma tally_sales_returns (ss : list Sale.t) :
  Forall (fun s => Forall (fun i => SaleItem.price i <> None) (Sale.items s))
         ss ->
  forall t, exists t', tally_sales ss t = Ret t'.
Proof.
  induction 1 as [|s ss Hs _ IH]; intros t; cbn [tally_sales].
  - now exists t.
  - destruct (tally_items_returns Hs t) as [t1 ->]. cbn [bind]. apply IH.
Qed.

Lemma sales_to_close_sublist (db : database) (P : Sale.t -> Prop) :
  Forall P (sales db) -> Forall P (sales_to_close db).
Proof.
  intros H. unfold sales_to_close.
  destruct (latest_report (eod_reports db)); [|exact H].
  rewrite Forall_forall in *. intros s Hs.
  apply filter_In in Hs as [Hs _]. now apply H.
Qed.

(** Sales recorded by [checkout] from requests none of whose prices is
    [nan] never break a closing: every item such a checkout stores has a
    price, so on a database whose sales are those of a series of such
    checkouts the tally of [close_day_api] does not raise, and a closing
    by an administrator succeeds whenever the engine accepts its
    statements. *)
Theorem checkouts_with_prices_close
  (reqs : list (Shop.world * option Shop.request)) (db : database)
  (w : world) (u : user) (notes : string) :
  Forall (fun wr => prices_are_numbers (fst wr) (snd wr)) reqs ->
  sales db = map Shop.as_closing_sale (Shop.sale_rows (checkouts reqs no_sales)) ->
  role u = "admin" ->
  (forall st, refuses w st = false) ->
  priced (checkouts reqs no_sales) /\
  exists t,
    tally_sales (sales_to_close db) empty_tally = Ret t /\
    close_day_api w (Some u) notes db =
    (closed_ok (EODReport.id (closing_record w u notes db t)),
     closed db (closing_record w u notes db t)).
Proof.
  intros Hnum Hsales Hrole Hok.
  assert (Hp : priced (checkouts reqs no_sales))
    by (apply checkouts_priced; [exact Hnum|constructor]).
  split; [exact Hp|].
  assert (Hall : Forall (fun s => Forall (fun i => SaleItem.price i <> None)
                                         (Sale.items s))
                        (sales_to_close db)).
  { apply sales_to_close_sublist. rewrite Hsales.
    apply Forall_map. eapply Forall_impl; [|exact Hp].
    intros s Hs. cbn. apply Forall_map. exact Hs. }
  destruct (tally_sales_returns Hall empty_tally) as [t Ht].
  exists t. split; [exact Ht|].
  rewrite (@ClosingFacts.close_day_admin w u notes db Hrole).
  now rewrite !Hok, Ht.
Qed.

Lemma digital_item_number (r : R) :
  prices_are_numbers till
    (Some (basket None [digital_item (Shop.JNum (Shop.Num r))])).
Proof.
  intros d items [= <-] [= <-]. constructor; [|constructor].
  intros (v & [= <-] & H). discriminate.
Qed.

Lemma checkouts_with_prices_close_witness :
  priced
    (checkouts
       [(till, Some (basket None [digital_item (Shop.JNum (Shop.Num 15))]));
        (till, Some (basket None [digital_item (Shop.JNum (Shop.Num 5))]))]
       no_sales) /\
  exists t,
    tally_sales
      (sales_to_close
         {| photos := []; face_descriptors := [];
            sales := map Shop.as_closing_sale
                       (Shop.sale_rows
                          (checkouts
                             [(till, Some (basket None
                                [digital_item (Shop.JNum (Shop.Num 15))]));
                              (till, Some (basket None
                                [digital_item (Shop.JNum (Shop.Num 5))]))]
                             no_sales));
            eod_reports := [] |})
      empty_tally = Ret t /\
    close_day_api (Examples.kiosk (Ret [])) (Some Examples.admin) "cierre"
      {| photos := []; face_descriptors := [];
         sales := map Shop.as_closing_sale
                    (Shop.sale_rows
                       (checkouts
                          [(till, Some (basket None
                             [digital_item (Shop.JNum (Shop.Num 15))]));
                           (till, Some (basket None
                             [digital_item (Shop.JNum (Shop.Num 5))]))]
                          no_sales));
         eod_reports := [] |}
    = (closed_ok
         (EODReport.id
            (closing_record (Examples.kiosk (Ret [])) Examples.admin "cierre"
               {| photos := []; face_descriptors := [];
                  sales := map Shop.as_closing_sale
                             (Shop.sale_rows
                                (checkouts
                                   [(till, Some (basket None
                                      [digital_item
                                         (Shop.JNum (Shop.Num 15))]));
                                    (till, Some (basket None
                                      [digital_item
                                         (Shop.JNum (Shop.Num 5))]))]
                                   no_sales));
                  eod_reports := [] |} t)),
       closed
         {| photos := []; face_descriptors := [];
            sales := map Shop.as_closing_sale
                       (Shop.sale_rows
                          (checkouts
                             [(till, Some (basket None
                                [digital_item (Shop.JNum (Shop.Num 15))]));
                              (till, Some (basket None
                                [digital_item (Shop.JNum (Shop.Num 5))]))]
                             no_sales));
            eod_reports := [] |}
         (closing_record (Examples.kiosk (Ret [])) Examples.admin "cierre"
            {| photos := []; face_descriptors := [];
               sales := map Shop.as_closing_sale
                          (Shop.sale_rows
                             (checkouts
                                [(till, Some (basket None
                                   [digital_item
                                      (Shop.JNum (Shop.Num 15))]));
                                 (till, Some (basket None
                                   [digital_item
                                      (Shop.JNum (Shop.Num 5))]))]
                                no_sales));
               eod_reports := [] |} t)).
Proof.
  apply checkouts_with_prices_close.
  - constructor; [apply digital_item_number|].
    constructor; [apply digital_item_number|constructor].
  - reflexivity.
  - reflexivity.
  - reflexivity.
Defined.

Lemma tally_items_unpriced (its : list SaleItem.t) :
  Exists (fun i => SaleItem.price i = None) its ->
  forall t, tally_items its t = Raise TypeError.
Proof.
  induction 1 as [item its Hitem|item its _ IH]; intros t; cbn [tally_items].
  - unfold tally_item. now rewrite Hitem.
  - unfold tally_item at 1.
    destruct (SaleItem.price item); [|reflexivity]. cbn [bind]. apply IH.
Qed.

Lemma tally_sales_unpriced (ss : list Sale.t) :
  Exists (fun s => Exists (fun i => SaleItem.price i = None) (Sale.items s))
         ss ->
  forall t, tally_sales ss t = Raise TypeError.
Proof.
  induction 1 as [s ss Hs|s ss _ IH]; intros t; cbn [tally_sales].
  - now rewrite (tally_items_unpriced Hs).
  - destruct (tally_items (Sale.items s) t) as [t1|e] eqn:H1; cbn [bind];
      [apply IH|].
    clear IH. revert t H1. generalize (Sale.items s).
    induction l as [|item its IH]; intros t; cbn [tally_items];
      [discriminate|].
    unfold tally_item at 1.
    destruct (SaleItem.price item); [|now intros [= <-]].
    cbn [bind]. apply IH.
Qed.

(** A price that [float] reads as [nan] gets through the checkout and
    breaks the closings after it: the checkout of a well-formed request
    is answered as a sale, the item is stored without a price (SQLite
    keeps the [nan] as NULL), and every closing by an administrator that
    sums up that sale leaves the database as it was and answers with
    status 500, the [TypeError] of adding [None] when the engine answers
    the queries. *)
Theorem nan_price_breaks_closing (w : Shop.world) (d : Shop.request)
  (t : Shop.tables) (total final : R) (rows : list Shop.ItemRow.t)
  (items : list Shop.item_request) :
  readable w d total final rows ->
  (forall st, Shop.refuses w st = false) ->
  Shop.req_items d = Some items ->
  Exists (nan_price w) items ->
  Shop.checkout w (Some d) t =
  (Shop.SaleOk (Shop.SaleRow.id (sale_of w d t total final rows))
               (Shop.random_code w),
   {| Shop.sale_rows := Shop.sale_rows t ++ [sale_of w d t total final rows];
      Shop.coupons := coupons_after d t |}) /\
  Exists (fun i => Shop.ItemRow.price i = None) rows /\
  forall (wc : world) (u : user) (notes : string) (db : database),
    role u = "admin" ->
    In (Shop.as_closing_sale (sale_of w d t total final rows))
       (sales_to_close db) ->
    snd (close_day_api wc (Some u) notes db) = db /\
    exists e,
      fst (close_day_api wc (Some u) notes db) = failed e /\
      (refuses wc Select = false -> e = TypeError).
Proof.
  intros Hread Hok Hitems Hnan.
  assert (Hrows : Exists (fun i => Shop.ItemRow.price i = None) rows).
  { destruct Hread as (_ & _ & Hrows). rewrite Hitems in Hrows.
    cbn [Shop.subscript bind] in Hrows.
    now apply (proj2 (@new_items_prices w items rows Hrows)). }
  split; [|split; [exact Hrows|]].
  - now apply checkout_accepted.
  - intros wc u notes db Hrole Hin.
    rewrite (@ClosingFacts.close_day_admin wc u notes db Hrole).
    destruct (refuses wc Select);
      [split; [reflexivity|]; exists OperationalError;
       split; [reflexivity|discriminate]|].
    rewrite tally_sales_unpriced.
    + split; [reflexivity|]. exists TypeError. now split.
    + apply Exists_exists. eexists. split; [exact Hin|].
      cbn [Shop.as_closing_sale Sale.items sale_of Shop.SaleRow.items].
      apply Exists_exists. apply Exists_exists in Hrows as (r & Hr & Hnone).
      exists (Shop.as_closing_item r). split; [now apply in_map|exact Hnone].
Qed.

Lemma nan_price_breaks_closing_witness :
  Shop.checkout till
    (Some (basket None [digital_item (Shop.JNum Shop.NaN)])) no_sales =
  (Shop.SaleOk
     (Shop.SaleRow.id
        (sale_of till (basket None [digital_item (Shop.JNum Shop.NaN)])
           no_sales 15 5
           [{| Shop.ItemRow.photo_id := Some 10;
               Shop.ItemRow.product_name := Some "Digital HD";
               Shop.ItemRow.price := None;
               Shop.ItemRow.product_type := Some "digital";
               Shop.ItemRow.photographer := Some "Manual" |}]))
     (Shop.random_code till),
   {| Shop.sale_rows :=
        Shop.sale_rows no_sales ++
        [sale_of till (basket None [digital_item (Shop.JNum Shop.NaN)])
           no_sales 15 5
           [{| Shop.ItemRow.photo_id := Some 10;
               Shop.ItemRow.product_name := Some "Digital HD";
               Shop.ItemRow.price := None;
               Shop.ItemRow.product_type := Some "digital";
               Shop.ItemRow.photographer := Some "Manual" |}]];
      Shop.coupons :=
        coupons_after (basket None [digital_item (Shop.JNum Shop.NaN)])
          no_sales |}) /\
  Exists (fun i => Shop.ItemRow.price i = None)
    [{| Shop.ItemRow.photo_id := Some 10;
        Shop.ItemRow.product_name := Some "Digital HD";
        Shop.ItemRow.price := None;
        Shop.ItemRow.product_type := Some "digital";
        Shop.ItemRow.photographer := Some "Manual" |}] /\
  forall (wc : world) (u : user) (notes : string) (db : database),
    role u = "admin" ->
    In (Shop.as_closing_sale
          (sale_of till (basket None [digital_item (Shop.JNum Shop.NaN)])
             no_sales 15 5
             [{| Shop.ItemRow.photo_id := Some 10;
                 Shop.ItemRow.product_name := Some "Digital HD";
                 Shop.ItemRow.price := None;
                 Shop.ItemRow.product_type := Some "digital";
                 Shop.ItemRow.photographer := Some "Manual" |}]))
       (sales_to_close db) ->
    snd (close_day_api wc (Some u) notes db) = db /\
    exists e,
      fst (close_day_api wc (Some u) notes db) = failed e /\
      (refuses wc Select = false -> e = TypeError).
Proof.
  apply (@nan_price_breaks_closing till
           (basket None [digital_item (Shop.JNum Shop.NaN)]) no_sales 15 5
           [{| Shop.ItemRow.photo_id := Some 10;
               Shop.ItemRow.product_name := Some "Digital HD";
               Shop.ItemRow.price := None;
               Shop.ItemRow.product_type := Some "digital";
               Shop.ItemRow.photographer := Some "Manual" |}]
           [digital_item (Shop.JNum Shop.NaN)]).
  - repeat split.
  - reflexivity.
  - reflexivity.
  - left. exists (Shop.JNum Shop.NaN). now split.
Defined.

(** The day after a checkout with a price that is [nan], computed: the
    sale is stored, and the closing answers with the error and stores
    nothing; a total that is [nan] is refused by the checkout itself. *)
Example closing_after_nan_price :
  fst (Shop.checkout till
         (Some (basket None [digital_item (Shop.JNum Shop.NaN)])) no_sales)
  = Shop.SaleOk 1 "K7Q2M9XA" /\
  close_day_api (Examples.kiosk (Ret [])) (Some Examples.admin) "cierre"
    (day_of (digital_item (Shop.JNum Shop.NaN)))
  = ({| status := 500; payload := Error (Str TypeError) |},
     day_of (digital_item (Shop.JNum Shop.NaN))) /\
  Shop.checkout till
    (Some {| Shop.req_total := Some (Shop.JNum Shop.NaN);
             Shop.req_final_total := Some (Shop.JNum (Shop.Num 5));
             Shop.req_discount_code := None;
             Shop.req_items := Some [] |}) no_sales
  = (Shop.SaleError IntegrityError, no_sales).
Proof. repeat split. Qed.

(** *** Coupons *)

Lemma coupon_with_used (c c' : string) (cs : list Shop.Coupon.t) :
  Shop.coupon_with c' (Shop.use_coupon c cs) =
  if String.eqb c' c
  then option_map Shop.used_once (Shop.coupon_with c cs)
  else Shop.coupon_with c' cs.
Proof.
  unfold Shop.coupon_with.
  induction cs as [|x cs IH]; cbn [Shop.use_coupon find].
  - now destruct (String.eqb c' c).
  - destruct (String.eqb (Shop.Coupon.code x) c) eqn:Exc.
    + apply String.eqb_eq in Exc. cbn [find Shop.used_once Shop.Coupon.code].
      destruct (String.eqb c' c) eqn:Ecc.
      * apply String.eqb_eq in Ecc. subst c'. rewrite Exc.
        now rewrite String.eqb_refl.
      * rewrite Exc, (String.eqb_sym c c'), Ecc. reflexivity.
    + cbn [find]. destruct (String.eqb (Shop.Coupon.code x) c') eqn:Exc'.
      * destruct (String.eqb c' c) eqn:Ecc; [|reflexivity].
        apply String.eqb_eq in Ecc. subst c'. congruence.
      * exact IH.
Qed.

(** A successful checkout with a discount code counts one use of the
    coupon of that code and of no other: afterwards the code finds the
    same coupon with [current_uses] one higher, every other code finds
    what it found before, and a code that [validate_coupon] accepted
    before is refused with the limit message as soon as the uses reach
    [max_uses], and accepted with the same type and value until then. *)
Theorem checkout_counts_coupon_use (w : Shop.world) (d : Shop.request)
  (t t' : Shop.tables) (c : string) (sale_id : Z) (access : string) :
  Shop.req_discount_code d = Some c ->
  c <> "" ->
  Shop.checkout w (Some d) t = (Shop.SaleOk sale_id access, t') ->
  (forall c',
      Shop.coupon_with c' (Shop.coupons t') =
      if String.eqb c' c
      then option_map Shop.used_once (Shop.coupon_with c (Shop.coupons t))
      else Shop.coupon_with c' (Shop.coupons t)) /\
  (forall w2 ty v,
      Shop.validate_coupon w2 (Some (Some c)) t = Shop.Valid ty v ->
      exists coup,
        Shop.coupon_with c (Shop.coupons t) = Some coup /\
        Shop.Coupon.current_uses coup < Shop.Coupon.max_uses coup /\
        Shop.validate_coupon w2 (Some (Some c)) t' =
        if Shop.Coupon.max_uses coup <=? Shop.Coupon.current_uses coup + 1
        then Shop.Invalid "Límite de usos alcanzado"
        else Shop.Valid ty v).
Proof.
  intros Hcode Hc Hrun.
  assert (Hafter : Shop.coupons t' = Shop.use_coupon c (Shop.coupons t)).
  { destruct (checkout_cases w (Some d) t)
      as [(d0 & total & final & rows & [= <-] & _ & Hrun')|[e He]];
      [|rewrite He in Hrun; discriminate].
    rewrite Hrun' in Hrun. injection Hrun as _ _ <-.
    cbn [Shop.coupons]. unfold coupons_after. rewrite Hcode.
    cbn [Shop.truthy Shop.get_default].
    destruct (String.eqb c "") eqn:E; [|reflexivity].
    now apply String.eqb_eq in E. }
  assert (Hfind : forall c',
             Shop.coupon_with c' (Shop.coupons t') =
             if String.eqb c' c
             then option_map Shop.used_once
                             (Shop.coupon_with c (Shop.coupons t))
             else Shop.coupon_with c' (Shop.coupons t)).
  { intros c'. rewrite Hafter. apply coupon_with_used. }
  split; [exact Hfind|].
  intros w2 ty v. unfold Shop.validate_coupon.
  rewrite (Hfind c), String.eqb_refl.
  destruct (Shop.coupon_with c (Shop.coupons t)) as [coup|];
    [|discriminate].
  cbn [option_map Shop.used_once Shop.Coupon.expiry Shop.Coupon.max_uses
       Shop.Coupon.current_uses Shop.Coupon.coupon_type Shop.Coupon.value].
  destruct (match Shop.Coupon.expiry coup with
            | Some e => e <? Shop.now w2
            | None => false
            end); [discriminate|].
  destruct (Shop.Coupon.max_uses coup <=? Shop.Coupon.current_uses coup)
    eqn:Euses; [discriminate|].
  intros [= <- <-]. exists coup.
  split; [reflexivity|]. split; [|reflexivity].
  apply Z.leb_gt. exact Euses.
Qed.

Lemma checkout_counts_coupon_use_witness :
  (forall c',
      Shop.coupon_with c' [one_use "YP-A1B2" 1] =
      if String.eqb c' "YP-A1B2"
      then option_map Shop.used_once
             (Shop.coupon_with "YP-A1B2"
                (Shop.coupons (with_coupon "YP-A1B2" 0)))
      else Shop.coupon_with c' (Shop.coupons (with_coupon "YP-A1B2" 0))) /\
  (forall w2 ty v,
      Shop.validate_coupon w2 (Some (Some "YP-A1B2"))
        (with_coupon "YP-A1B2" 0) = Shop.Valid ty v ->
      exists coup,
        Shop.coupon_with "YP-A1B2" (Shop.coupons (with_coupon "YP-A1B2" 0))
        = Some coup /\
        Shop.Coupon.current_uses coup < Shop.Coupon.max_uses coup /\
        Shop.validate_coupon w2 (Some (Some "YP-A1B2"))
          {| Shop.sale_rows :=
               [sale_of till
                  (basket (Some "YP-A1B2") [digital_item (Shop.JNum (Shop.Num 15))])
                  (with_coupon "YP-A1B2" 0) 15%R 5%R
                  [{| Shop.ItemRow.photo_id := Some 10;
                      Shop.ItemRow.product_name := Some "Digital HD";
                      Shop.ItemRow.price := Some 15%R;
                      Shop.ItemRow.product_type := Some "digital";
                      Shop.ItemRow.photographer := Some "Manual" |}]];
             Shop.coupons := [one_use "YP-A1B2" 1] |} =
        if Shop.Coupon.max_uses coup <=? Shop.Coupon.current_uses coup + 1
        then Shop.Invalid "Límite de usos alcanzado"
        else Shop.Valid ty v).
Proof.
  apply (@checkout_counts_coupon_use till
           (basket (Some "YP-A1B2") [digital_item (Shop.JNum (Shop.Num 15))])
           (with_coupon "YP-A1B2" 0)
           {| Shop.sale_rows :=
                [sale_of till
                   (basket (Some "YP-A1B2") [digital_item (Shop.JNum (Shop.Num 15))])
                   (with_coupon "YP-A1B2" 0) 15%R 5%R
                   [{| Shop.ItemRow.photo_id := Some 10;
                       Shop.ItemRow.product_name := Some "Digital HD";
                       Shop.ItemRow.price := Some 15%R;
                       Shop.ItemRow.product_type := Some "digital";
                       Shop.ItemRow.photographer := Some "Manual" |}]];
              Shop.coupons := [one_use "YP-A1B2" 1] |}
           "YP-A1B2" 1 "K7Q2M9XA").
  - reflexivity.
  - discriminate.
  - reflexivity.
Defined.

Lemma coupon_with_codes (c : string) (cs cs' : list Shop.Coupon.t) :
  map Shop.Coupon.code cs = map Shop.Coupon.code cs' ->
  (Shop.coupon_with c cs = None <-> Shop.coupon_with c cs' = None).
Proof.
  unfold Shop.coupon_with. revert cs'.
  induction cs as [|x cs IH]; intros [|x' cs']; cbn [map find];
    try discriminate; [tauto|].
  intros [= Hx Hrest]. rewrite Hx.
  destruct (String.eqb (Shop.Coupon.code x') c).
  - split; discriminate.
  - now apply IH.
Qed.

Lemma use_coupon_codes (c : string) (cs : list Shop.Coupon.t) :
  map Shop.Coupon.code (Shop.use_coupon c cs) = map Shop.Coupon.code cs.
Proof.
  induction cs as [|x cs IH]; [reflexivity|]. cbn [Shop.use_coupon].
  destruct (String.eqb (Shop.Coupon.code x) c); cbn [map]; [reflexivity|].
  now rewrite IH.
Qed.

(** [checkout] never checks a coupon: its response, the sales it leaves
    and the codes of the coupons it leaves do not depend on the expiry,
    the uses, the limit, the type or the value of any coupon, only on
    which codes exist, and in which order. *)
Theorem checkout_never_validates (w : Shop.world)
  (data : option Shop.request) (t1 t2 : Shop.tables) :
  Shop.sale_rows t1 = Shop.sale_rows t2 ->
  map Shop.Coupon.code (Shop.coupons t1) =
  map Shop.Coupon.code (Shop.coupons t2) ->
  fst (Shop.checkout w data t1) = fst (Shop.checkout w data t2) /\
  Shop.sale_rows (snd (Shop.checkout w data t1)) =
  Shop.sale_rows (snd (Shop.checkout w data t2)) /\
  map Shop.Coupon.code (Shop.coupons (snd (Shop.checkout w data t1))) =
  map Shop.Coupon.code (Shop.coupons (snd (Shop.checkout w data t2))).
Proof.
  intros Hsales Hcodes. unfold Shop.checkout.
  destruct (unreadable_raises w data)
    as [(d & total & final & rows & -> & Hread)|[e1 He1]].
  - rewrite (checkout_try_readable t1 Hread),
            (checkout_try_readable t2 Hread).
    assert (Hsends : sends w d t1 rows = sends w d t2 rows).
    { unfold sends.
      destruct (coupon_with_codes
                  (Shop.get_default (Shop.req_discount_code d) "")
                  _ _ Hcodes) as [H12 H21].
      destruct (Shop.coupon_with _ (Shop.coupons t1)) as [c1|];
        destruct (Shop.coupon_with _ (Shop.coupons t2)) as [c2|];
        try reflexivity.
      - now specialize (H21 eq_refl).
      - now specialize (H12 eq_refl). }
    rewrite Hsends.
    destruct (sends w d t2 rows) as [[]|e]; cbn [bind fst snd].
    + cbn [Shop.sale_rows Shop.coupons]. unfold sale_of, coupons_after.
      rewrite Hsales. split; [reflexivity|]. split; [reflexivity|].
      destruct (Shop.truthy _); [|exact Hcodes].
      now rewrite !use_coupon_codes.
    + split; [reflexivity|]. split; [exact Hsales|exact Hcodes].
  - now rewrite !He1.
Qed.

Lemma checkout_never_validates_witness :
  fst (Shop.checkout till
         (Some (basket (Some "YP-A1B2") [digital_item (Shop.JNum (Shop.Num 15))]))
         (with_coupon "YP-A1B2" 0)) =
  fst (Shop.checkout till
         (Some (basket (Some "YP-A1B2") [digital_item (Shop.JNum (Shop.Num 15))]))
         (with_coupon "YP-A1B2" 1)) /\
  Shop.sale_rows
    (snd (Shop.checkout till
            (Some (basket (Some "YP-A1B2") [digital_item (Shop.JNum (Shop.Num 15))]))
            (with_coupon "YP-A1B2" 0))) =
  Shop.sale_rows
    (snd (Shop.checkout till
            (Some (basket (Some "YP-A1B2") [digital_item (Shop.JNum (Shop.Num 15))]))
            (with_coupon "YP-A1B2" 1))) /\
  map Shop.Coupon.code
    (Shop.coupons
       (snd (Shop.checkout till
               (Some (basket (Some "YP-A1B2")
                        [digital_item (Shop.JNum (Shop.Num 15))]))
               (with_coupon "YP-A1B2" 0)))) =
  map Shop.Coupon.code
    (Shop.coupons
       (snd (Shop.checkout till
               (Some (basket (Some "YP-A1B2")
                        [digital_item (Shop.JNum (Shop.Num 15))]))
               (with_coupon "YP-A1B2" 1)))).
Proof.
  apply checkout_never_validates.
  - reflexivity.
  - reflexivity.
Defined.

(** The coupon of the witness had reached its limit: the checkout is
    answered as a sale and the coupon then counts two uses of one. *)
Example checkout_exhausted_coupon :
  Shop.validate_coupon till (Some (Some "YP-A1B2")) (with_coupon "YP-A1B2" 1)
  = Shop.Invalid "Límite de usos alcanzado" /\
  fst (Shop.checkout till
         (Some (basket (Some "YP-A1B2") [digital_item (Shop.JNum (Shop.Num 15))]))
         (with_coupon "YP-A1B2" 1)) = Shop.SaleOk 1 "K7Q2M9XA" /\
  Shop.coupons
    (snd (Shop.checkout till
            (Some (basket (Some "YP-A1B2") [digital_item (Shop.JNum (Shop.Num 15))]))
            (with_coupon "YP-A1B2" 1))) = [one_use "YP-A1B2" 2].
Proof. repeat split. Qed.

End MoreShopFacts.
